(** * codex_status: credential refresh and polling engine

    A shallow embedding of [src/codex_status.js] and the properties of its
    token codec, refresh client, account session, pass and tail loop.

    Conventions of the embedding.
    - A value produced by [JSON.parse] is a [json]; JavaScript's [undefined]
      is the [None] of [option json].  Objects are association lists in
      insertion order, as [JSON.stringify] prints them.
    - JavaScript numbers are exact rationals ([Q]) where they come from JSON
      and integers ([Z]) where they are millisecond clocks, HTTP statuses or
      rounded results; the rounding of IEEE doubles, [NaN] apart, is not
      modelled, except in the progress bar, where it is any rounding that
      keeps the order (class [Doubles]).
    - Strings are sequences of 8-bit code units.
    - The trace of a run records file operations, requests, renders and
      what [console.error] prints; the warnings of [console.warn] are not
      recorded, and no statement says that nothing is printed.
    - Functions of the platform that the script only calls ([JSON.parse],
      [Buffer.from(_, 'base64')], [Number.prototype.toString],
      [Date.prototype.toISOString], [path.resolve], [ToNumber]) are the
      fields of the class [Platform]. *)

From Stdlib Require Import ZArith QArith Qround String Ascii List Lia Lqa Bool.
From stdpp Require Import base option gmap strings pretty.
Import ListNotations.

Open Scope Z_scope.
Open Scope string_scope.

(** ** Constants (lines 6-16) *)

Definition BASE_URL : string := "https://chatgpt.com/backend-api".
(** The default of [REFRESH_ENDPOINT]; an override from the environment
    changes the text of an error message only. *)
Definition REFRESH_ENDPOINT : string := "https://auth.openai.com/oauth/token".
Definition EXP_SKEW_SECONDS : Z := 60.
Definition REFRESH_INTERVAL_MS : Z := 30000.
Definition POLL_INTERVAL_MS : Z := 500.

(** ** JavaScript values *)

#[warnings="-register-all"]
Inductive json : Type :=
| JNull
| JBool (b : bool)
| JNum (q : Q)
| JStr (s : string)
| JArr (items : list json)
| JObj (fields : list (string * json)).

Definition isEmptyString (s : string) : bool :=
  match s with EmptyString => true | String _ _ => false end.

(** [ToBoolean] on parsed values. *)
Definition truthy (v : json) : bool :=
  match v with
  | JNull => false
  | JBool b => b
  | JNum q => negb (Qeq_bool q 0)
  | JStr s => negb (isEmptyString s)
  | JArr _ | JObj _ => true
  end.

Definition truthy_opt (v : option json) : bool :=
  match v with Some x => truthy x | None => false end.

(** [a || b] *)
Definition js_or (a b : option json) : option json :=
  if truthy_opt a then a else b.

(** [a ?? b] *)
Definition js_nullish (a b : option json) : option json :=
  match a with
  | None | Some JNull => b
  | Some _ => a
  end.

Fixpoint assoc (k : string) (fs : list (string * json)) : option json :=
  match fs with
  | [] => None
  | (k', v) :: rest => if String.eqb k k' then Some v else assoc k rest
  end.

(** [v.k] on a value that is not [null]: own properties of objects; the
    names read by the script are no property of a string, number, boolean
    or array. *)
Definition prop (v : json) (k : string) : option json :=
  match v with
  | JObj fs => assoc k fs
  | _ => None
  end.

(** [v?.k] *)
Definition prop_opt (v : option json) (k : string) : option json :=
  match v with
  | None | Some JNull => None
  | Some x => prop x k
  end.

Fixpoint assoc_set (k : string) (v : json) (fs : list (string * json))
  : list (string * json) :=
  match fs with
  | [] => [(k, v)]
  | (k', v') :: rest =>
      if String.eqb k k' then (k, v) :: rest else (k', v') :: assoc_set k v rest
  end.

(** [o.k = v]: an existing key keeps its place, a new key goes last.  On a
    primitive the assignment is dropped (the script is not in strict mode).
    Properties added to an array are outside the model: in a session no
    array reaches an assignment ([validateTokenBundle] rejects it), and
    the properties of [refreshTokensAndPersist] are stated for bundles
    that are objects. *)
Definition set_prop (o : json) (k : string) (v : json) : json :=
  match o with
  | JObj fs => JObj (assoc_set k v fs)
  | _ => o
  end.

Definition is_object (v : json) : bool :=
  match v with JObj _ => true | _ => false end.

(** ** Errors *)

Record JsError : Type := mkError {
  err_name : string;
  err_message : string;
  err_status : option Z;
  err_code : option string
}.

Definition newError (msg : string) : JsError := mkError "Error" msg None None.

(** [abortError] (lines 566-570) *)
Definition abortError : JsError := mkError "AbortError" "Aborted" None None.

(** [isAbortError] (lines 572-574) *)
Definition isAbortError (e : JsError) : bool :=
  String.eqb (err_name e) "AbortError"
  || match err_code e with
     | Some c => String.eqb c "ABORT_ERR"
     | None => false
     end.

Inductive Result (A : Type) : Type :=
| Ok (a : A)
| Throw (e : JsError).
Arguments Ok {A} a.
Arguments Throw {A} e.

(** ** String helpers of the token codec *)

(** [s.split(c)] *)
Fixpoint split_on (c : ascii) (s : string) : list string :=
  match s with
  | EmptyString => [EmptyString]
  | String a rest =>
      if Ascii.eqb a c then EmptyString :: split_on c rest
      else match split_on c rest with
           | h :: t => String a h :: t
           | [] => [String a EmptyString]
           end
  end.

Fixpoint repeat_string (s : string) (n : nat) : string :=
  match n with
  | O => EmptyString
  | S n' => s ++ repeat_string s n'
  end.

Fixpoint map_chars (f : ascii -> ascii) (s : string) : string :=
  match s with
  | EmptyString => EmptyString
  | String a rest => String (f a) (map_chars f rest)
  end.

Definition base64url_char (a : ascii) : ascii :=
  if Ascii.eqb a "-"%char then "+"%char
  else if Ascii.eqb a "_"%char then "/"%char
  else a.

(** The argument that [base64UrlDecode] (lines 368-373) hands to
    [Buffer.from(_, 'base64')]. *)
Definition base64UrlNormalize (segment : string) : string :=
  let padLength := ((4 - Z.of_nat (String.length segment) mod 4) mod 4) in
  let padded := segment ++ repeat_string "=" (Z.to_nat padLength) in
  map_chars base64url_char padded.

(** ** Window labels *)

(** [Math.round]: the nearest integer, halves towards +infinity. *)
Definition Math_round (q : Q) : Z := Qfloor (q + (1 # 2)).

Definition Math_ceil (q : Q) : Z := Qceiling q.

(** The number [humanizeWindow] receives: [null], [NaN] or an integer
    ([mapWindow] passes the result of [Math.ceil]). *)
Inductive minutes_arg : Type :=
| MinNull
| MinNaN
| MinInt (m : Z).

(** [humanizeWindow] (lines 338-351) *)
Definition humanizeWindow (minutes : minutes_arg) : string :=
  let MINUTES_PER_HOUR := 60 in
  let MINUTES_PER_DAY := 24 * MINUTES_PER_HOUR in
  let MINUTES_PER_WEEK := 7 * MINUTES_PER_DAY in
  let MINUTES_PER_MONTH := 30 * MINUTES_PER_DAY in
  match minutes with
  | MinNull => "unknown"
  | MinNaN => "annual"
  | MinInt m =>
      if (m <=? MINUTES_PER_DAY)%Z then
        let hours := Z.max 1 (Math_round (inject_Z m / inject_Z MINUTES_PER_HOUR)) in
        pretty hours ++ "h"
      else if (m <=? MINUTES_PER_WEEK)%Z then "weekly"
      else if (m <=? MINUTES_PER_MONTH)%Z then "monthly"
      else "annual"
  end.

(** ** Platform functions the script calls *)

Class Platform : Type := {
  (** [JSON.parse]; [None] is its [SyntaxError]. *)
  JSON_parse : string -> option json;
  (** [Buffer.from(s, 'base64').toString('utf8')] *)
  Buffer_base64_utf8 : string -> string;
  (** [Number.prototype.toString] on a finite number *)
  Number_toString : Q -> string;
  (** [new Date(ms).toISOString()] for a time value in range *)
  Date_toISOString : Z -> string;
  (** [path.resolve] *)
  path_resolve : string -> string;
  (** [ToNumber]; [None] is [NaN]. *)
  ToNumber : json -> option Q
}.

(** ** [JSON.stringify(value, null, 2)] *)

Definition dquote : ascii := "034"%char.
Definition newline : string := String "010"%char EmptyString.

Definition hex_digit (n : N) : ascii :=
  if (n <? 10)%N then ascii_of_N (48 + n) else ascii_of_N (87 + n).

(** [QuoteJSONString] on one code unit. *)
Definition quote_char (a : ascii) : string :=
  let n := N_of_ascii a in
  let bs := String "\"%char EmptyString in
  if (n =? 34)%N then bs ++ String dquote EmptyString
  else if (n =? 92)%N then bs ++ bs
  else if (n =? 8)%N then bs ++ "b"
  else if (n =? 9)%N then bs ++ "t"
  else if (n =? 10)%N then bs ++ "n"
  else if (n =? 12)%N then bs ++ "f"
  else if (n =? 13)%N then bs ++ "r"
  else if (n <? 32)%N then
    bs ++ "u00" ++ String (hex_digit (n / 16)) (String (hex_digit (n mod 16)) EmptyString)
  else String a EmptyString.

Fixpoint quote_body (s : string) : string :=
  match s with
  | EmptyString => EmptyString
  | String a rest => quote_char a ++ quote_body rest
  end.

Definition JSON_quote (s : string) : string :=
  String dquote (quote_body s ++ String dquote EmptyString).

Fixpoint join (sep : string) (parts : list string) : string :=
  match parts with
  | [] => EmptyString
  | [p] => p
  | p :: rest => p ++ sep ++ join sep rest
  end.

Fixpoint stringify `{Platform} (gap indent : string) (v : json) : string :=
  match v with
  | JNull => "null"
  | JBool true => "true"
  | JBool false => "false"
  | JNum q => Number_toString q
  | JStr s => JSON_quote s
  | JArr [] => "[]"
  | JArr items =>
      let stepback := indent in
      let inner := indent ++ gap in
      "[" ++ newline ++ inner
      ++ join ("," ++ newline ++ inner) (List.map (stringify gap inner) items)
      ++ newline ++ stepback ++ "]"
  | JObj [] => "{}"
  | JObj fields =>
      let stepback := indent in
      let inner := indent ++ gap in
      "{" ++ newline ++ inner
      ++ join ("," ++ newline ++ inner)
           (List.map (fun kv => JSON_quote (fst kv) ++ ": " ++ stringify gap inner (snd kv))
              fields)
      ++ newline ++ stepback ++ "}"
  end.

Definition JSON_stringify_2 `{Platform} (v : json) : string :=
  stringify "  " EmptyString v.

(** ** Token codec *)

(** [base64UrlDecode] (lines 368-373) *)
Definition base64UrlDecode `{Platform} (segment : string) : string :=
  Buffer_base64_utf8 (base64UrlNormalize segment).

(** The error of [JSON.parse].  Its message depends on the engine and on
    the text that does not parse; the one here stands for it, and nothing
    proved below depends on it. *)
Definition syntaxError : JsError :=
  mkError "SyntaxError" "Unexpected token in JSON" None None.

Definition typeError (msg : string) : JsError := mkError "TypeError" msg None None.

(** [decodeJwtPayload] (lines 259-265); [JNull] is its [null]. *)
Definition decodeJwtPayload `{Platform} (token : option json) : Result json :=
  match token with
  | Some (JStr t) =>
      let parts := split_on "."%char t in
      if (List.length parts <? 2)%nat then Ok JNull
      else
        let json := base64UrlDecode (nth 1 parts EmptyString) in
        match JSON_parse json with
        | Some v => Ok v
        | None => Throw syntaxError
        end
  | _ => Ok JNull
  end.

(** [shouldRefreshNow] (lines 248-257), at the reading [now_ms] of
    [Date.now()]. *)
Definition shouldRefreshNow `{Platform} (accessToken : option json) (now_ms : Z) : bool :=
  match decodeJwtPayload accessToken with
  | Ok payload =>
      if negb (truthy payload) then false
      else match prop payload "exp" with
           | Some (JNum exp) =>
               let now := now_ms / 1000 in
               Qle_bool (exp - inject_Z EXP_SKEW_SECONDS) (inject_Z now)
           | _ => false
           end
  | Throw _ => false
  end.

(** The record [decodeIdToken] returns; its [{}] has both fields absent. *)
Record Identity : Type := mkIdentity {
  id_email : option json;
  id_auth : option json
}.

Definition emptyIdentity : Identity := mkIdentity None None.

(** [decodeIdToken] (lines 353-366) *)
Definition decodeIdToken `{Platform} (raw : option json) : Identity :=
  match raw with
  | Some (JStr t) =>
      let parts := split_on "."%char t in
      if (List.length parts <? 2)%nat then emptyIdentity
      else
        let payload := base64UrlDecode (nth 1 parts EmptyString) in
        match JSON_parse payload with
        | None => emptyIdentity
        | Some JNull => emptyIdentity
        | Some parsed =>
            let authClaims :=
              js_or (prop parsed "https://api.openai.com/auth") (Some (JObj [])) in
            mkIdentity (js_or (prop parsed "email") (Some JNull)) authClaims
        end
  | _ => emptyIdentity
  end.

(** ** Result records *)

(** What [mapWindow] returns ([None] in a numeric field is [NaN]). *)
Record WindowInfo : Type := mkWindow {
  win_label : string;
  win_percentUsed : option Q;
  win_percentRemaining : option Q;
  win_windowMinutes : minutes_arg;
  win_resetsAt : option string;
  win_raw : json
}.

(** The object a successful [collectUsageForAuth] returns. *)
Record Usage : Type := mkUsage {
  u_authFile : string;
  u_baseUrl : string;
  u_email : option json;
  u_accountId : option json;
  u_planFromToken : option json;
  u_planFromUsage : option json;
  u_allowed : option json;
  u_limitReached : option json;
  u_primary : option WindowInfo;
  u_secondary : option WindowInfo;
  u_fetchedAt : string;
  u_lastRefresh : option json
}.

(** An entry of the array [renderOnce] builds: the session's object, or
    [{ authFile, error }]. *)
Inductive AccountResult : Type :=
| ResultUsage (u : Usage)
| ResultError (authFile : string) (error : string).

(** ** The world the script runs in *)

(** What the remote end answers to one request. *)
Inductive NetOutcome : Type :=
| NetRejected (message : string)
| NetResponse (status : Z) (statusText body : string).

(** What the environment decides at one suspension point: how long it
    takes, what the network answers if it is a request, and whether the
    file system fails if it is a file operation. *)
Record EnvStep : Type := mkStep {
  delay : N;
  net : NetOutcome;
  fs_fail : option string
}.

(** What the trace records: the file operations, the requests, the
    renders and what [console.error] prints.  The warnings of
    [console.warn] (lines 150, 163 and 363) are not recorded. *)
Inductive Event : Type :=
| EvReadFile (path : string)
| EvWriteFile (path content : string)
| EvUsageGet (accessToken accountId : option json)
| EvTokenPost (refreshToken : option json)
| EvRender (clearFirst : bool) (entries : list AccountResult)
| EvConsoleError (message : string).

(** [clock] is [Date.now()]; [quitAt] is the time at which the quit key
    calls [abortController.abort()] and resolves [quitPromise], if it ever
    does; [awaits] counts the suspension points passed so far and indexes
    [env]. *)
Record World : Type := mkWorld {
  clock : Z;
  quitAt : option Z;
  files : gmap string string;
  env : nat -> EnvStep;
  awaits : nat;
  trace : list Event
}.

(** [signal.aborted] *)
Definition aborted (w : World) : bool :=
  match quitAt w with
  | Some q => (q <=? clock w)%Z
  | None => false
  end.

Definition envStep (w : World) : EnvStep := env w (awaits w).

(** The world after a suspension that ends at time [t] and logs [evs]. *)
Definition resume (t : Z) (evs : list Event) (w : World) : World :=
  mkWorld t (quitAt w) (files w) (env w) (S (awaits w)) (trace w ++ evs).

Definition log (ev : Event) (w : World) : World :=
  mkWorld (clock w) (quitAt w) (files w) (env w) (awaits w) (trace w ++ [ev]).

Definition store (path content : string) (w : World) : World :=
  mkWorld (clock w) (quitAt w) (<[path := content]> (files w)) (env w) (awaits w) (trace w).

(** ** Asynchronous computations: state and exceptions *)

Definition M (A : Type) : Type := World -> Result A * World.

Definition ret {A} (a : A) : M A := fun w => (Ok a, w).

Definition throw {A} (e : JsError) : M A := fun w => (Throw e, w).

Definition bind {A B} (c : M A) (k : A -> M B) : M B :=
  fun w =>
    match c w with
    | (Ok a, w') => k a w'
    | (Throw e, w') => (Throw e, w')
    end.

Definition try_catch {A} (c : M A) (handler : JsError -> M A) : M A :=
  fun w =>
    match c w with
    | (Ok a, w') => (Ok a, w')
    | (Throw e, w') => handler e w'
    end.

Definition lift {A} (r : Result A) : M A := fun w => (r, w).

Notation "x <- c1 ;; c2" := (bind c1 (fun x => c2))
  (at level 100, c1 at next level, right associativity).

Definition Date_now : M Z := fun w => (Ok (clock w), w).

(** [ensureNotAborted] (lines 560-564) *)
Definition ensureNotAborted : M unit :=
  fun w => if aborted w then (Throw abortError, w) else (Ok tt, w).

(** *** File system *)

(** An error of the file system.  The script hands no signal to
    [fs.readFile] or [fs.writeFile]: their errors carry a system code,
    never [ABORT_ERR]. *)
Definition fsError (code message : string) : JsError :=
  mkError "Error" message None (Some code).

(** The message of the error that [fs.readFile] raises for a missing
    file. *)
Definition noSuchFile (path : string) : string :=
  "ENOENT: no such file or directory, open '" ++ path ++ "'".

(** [await fs.readFile(path, 'utf8')] *)
Definition fs_readFile (path : string) : M string :=
  fun w =>
    let s := envStep w in
    let w' := resume (clock w + Z.of_N (delay s)) [EvReadFile path] w in
    match fs_fail s with
    | Some msg => (Throw (fsError "EIO" msg), w')
    | None =>
        match files w !! path with
        | Some content => (Ok content, w')
        | None => (Throw (fsError "ENOENT" (noSuchFile path)), w')
        end
    end.

(** [await fs.writeFile(path, content)] *)
Definition fs_writeFile (path content : string) : M unit :=
  fun w =>
    let s := envStep w in
    let w' := resume (clock w + Z.of_N (delay s)) [EvWriteFile path content] w in
    match fs_fail s with
    | Some msg => (Throw (fsError "EIO" msg), w')
    | None => (Ok tt, store path content w')
    end.

(** [readAuth] (lines 212-215) *)
Definition readAuth `{Platform} (authPath : string) : M json :=
  raw <- fs_readFile authPath ;;
  match JSON_parse raw with
  | Some v => ret v
  | None => throw syntaxError
  end.

(** *** Network *)

Record Response : Type := mkResponse {
  res_status : Z;
  res_statusText : string;
  res_body : string
}.

Definition res_ok (r : Response) : bool :=
  (200 <=? res_status r)%Z && (res_status r <=? 299)%Z.

Definition fetchAbortError : JsError :=
  mkError "AbortError" "This operation was aborted" None None.

(** [await fetch(url, { ..., signal })] together with the read of the body
    ([res.text()], [res.json()]), which the same signal aborts.  A signal
    already aborted rejects before anything is sent; a quit while the
    request is in flight rejects at the time of the quit. *)
Definition fetch (request : Event) : M Response :=
  fun w =>
    if aborted w then (Throw fetchAbortError, w)
    else
      let s := envStep w in
      let finish := clock w + Z.of_N (delay s) in
      let interrupted :=
        match quitAt w with
        | Some q => (q <=? finish)%Z
        | None => false
        end in
      if interrupted then
        (Throw fetchAbortError, resume (default finish (quitAt w)) [request] w)
      else
        let w' := resume finish [request] w in
        match net s with
        | NetRejected msg => (Throw (typeError msg), w')
        | NetResponse status statusText body =>
            (Ok (mkResponse status statusText body), w')
        end.

Definition httpError (method url : string) (res : Response) : JsError :=
  mkError "Error"
    (method ++ " " ++ url ++ " failed: " ++ pretty (res_status res) ++ " "
     ++ res_statusText res ++ " => " ++ res_body res)
    (Some (res_status res)) None.

(** [res.json()] *)
Definition res_json `{Platform} (res : Response) : M json :=
  match JSON_parse (res_body res) with
  | Some v => ret v
  | None => throw syntaxError
  end.

(** The [ChatGPT-Account-Id] header: sent only for a truthy account id. *)
Definition accountHeader (accountId : option json) : option json :=
  if truthy_opt accountId then accountId else None.

(** [fetchUsage] (lines 217-238) *)
Definition fetchUsage `{Platform} (accessToken accountId : option json) : M json :=
  _ <- ensureNotAborted ;;
  let usageUrl := BASE_URL ++ "/wham/usage" in
  res <- fetch (EvUsageGet accessToken (accountHeader accountId)) ;;
  if negb (res_ok res) then throw (httpError "GET" usageUrl res)
  else res_json res.

(** [requestTokenRefresh] (lines 291-319) *)
Definition requestTokenRefresh `{Platform} (refreshToken : option json) : M json :=
  res <- fetch (EvTokenPost refreshToken) ;;
  if negb (res_ok res) then throw (httpError "POST" REFRESH_ENDPOINT res)
  else res_json res.

(** [validateTokenBundle] (lines 240-246) *)
Definition validateTokenBundle (tokens : option json) : M unit :=
  let access_is_nonempty_string :=
    match prop_opt tokens "access_token" with
    | Some (JStr s) => negb (isEmptyString s)
    | _ => false
    end in
  if negb (truthy_opt tokens) || negb access_is_nonempty_string then
    throw (newError
      "auth.json does not contain ChatGPT tokens (expected tokens.access_token). Run `codex login --chatgpt` first.")
  else ret tt.

(** ** Refresh client *)

(** Lines 277-285 of [refreshTokensAndPersist]: the refreshed tokens are
    stored into [auth], which is stamped with the time [now].  The script
    mutates [auth] in place; here the mutated [auth] is the result.  An
    [id_token] or [refresh_token] is taken over only when the response has
    a truthy one. *)
Definition storeRefreshed `{Platform} (auth refreshed access : json) (now : Z) : Result json :=
  match auth with
  | JNull => Throw (typeError "Cannot read properties of null (reading 'tokens')")
  | _ =>
      let auth1 :=
        if negb (truthy_opt (prop auth "tokens"))
        then set_prop auth "tokens" (JObj [])
        else auth in
      match prop auth1 "tokens" with
      | None =>
          Throw (typeError "Cannot set properties of undefined (setting 'access_token')")
      | Some tokens0 =>
          let tokens1 := set_prop tokens0 "access_token" access in
          let tokens2 :=
            if truthy_opt (prop refreshed "id_token")
            then set_prop tokens1 "id_token" (default JNull (prop refreshed "id_token"))
            else tokens1 in
          let tokens3 :=
            if truthy_opt (prop refreshed "refresh_token")
            then set_prop tokens2 "refresh_token" (default JNull (prop refreshed "refresh_token"))
            else tokens2 in
          let auth2 := set_prop auth1 "tokens" tokens3 in
          Ok (set_prop auth2 "last_refresh" (JStr (Date_toISOString now)))
      end
  end.

(** [refreshTokensAndPersist] (lines 267-289); the value is the mutated
    [auth], whose [tokens] the script returns. *)
Definition refreshTokensAndPersist `{Platform}
    (authPath : string) (auth : json) (refreshToken : option json) : M json :=
  if negb (truthy_opt refreshToken) then
    throw (newError "Cannot refresh tokens: refresh_token is missing from auth.json.")
  else
    _ <- ensureNotAborted ;;
    refreshed <- requestTokenRefresh refreshToken ;;
    match refreshed with
    | JNull => throw (typeError "Cannot read properties of null (reading 'access_token')")
    | _ =>
        if negb (truthy_opt (prop refreshed "access_token")) then
          throw (newError "Token refresh succeeded but no access_token was returned.")
        else
          now <- Date_now ;;
          auth' <- lift (storeRefreshed auth refreshed
                           (default JNull (prop refreshed "access_token")) now) ;;
          _ <- fs_writeFile authPath (JSON_stringify_2 auth' ++ newline) ;;
          ret auth'
    end.

(** ** Rate windows *)

Definition Qmax (a b : Q) : Q := if Qle_bool a b then b else a.

Definition MAX_TIME_VALUE : Q := inject_Z 8640000000000000.

(** [Math.trunc], which [new Date(ms)] applies to its argument. *)
Definition Qtrunc (q : Q) : Z :=
  if Qle_bool 0 q then Qfloor q else Qceiling q.

(** [new Date(seconds * 1000).toISOString()]; a time value out of range
    or [NaN] raises [RangeError]. *)
Definition isoOfSeconds `{Platform} (v : json) : Result string :=
  match ToNumber v with
  | None => Throw (mkError "RangeError" "Invalid time value" None None)
  | Some secs =>
      let ms := (secs * inject_Z 1000)%Q in
      if Qle_bool (- MAX_TIME_VALUE) ms && Qle_bool ms MAX_TIME_VALUE
      then Ok (Date_toISOString (Qtrunc ms))
      else Throw (mkError "RangeError" "Invalid time value" None None)
  end.

(** [mapWindow] (lines 321-336) *)
Definition mapWindow `{Platform} (window : option json) : Result (option WindowInfo) :=
  match window with
  | None => Ok None
  | Some win =>
      if negb (truthy win) then Ok None
      else
        let usedPercent :=
          match js_nullish (js_nullish (prop win "used_percent") (prop win "usedPercent"))
                  (Some (JNum 0)) with
          | Some v => ToNumber v
          | None => None
          end in
        let windowSeconds :=
          js_nullish (js_nullish (prop win "limit_window_seconds") (prop win "limitWindowSeconds"))
            (Some JNull) in
        let windowMinutes :=
          match windowSeconds with
          | None | Some JNull => MinNull
          | Some v =>
              match ToNumber v with
              | Some secs => MinInt (Math_ceil (secs / inject_Z 60))
              | None => MinNaN
              end
          end in
        let label :=
          match windowMinutes with
          | MinNull => "unknown"
          | _ => humanizeWindow windowMinutes
          end in
        let resetAtSeconds :=
          js_nullish (js_nullish (prop win "reset_at") (prop win "resetAt")) (Some JNull) in
        let finish (resetsAt : option string) :=
          mkWindow label usedPercent
            (option_map (fun u => Qmax 0 (inject_Z 100 - u)) usedPercent)
            windowMinutes resetsAt win in
        match resetAtSeconds with
        | None | Some JNull => Ok (Some (finish None))
        | Some v =>
            match isoOfSeconds v with
            | Ok iso => Ok (Some (finish (Some iso)))
            | Throw e => Throw e
            end
        end
  end.

(** ** Account session *)

(** What the first part of the session hands to the usage request. *)
Record Session : Type := mkSession {
  s_auth : json;
  s_tokens : option json;
  s_initialIdentity : Identity;
  s_accountId : option json
}.

Definition or_null (v : option json) : option json := js_or v (Some JNull).

(** [collectUsageForAuth], lines 139-155: load and validate the bundle,
    resolve the account id, refresh ahead of the request when the access
    token looks expired and a refresh token exists. *)
Definition sessionPrelude `{Platform} (authPath : string) : M Session :=
  _ <- ensureNotAborted ;;
  auth0 <- readAuth authPath ;;
  match auth0 with
  | JNull => throw (typeError "Cannot read properties of null (reading 'tokens')")
  | _ =>
      let auth :=
        if negb (truthy_opt (prop auth0 "tokens"))
        then set_prop auth0 "tokens" (JObj [])
        else auth0 in
      let tokens := prop auth "tokens" in
      _ <- validateTokenBundle tokens ;;
      let initialIdentity := decodeIdToken (prop_opt tokens "id_token") in
      let accountId :=
        js_or (prop_opt tokens "account_id")
          (or_null (prop_opt (id_auth initialIdentity) "chatgpt_account_id")) in
      now <- Date_now ;;
      if shouldRefreshNow (prop_opt tokens "access_token") now
         && truthy_opt (prop_opt tokens "refresh_token")
      then
        _ <- ensureNotAborted ;;
        auth' <- refreshTokensAndPersist authPath auth (prop_opt tokens "refresh_token") ;;
        ret (mkSession auth' (prop auth' "tokens") initialIdentity accountId)
      else
        ret (mkSession auth tokens initialIdentity accountId)
  end.

(** The request of line 160 with the check of line 159. *)
Definition firstFetch `{Platform} (s : Session) : M json :=
  _ <- ensureNotAborted ;;
  fetchUsage (prop_opt (s_tokens s) "access_token") (s_accountId s).

(** The handler of lines 161-173. *)
Definition retryAfter401 `{Platform} (authPath : string) (s : Session) (err : JsError)
  : M (json * Session) :=
  if match err_status err with Some st => (st =? 401)%Z | None => false end
     && truthy_opt (prop_opt (s_tokens s) "refresh_token")
  then
    auth' <- refreshTokensAndPersist authPath (s_auth s)
               (prop_opt (s_tokens s) "refresh_token") ;;
    let s' := mkSession auth' (prop auth' "tokens") (s_initialIdentity s) (s_accountId s) in
    _ <- ensureNotAborted ;;
    usagePayload <- fetchUsage (prop_opt (s_tokens s') "access_token") (s_accountId s') ;;
    ret (usagePayload, s')
  else
    throw err.

(** [collectUsageForAuth], lines 157-173 *)
Definition usageWithRetry `{Platform} (authPath : string) (s : Session) : M (json * Session) :=
  try_catch
    (usagePayload <- firstFetch s ;; ret (usagePayload, s))
    (retryAfter401 authPath s).

(** [collectUsageForAuth], lines 175-200 *)
Definition assembleResult `{Platform} (authPath : string) (usagePayload : json) (s : Session)
  : M Usage :=
  let tokens := s_tokens s in
  let refreshedIdentity := decodeIdToken (prop_opt tokens "id_token") in
  let planFromToken := or_null (prop_opt (id_auth refreshedIdentity) "chatgpt_plan_type") in
  let derivedAccountId := or_null (prop_opt (id_auth refreshedIdentity) "chatgpt_account_id") in
  let accountId :=
    if negb (truthy_opt (s_accountId s))
    then js_or (prop_opt tokens "account_id") (or_null derivedAccountId)
    else s_accountId s in
  let details := js_nullish (prop_opt (Some usagePayload) "rate_limit") (Some JNull) in
  primary <- lift (mapWindow (prop_opt details "primary_window")) ;;
  secondary <- lift (mapWindow (prop_opt details "secondary_window")) ;;
  now <- Date_now ;;
  ret (mkUsage authPath BASE_URL
         (js_or (id_email refreshedIdentity) (or_null (id_email (s_initialIdentity s))))
         accountId
         planFromToken
         (or_null (prop_opt (Some usagePayload) "plan_type"))
         (js_nullish (prop_opt details "allowed") (Some JNull))
         (js_nullish (prop_opt details "limit_reached") (Some JNull))
         primary secondary
         (Date_toISOString now)
         (or_null (prop (s_auth s) "last_refresh"))).

(** [collectUsageForAuth] (lines 138-201) *)
Definition collectUsageForAuth `{Platform} (authPath : string) : M Usage :=
  s <- sessionPrelude authPath ;;
  r <- usageWithRetry authPath s ;;
  assembleResult authPath (fst r) (snd r).

(** ** One pass over the configured bundles *)

(** [err?.message || String(err)] *)
Definition errorText (e : JsError) : string :=
  if isEmptyString (err_message e) then err_name e else err_message e.

(** The [try]/[catch] of [renderOnce] (lines 44-55): the entry pushed for
    one bundle.  An abort error is raised again, any other error becomes
    the entry. *)
Definition accountEntry `{Platform} (authPath : string) : M AccountResult :=
  try_catch
    (result <- collectUsageForAuth authPath ;; ret (ResultUsage result))
    (fun err =>
       if isAbortError err then throw err
       else ret (ResultError authPath (errorText err))).

(** The [for] loop of [renderOnce] (lines 41-56) followed by the check of
    line 57. *)
Fixpoint renderAccounts `{Platform} (authPaths : list string) (results : list AccountResult)
  : M (list AccountResult) :=
  match authPaths with
  | [] =>
      _ <- ensureNotAborted ;;
      ret results
  | authArg :: rest =>
      _ <- ensureNotAborted ;;
      let authPath := path_resolve authArg in
      entry <- accountEntry authPath ;;
      renderAccounts rest (results ++ [entry])
  end.

(** [renderOnce] (lines 38-59) *)
Definition renderOnce `{Platform} (authPaths : list string) : M (list AccountResult) :=
  _ <- ensureNotAborted ;;
  renderAccounts authPaths [].

(** ** Drawing the cards *)

(** The argument of [formatPlan] in [buildCardLines] (lines 403-404):
    [planFromUsage || planFromToken || '']. *)
Definition planArg (u : Usage) : option json :=
  js_or (js_or (u_planFromUsage u) (u_planFromToken u)) (Some (JStr EmptyString)).

(** A plan that [formatPlan] (lines 486-489) cannot capitalise: a truthy
    value that is no string has no [charAt]. *)
Definition badPlan (u : Usage) : bool :=
  match planArg u with
  | Some (JStr _) => false
  | value => truthy_opt value
  end.

(** Can [ToString] (and [ToPrimitive]) be applied to a value that came
    out of [JSON.parse]?  An object whose own key [toString] hides the
    method of the prototype has no primitive value; an array is joined,
    so its items count. *)
Fixpoint printable (v : json) : bool :=
  match v with
  | JArr items => forallb printable items
  | JObj fields =>
      match assoc "toString" fields with
      | Some _ => false
      | None => true
      end
  | _ => true
  end.

Definition printable_opt (v : option json) : bool :=
  match v with
  | Some x => printable x
  | None => true
  end.

(** The errors of [buildCardLines]; the messages are those of the
    engine. *)
Definition charAtError : JsError := typeError "value.charAt is not a function".

Definition convertError : JsError := typeError "Cannot convert object to primitive value".

Definition noWindowsError : JsError :=
  typeError "Cannot read properties of undefined (reading 'primary')".

(** What [buildCardLines] (lines 394-437) and [formatKeyValuePairs]
    raise for an entry, if anything, in the order in which they come to
    it: the template of line 402 converts the account id to a string,
    [formatPlan] is called on the plan, [formatIso] hands [lastRefresh]
    to [new Date], and [formatKeyValuePairs] applies [String] to the
    email; the other values are strings, numbers or booleans by then.  An
    entry whose [error] is falsy is taken for the object of a session,
    and line 423 reads [primary] of the [windows] it does not have. *)
Definition cardError (entry : AccountResult) : option JsError :=
  match entry with
  | ResultUsage u =>
      if negb (printable_opt (u_accountId u)) then Some convertError
      else if badPlan u then Some charAtError
      else if negb (printable_opt (u_lastRefresh u)) then Some convertError
      else if negb (printable_opt (u_email u)) then Some convertError
      else None
  | ResultError _ error => if isEmptyString error then Some noWindowsError else None
  end.

(** The [forEach] of [renderResults] (lines 387-391): the entries whose
    cards are printed, and the error that stops it, if any. *)
Fixpoint drawCards (entries : list AccountResult) : list AccountResult * option JsError :=
  match entries with
  | [] => ([], None)
  | entry :: rest =>
      match cardError entry with
      | Some e => ([], Some e)
      | None => let '(printed, r) := drawCards rest in (entry :: printed, r)
      end
  end.

(** [renderResults] (lines 383-392).  [EvRender clearFirst printed]
    stands for the screen cleared, if [clearFirst], and the cards of
    [printed] written to it. *)
Definition renderResults (entries : list AccountResult) (clearFirst : bool) : M unit :=
  fun w =>
    let '(printed, r) := drawCards entries in
    let w' := log (EvRender clearFirst printed) w in
    match r with
    | None => (Ok tt, w')
    | Some e => (Throw e, w')
    end.

(** ** Tail loop *)

(** [renderStep] (lines 78-82); the value is the new [lastRenderAt]. *)
Definition renderStep (renderOnce : M (list AccountResult)) : M Z :=
  results <- renderOnce ;;
  _ <- renderResults results true ;;
  Date_now.

Inductive StepKind : Type :=
| Rendered
| Tick
| Quit
| Failed (error : JsError).

(** What one turn of the [while] loop did: the reading [it_now] of the
    clock at its head, whether a pass was due, the timer it set otherwise,
    the time at which the race was decided and how. *)
Record Iteration : Type := mkIteration {
  it_now : Z;
  it_due : bool;
  it_waitDuration : Z;
  it_end : Z;
  it_kind : StepKind
}.

Definition isDue (lastRenderAt now : Z) : bool :=
  (lastRenderAt =? 0)%Z || (REFRESH_INTERVAL_MS <=? now - lastRenderAt)%Z.

Definition remainingWait (lastRenderAt now : Z) : Z :=
  Z.max 0 (REFRESH_INTERVAL_MS - (now - lastRenderAt)).

Definition waitDuration (lastRenderAt now : Z) : Z :=
  Z.min POLL_INTERVAL_MS (remainingWait lastRenderAt now).

(** Has [quitPromise] settled by time [t]? *)
Definition quitBy (t : Z) (w : World) : bool :=
  match quitAt w with
  | Some q => (q <=? t)%Z
  | None => false
  end.

(** When the race is won by [quitPromise]: at the quit, or at once if the
    quit came before the race began. *)
Definition quitTime (w : World) : Z :=
  match quitAt w with
  | Some q => Z.max (clock w) q
  | None => clock w
  end.

(** One turn of the loop (lines 85-109): the iteration and the new
    [lastRenderAt].  In each [Promise.race] the promise that settles first
    wins, [quitPromise] on a tie.  When [quitPromise] wins against a pass
    the pass still runs to its own end, so its effects are in the world
    that is returned. *)
Definition tailIteration (renderOnce : M (list AccountResult)) (lastRenderAt : Z)
  : World -> Iteration * Z * World :=
  fun w =>
    let now := clock w in
    let due := isDue lastRenderAt now in
    if due then
      let '(r, w') := renderStep renderOnce w in
      if quitBy (clock w') w then
        (mkIteration now true 0 (quitTime w) Quit, lastRenderAt, w')
      else
        match r with
        | Ok t => (mkIteration now true 0 (clock w') Rendered, t, w')
        | Throw error =>
            if isAbortError error then
              (mkIteration now true 0 (clock w') Quit, lastRenderAt, w')
            else
              (mkIteration now true 0 (clock w') (Failed error), lastRenderAt,
               log (EvConsoleError (errorText error)) w')
        end
    else
      let remaining := remainingWait lastRenderAt now in
      let waitDuration := Z.min POLL_INTERVAL_MS remaining in
      let fire := now + waitDuration + Z.of_N (delay (envStep w)) in
      if quitBy fire w then
        (mkIteration now false waitDuration (quitTime w) Quit, lastRenderAt,
         resume (quitTime w) [] w)
      else
        (mkIteration now false waitDuration fire Tick, lastRenderAt, resume fire [] w).

(** How [runTailLoop] ended: it left the loop, or the model ran out of
    fuel while the loop was still turning. *)
Inductive LoopEnd : Type :=
| Returned
| StillRunning.

(** [runTailLoop] (lines 75-111), with the turns it made.  The result is
    that of the [async] function: [Ok] when it returns, [Throw] when its
    promise rejects. *)
Fixpoint runTailLoop (fuel : nat) (renderOnce : M (list AccountResult)) (lastRenderAt : Z)
    (w : World) : list Iteration * Result LoopEnd * World :=
  match fuel with
  | O => ([], Ok StillRunning, w)
  | S fuel' =>
      let '(it, lastRenderAt', w') := tailIteration renderOnce lastRenderAt w in
      match it_kind it with
      | Quit => ([it], Ok Returned, w')
      | Failed _ => ([it], Ok Returned, w')
      | Rendered | Tick =>
          let '(its, r, w'') := runTailLoop fuel' renderOnce lastRenderAt' w' in
          (it :: its, r, w'')
      end
  end.

(** The single-pass branch of [main] (lines 61-65). *)
Definition mainOnce `{Platform} (authPaths : list string) : M unit :=
  results <- renderOnce authPaths ;;
  renderResults results false.

(** ** A small platform and small worlds to run the model on *)

Module Demo.

(** A platform whose [JSON.parse] knows the documents of [table], whose
    base64 decoder is the identity and which prints integers only. *)
Definition platform (table : list (string * json)) : Platform :=
  {| JSON_parse := fun s => assoc s table;
     Buffer_base64_utf8 := fun s => s;
     Number_toString := fun q => pretty (Qfloor q);
     Date_toISOString := fun ms => "T" ++ pretty ms;
     path_resolve := fun p => p;
     ToNumber := fun v => match v with JNum q => Some q | _ => None end |}.

(** A bundle with a refresh token and an access token without payload
    segment (never stale). *)
Definition bundle : json :=
  JObj [("tokens", JObj [("access_token", JStr "tok");
                         ("id_token", JStr "id0");
                         ("refresh_token", JStr "r1")]);
        ("OPENAI_API_KEY", JNull)].

(** A bundle whose access token expired at second 100. *)
Definition staleBundle : json :=
  JObj [("tokens", JObj [("access_token", JStr "h.exp100.s");
                         ("refresh_token", JStr "r1")])].

(** The same without refresh token. *)
Definition staleBundleNoRefresh : json :=
  JObj [("tokens", JObj [("access_token", JStr "h.exp100.s")])].

Definition table : list (string * json) :=
  [("AUTH", bundle);
   ("STALE", staleBundle);
   ("STALE-NR", staleBundleNoRefresh);
   ("exp100==", JObj [("exp", JNum (inject_Z 100))]);
   ("NEW", JObj [("access_token", JStr "tok2")]);
   ("USAGE", JObj [("plan_type", JStr "pro")])].

#[export] Instance demo : Platform := platform table.

Definition unauthorized : NetOutcome := NetResponse 401 "Unauthorized" "expired".
Definition badRequest : NetOutcome := NetResponse 400 "Bad Request" "invalid_grant".
Definition okWith (body : string) : NetOutcome := NetResponse 200 "OK" body.

(** An environment that answers the suspension points in order from
    [steps] and then keeps answering [last]. *)
Definition script (steps : list EnvStep) (last : EnvStep) : nat -> EnvStep :=
  fun i => nth i steps last.

Definition quiet : EnvStep := mkStep 0 (NetRejected "offline") None.

Definition world (raw : string) (env : nat -> EnvStep) (quit : option Z) : World :=
  mkWorld 1000000 quit (<["/a.json" := raw]> ∅) env 0 [].

(** The usage request is answered 401 and the token endpoint refuses the
    refresh token. *)
Definition refusedRefresh : World :=
  world "AUTH"
    (script [mkStep 1 (NetRejected "-") None; mkStep 2 unauthorized None;
             mkStep 3 badRequest None] quiet) None.

(** The access token is stale, the refresh ahead of the request succeeds,
    the usage request with the new token is answered 401 all the same, the
    second refresh succeeds and so does the retry. *)
Definition refreshedTwice : World :=
  world "STALE"
    (script [mkStep 1 (NetRejected "-") None; mkStep 2 (okWith "NEW") None;
             mkStep 1 (NetRejected "-") None; mkStep 2 unauthorized None;
             mkStep 2 (okWith "NEW") None; mkStep 1 (NetRejected "-") None;
             mkStep 2 (okWith "USAGE") None] quiet) None.

(** A stale access token and no refresh token. *)
Definition staleNoRefresh : World :=
  world "STALE-NR"
    (script [mkStep 1 (NetRejected "-") None; mkStep 2 (okWith "USAGE") None] quiet) None.

(** The token endpoint answers a refresh with a new access token and
    nothing else. *)
Definition refreshing : World :=
  world "AUTH" (script [mkStep 3 (okWith "NEW") None; mkStep 1 (NetRejected "-") None] quiet)
    None.



(** Two bundles are configured; the first does not exist, the second is
    read and its usage request answered. *)
Definition twoBundles : World :=
  mkWorld 1000000 None (<["/b.json" := "AUTH"]> ∅)
    (script [mkStep 1 (NetRejected "-") None; mkStep 1 (NetRejected "-") None;
             mkStep 2 (okWith "USAGE") None] quiet) 0 [].

(** One bundle that cannot be read, which takes 5 seconds to find out;
    timers are punctual and nobody quits. *)
Definition slowPass : World :=
  mkWorld 1000000 None ∅ (script [mkStep 5000 (NetRejected "-") None] quiet) 0 [].

End Demo.

(** ** Counting the effects of a run *)

Definition isTokenPost (ev : Event) : bool :=
  match ev with EvTokenPost _ => true | _ => false end.

Definition isUsageGet (ev : Event) : bool :=
  match ev with EvUsageGet _ _ => true | _ => false end.

Definition isWriteFile (ev : Event) : bool :=
  match ev with EvWriteFile _ _ => true | _ => false end.

Definition count (p : Event -> bool) (evs : list Event) : nat :=
  List.length (List.filter p evs).

(** The times at which the passes of a run started. *)
Definition passStarts (its : list Iteration) : list Z :=
  List.map it_now (List.filter it_due its).

(** ** Cancellation discipline of a computation *)

(** The world moves forward: the quit time and the environment stay, the
    clock does not go back. *)
Definition extends (w w' : World) : Prop :=
  quitAt w' = quitAt w /\ env w' = env w /\ clock w <= clock w'.

(** A computation started where [pre] holds moves the world forward and
    raises an abort error only when the signal is aborted. *)
Definition guards {A} (pre : World -> Prop) (c : M A) : Prop :=
  forall w r w',
    pre w -> c w = (r, w') ->
    extends w w'
    /\ (forall e, r = Throw e -> isAbortError e = true -> aborted w' = true).

Definition cancellable {A} (c : M A) : Prop := guards (fun _ => True) c.

(** The entry that the pass pushes for a bundle, given how its session
    ended: the object of the session, or [{ authFile, error }] with the
    message of the error that ended it, or, when it has none, what
    [String(err)] gives then, its name.  A session that ended in an abort
    error has no entry. *)
Definition capturedAs (authPath : string) (r : Result Usage) (entry : AccountResult) : Prop :=
  match r with
  | Ok usage => entry = ResultUsage usage
  | Throw e =>
      isAbortError e = false
      /\ exists error,
           entry = ResultError authPath error
           /\ (err_message e <> EmptyString -> error = err_message e)
           /\ (err_message e = EmptyString -> error = err_name e)
  end.

(** The sessions of a pass, one after the other: each bundle in turn,
    with the signal not aborted when its turn comes, has its session run
    in the world in which the session before it ended, and the entry of
    that session pushed. *)
Inductive passRun `{Platform} : list string -> World -> list AccountResult -> World -> Prop :=
| passRun_done (w : World) : passRun [] w [] w
| passRun_next (authArg : string) (rest : list string) (w w1 w' : World)
    (r : Result Usage) (entry : AccountResult) (entries : list AccountResult) :
    aborted w = false ->
    collectUsageForAuth (path_resolve authArg) w = (r, w1) ->
    capturedAs (path_resolve authArg) r entry ->
    passRun rest w1 entries w' ->
    passRun (authArg :: rest) w (entry :: entries) w'.

(** ** Reading a run of the tail loop *)

(** The value of [lastRenderAt] after the turns [its], started from
    [lastRenderAt]: the time at which the last rendered pass completed. *)
Definition lastCompleted (lastRenderAt : Z) (its : list Iteration) : Z :=
  fold_left (fun last it => match it_kind it with Rendered => it_end it | _ => last end)
    its lastRenderAt.

(** The time at which the last rendered pass of [its] started. *)
Definition lastStarted (initial : Z) (its : list Iteration) : Z :=
  fold_left (fun last it => match it_kind it with Rendered => it_now it | _ => last end)
    its initial.

(** ** The shape of a validated bundle *)

(** An object whose [tokens] is an object. *)
Definition bundleShape (auth : json) : Prop :=
  is_object auth = true /\ exists fields, prop auth "tokens" = Some (JObj fields).

(** * More of the script *)

(** ** Strings *)

(** Does the code unit [c] occur in [s]? *)
Fixpoint has_char (c : ascii) (s : string) : bool :=
  match s with
  | EmptyString => false
  | String a rest => Ascii.eqb a c || has_char c rest
  end.

(** [windows.reset_at ?? window.resetAt ?? null] of [mapWindow]. *)
Definition resetField (win : json) : option json :=
  js_nullish (js_nullish (prop win "reset_at") (prop win "resetAt")) (Some JNull).


(** [window.limit_window_seconds ?? window.limitWindowSeconds ?? null] *)
Definition secondsField (win : json) : option json :=
  js_nullish (js_nullish (prop win "limit_window_seconds") (prop win "limitWindowSeconds"))
    (Some JNull).

(** Is [ms] a time value that [Date] accepts? *)
Definition validTime (ms : Q) : bool :=
  Qle_bool (- MAX_TIME_VALUE) ms && Qle_bool ms MAX_TIME_VALUE.


(** ** The effects of a session *)

Definition isReadFile (ev : Event) : bool :=
  match ev with EvReadFile _ => true | _ => false end.

Definition isRender (ev : Event) : bool :=
  match ev with EvRender _ _ => true | _ => false end.

(** An event that the session of the bundle at [path] may leave in the
    trace: a read or a write of that file, a request, or a message on the
    standard error stream; never a read or a write of another file, never
    a render.  The warnings that a session prints with [console.warn]
    (lines 150, 163 and 363) are not recorded in the trace, and nothing
    stated with [ownEvent] says that a session prints nothing. *)
Definition ownEvent (path : string) (ev : Event) : Prop :=
  match ev with
  | EvReadFile p => p = path
  | EvWriteFile p _ => p = path
  | EvUsageGet _ _ | EvTokenPost _ | EvConsoleError _ => True
  | EvRender _ _ => False
  end.

(** How many reads of the bundle, requests to the token endpoint, writes
    of the bundle and requests to the usage endpoint. *)
Record Budget : Type := mkBudget {
  b_reads : nat;
  b_posts : nat;
  b_writes : nat;
  b_gets : nat
}.

Definition spent (evs : list Event) : Budget :=
  mkBudget (count isReadFile evs) (count isTokenPost evs)
    (count isWriteFile evs) (count isUsageGet evs).

Definition budget_add (a b : Budget) : Budget :=
  mkBudget (b_reads a + b_reads b) (b_posts a + b_posts b)
    (b_writes a + b_writes b) (b_gets a + b_gets b).

Definition budget_le (a b : Budget) : Prop :=
  (b_reads a <= b_reads b)%nat /\ (b_posts a <= b_posts b)%nat
  /\ (b_writes a <= b_writes b)%nat /\ (b_gets a <= b_gets b)%nat.

Definition nothing : Budget := mkBudget 0 0 0 0.

(** What a run of [c] for the bundle at [path] does to the files and the
    network: its events are events of that bundle within the budget [b],
    every write follows a request to the token endpoint of its own, no
    file changes without a write and no other file changes at all; and an
    error it raises has a name. *)
Definition effects {A} (path : string) (b : Budget) (c : M A) : Prop :=
  forall w r w',
    c w = (r, w') ->
    (exists evs,
        trace w' = (trace w ++ evs)%list
        /\ Forall (ownEvent path) evs
        /\ budget_le (spent evs) b
        /\ (count isWriteFile evs <= count isTokenPost evs)%nat
        /\ (count isWriteFile evs = 0%nat -> files w' = files w))
    /\ (forall q, q <> path -> files w' !! q = files w !! q)
    /\ (forall e, r = Throw e -> err_name e <> EmptyString).

(** The [authFile] of an entry. *)
Definition entryFile (entry : AccountResult) : string :=
  match entry with
  | ResultUsage usage => u_authFile usage
  | ResultError authFile _ => authFile
  end.


(** ** The effects of a pass *)

(** An event of the session of one of the bundles at [paths]. *)
Definition passEvent (paths : list string) (ev : Event) : Prop :=
  exists path, In path paths /\ ownEvent path ev.

(** The error of an entry, if it is one: [entry.error]. *)
Definition entryError (entry : AccountResult) : option string :=
  match entry with
  | ResultUsage _ => None
  | ResultError _ error => Some error
  end.

(** Arithmetic on budgets. *)
Ltac within_budget := unfold budget_le, budget_add, nothing; simpl; lia.


(** ** Command line *)

(** How [parseArgs] ends: it returns, it prints the usage and exits with
    code 0, or it raises. *)
Inductive ArgsOutcome : Type :=
| ArgsParsed (authPaths : list string) (tailMode : bool)
| ArgsHelp
| ArgsThrow (e : JsError).

(** The white space that [trim] removes, among 8-bit code units. *)
Definition isWhiteSpace (a : ascii) : bool :=
  let n := N_of_ascii a in
  ((9 <=? n)%N && (n <=? 13)%N) || (n =? 32)%N || (n =? 160)%N.

Fixpoint trimStart (s : string) : string :=
  match s with
  | EmptyString => EmptyString
  | String a rest => if isWhiteSpace a then trimStart rest else s
  end.

Fixpoint trimEnd (s : string) : string :=
  match s with
  | EmptyString => EmptyString
  | String a rest =>
      match trimEnd rest with
      | EmptyString => if isWhiteSpace a then EmptyString else String a EmptyString
      | kept => String a kept
      end
  end.

(** [s.trim()] *)
Definition trim (s : string) : string := trimEnd (trimStart s).

(** [s.slice(n)] *)
Fixpoint slice_from (n : nat) (s : string) : string :=
  match n, s with
  | O, _ => s
  | S n', String _ rest => slice_from n' rest
  | S _, EmptyString => EmptyString
  end.

Definition authRequiresPath : JsError := newError "--auth requires a file path".

Definition unknownArgument (arg : string) : JsError :=
  newError ("Unknown argument: " ++ arg ++ ". Only --auth=<path> and --tail are supported.").

(** The loop of [parseArgs] (lines 116-134) from one argument on, with
    the paths and the flag collected so far. *)
Fixpoint parseArgsFrom (args : list string) (authPaths : list string) (tailMode : bool)
  : ArgsOutcome :=
  match args with
  | [] => ArgsParsed authPaths tailMode
  | arg :: rest =>
      if String.eqb arg "--help" || String.eqb arg "-h" then ArgsHelp
      else if String.eqb arg "--tail" then parseArgsFrom rest authPaths true
      else if String.prefix "--auth=" arg then
        let value := trim (slice_from (String.length "--auth=") arg) in
        if isEmptyString value then ArgsThrow authRequiresPath
        else parseArgsFrom rest (authPaths ++ [value]) tailMode
      else if String.eqb arg "--auth" then
        match rest with
        | [] => ArgsThrow authRequiresPath
        | value :: rest' =>
            if isEmptyString value then ArgsThrow authRequiresPath
            else parseArgsFrom rest' (authPaths ++ [value]) tailMode
        end
      else ArgsThrow (unknownArgument arg)
  end.

(** [parseArgs] (lines 113-136) *)
Definition parseArgs (args : list string) : ArgsOutcome := parseArgsFrom args [] false.

(** One well-formed piece of a command line. *)
Inductive CliItem : Type :=
| ItemTail
| ItemAuthEquals (raw : string)
| ItemAuth (value : string).

Definition itemArgs (item : CliItem) : list string :=
  match item with
  | ItemTail => ["--tail"]
  | ItemAuthEquals raw => ["--auth=" ++ raw]
  | ItemAuth value => ["--auth"; value]
  end.

Definition itemOk (item : CliItem) : bool :=
  match item with
  | ItemTail => true
  | ItemAuthEquals raw => negb (isEmptyString (trim raw))
  | ItemAuth value => negb (isEmptyString value)
  end.

Definition itemPaths (item : CliItem) : list string :=
  match item with
  | ItemTail => []
  | ItemAuthEquals raw => [trim raw]
  | ItemAuth value => [value]
  end.

Definition itemTail (item : CliItem) : bool :=
  match item with ItemTail => true | _ => false end.

Definition cliArgs (items : list CliItem) : list string := List.concat (List.map itemArgs items).
Definition cliPaths (items : list CliItem) : list string := List.concat (List.map itemPaths items).
Definition cliTail (items : list CliItem) : bool := existsb itemTail items.

(** An argument that [parseArgs] does not know. *)
Definition unknownArg (arg : string) : bool :=
  negb (String.eqb arg "--help" || String.eqb arg "-h" || String.eqb arg "--tail"
        || String.prefix "--auth=" arg || String.eqb arg "--auth").

(** ** Keyboard *)

(** The state of [setupTailInput] (lines 530-545): whether the quit was
    taken, and the times at which [onQuit] and [resolveQuit] were
    called. *)
Record TailInput : Type := mkTailInput {
  resolved : bool;
  quitCalls : list Z
}.

Definition isQuitKey (key : string) : bool :=
  String.eqb key "q" || String.eqb key "Q" || String.eqb key (String "003"%char EmptyString).

(** [handler] (lines 536-545) on the chunk of input that arrives at time
    [t]. *)
Definition keyHandler (st : TailInput) (input : Z * string) : TailInput :=
  let '(t, chunk) := input in
  if isQuitKey chunk then
    if negb (resolved st) then mkTailInput true (quitCalls st ++ [t]) else st
  else st.

Definition feedKeys (keys : list (Z * string)) : TailInput :=
  fold_left keyHandler keys (mkTailInput false []).

(** [setupTailInput] (lines 519-558) on a standard input that is not a
    terminal ([None]) or a terminal that delivers the chunks [keys]: the
    time at which the signal is aborted and [quitPromise] resolves, if
    ever. *)
Definition setupTailInput (stdin : option (list (Z * string))) : option Z :=
  match stdin with
  | None => None
  | Some keys => head (quitCalls (feedKeys keys))
  end.

(** ** The program *)

(** How the process ends; [Running] when the tail loop still turns at the
    end of the fuel. *)
Inductive ProcessEnd : Type :=
| Exit (code : Z)
| Running.

(** [fileExists] (lines 203-210): one suspension, for [fs.access]; the
    check succeeds when the file system does not fail and the file is
    there, and it leaves no event in the trace. *)
Definition fileExists (p : string) : M bool :=
  fun w =>
    let s := envStep w in
    let found :=
      match fs_fail s, files w !! p with
      | None, Some _ => true
      | _, _ => false
      end in
    (Ok found, resume (clock w + Z.of_N (delay s)) [] w).

(** The world in which the signal of [main] is aborted at [quit], if
    ever. *)
Definition attend (quit : option Z) (w : World) : World :=
  mkWorld (clock w) quit (files w) (env w) (awaits w) (trace w).

Definition defaultMissing (defaultPath : string) : string :=
  "Default auth file " ++ defaultPath ++ " not found. Please pass --auth=/path/to/auth.json.".

(** [main] (lines 23-73) with the handler of lines 576-579, for the
    arguments [argv], the default bundle [defaultPath]
    ([DEFAULT_AUTH_PATH]) and the standard input [stdin].  The signal is
    that of the controller of line 36: nothing aborts it in single-pass
    mode, the quit key does in tail mode. *)
Definition main `{Platform} (defaultPath : string) (stdin : option (list (Z * string)))
    (fuel : nat) (argv : list string) : World -> ProcessEnd * World :=
  fun w =>
    match parseArgs argv with
    | ArgsHelp => (Exit 0, w)
    | ArgsThrow e => (Exit 1, log (EvConsoleError (errorText e)) w)
    | ArgsParsed parsedPaths tailMode =>
        let found :=
          match parsedPaths with
          | [] =>
              match fileExists defaultPath w with
              | (Ok true, w1) => (Some [defaultPath], w1)
              | (_, w1) => (None, log (EvConsoleError (defaultMissing defaultPath)) w1)
              end
          | _ => (Some parsedPaths, w)
          end in
        match found with
        | (None, w1) => (Exit 1, w1)
        | (Some authPaths, w1) =>
            if negb tailMode then
              match mainOnce authPaths (attend None w1) with
              | (Ok _, w2) => (Exit 0, w2)
              | (Throw e, w2) => (Exit 1, log (EvConsoleError (errorText e)) w2)
              end
            else
              match runTailLoop fuel (renderOnce authPaths) 0
                      (attend (setupTailInput stdin) w1) with
              | (_, Ok Returned, w2) => (Exit 0, w2)
              | (_, Ok StillRunning, w2) => (Running, w2)
              | (_, Throw e, w2) => (Exit 1, log (EvConsoleError (errorText e)) w2)
              end
        end
    end.


(** Can the card of every entry be drawn? *)
Definition drawable (entries : list AccountResult) : bool :=
  forallb (fun entry =>
             match cardError entry with
             | None => true
             | Some _ => false
             end) entries.

(** A pass from [w] after which not all cards can be drawn: the pass
    returns, the cards of the entries [printed] are written, the entry
    after them, the object of a session, stops [renderResults] with the
    error [e], and the message of [e] is printed; [w'] is the world
    then. *)
Definition stoppedByCard `{Platform} (authPaths : list string) (clearFirst : bool)
    (w w' : World) (e : JsError) : Prop :=
  exists results w0 printed u rest,
    renderOnce authPaths w = (Ok results, w0)
    /\ results = (printed ++ ResultUsage u :: rest)%list
    /\ drawable printed = true
    /\ cardError (ResultUsage u) = Some e
    /\ w' = log (EvConsoleError (err_message e)) (log (EvRender clearFirst printed) w0).

(** The errors that stop the drawing of the object of a session: the
    plan is truthy but no string, or the account id, [lastRefresh] or the
    email has no primitive value. *)
Definition drawError (e : JsError) : Prop := e = charAtError \/ e = convertError.

(** A platform that also knows a usage answer whose plan is a number, and
    a world in which the usage endpoint gives that answer. *)
Definition oddPlatform : Platform :=
  Demo.platform (("ODD", JObj [("plan_type", JNum (inject_Z 7))]) :: Demo.table).

Definition oddPlan : World :=
  Demo.world "AUTH"
    (Demo.script [mkStep 1 (NetRejected "-") None; mkStep 2 (Demo.okWith "ODD") None]
       Demo.quiet) None.

(** ** Cards *)

Definition ESC : ascii := "027"%char.

(** Lines 12-14. *)
Definition KEY_COLOR : string := String ESC "[36m".
Definition VALUE_COLOR : string := String ESC "[97m".
Definition RESET_COLOR : string := String ESC "[0m".

(** The class [[0-9;]] of [ANSI_REGEX]. *)
Definition isParam (a : ascii) : bool :=
  let n := N_of_ascii a in
  ((48 <=? n)%N && (n <=? 57)%N) || (n =? 59)%N.

(** What is left of [s] after [[0-9;]*]. *)
Fixpoint skipParams (s : string) : string :=
  match s with
  | EmptyString => EmptyString
  | String a rest => if isParam a then skipParams rest else s
  end.

(** A match of [ANSI_REGEX] (line 506) at the head of [s]: what follows
    the match.  No character of the class is an [m], so the longest run
    of the class is the only one that can be followed by the [m]. *)
Definition matchAnsi (s : string) : option string :=
  match s with
  | String a (String b rest) =>
      if Ascii.eqb a ESC && Ascii.eqb b "["%char then
        match skipParams rest with
        | String c rest' => if Ascii.eqb c "m"%char then Some rest' else None
        | EmptyString => None
        end
      else None
  | _ => None
  end.

(** [str.replace(ANSI_REGEX, '')], from left to right; every step
    consumes a code unit at least, so [fuel] of the length of the string
    is enough. *)
Fixpoint stripAnsiFrom (fuel : nat) (s : string) : string :=
  match fuel with
  | O => s
  | S fuel' =>
      match matchAnsi s with
      | Some rest => stripAnsiFrom fuel' rest
      | None =>
          match s with
          | EmptyString => EmptyString
          | String a rest => String a (stripAnsiFrom fuel' rest)
          end
      end
  end.

(** [stripAnsi] (lines 507-509) *)
Definition stripAnsi (str : string) : string := stripAnsiFrom (String.length str) str.

(** [visibleLength] (lines 502-504) *)
Definition visibleLength (text : string) : nat := String.length (stripAnsi text).

(** [s.padEnd(targetLength, fill)] for a filler of one code unit. *)
Definition padEnd (s : string) (targetLength : nat) (fill : ascii) : string :=
  s ++ repeat_string (String fill EmptyString) (targetLength - String.length s).

(** [Math.max(...ns)] on lengths; [Math.max(0, ...ns)] is the same. *)
Definition max_of (ns : list nat) : nat := fold_right Nat.max 0%nat ns.

(** [[key || '-', value ?? '-']] *)
Definition cleanPair (pair : string * option string) : string * string :=
  (if isEmptyString (fst pair) then "-" else fst pair, default "-" (snd pair)).

Definition keyWidth (cleaned : list (string * string)) : nat :=
  max_of (List.map (fun pair => String.length (fst pair)) cleaned).

(** The line of one pair (lines 496-498). *)
Definition pairLine (width : nat) (pair : string * string) : string :=
  let coloredKey := KEY_COLOR ++ padEnd (fst pair) width " " ++ RESET_COLOR in
  let coloredValue := VALUE_COLOR ++ snd pair ++ RESET_COLOR in
  coloredKey ++ ": " ++ coloredValue.

(** [formatKeyValuePairs] (lines 491-500); a value is a string, [null]
    or [undefined]. *)
Definition formatKeyValuePairs (pairs : list (string * option string)) : list string :=
  match pairs with
  | [] => []
  | _ =>
      let cleaned := List.map cleanPair pairs in
      let width := keyWidth cleaned in
      List.map (pairLine width) cleaned
  end.

(** The six glyphs of the frame, one code unit each, which the 8-bit
    alphabet of the embedding cannot name. *)
Record Frame : Type := mkFrame {
  topLeft : ascii;
  topRight : ascii;
  bottomLeft : ascii;
  bottomRight : ascii;
  horizontal : ascii;
  vertical : ascii
}.

Definition cardWidth (content : list string) : nat :=
  max_of (List.map visibleLength content).

Definition cardTop (frame : Frame) (padWidth : nat) : string :=
  String (topLeft frame)
    (repeat_string (String (horizontal frame) EmptyString) (padWidth + 2)
     ++ String (topRight frame) EmptyString).

Definition cardBottom (frame : Frame) (padWidth : nat) : string :=
  String (bottomLeft frame)
    (repeat_string (String (horizontal frame) EmptyString) (padWidth + 2)
     ++ String (bottomRight frame) EmptyString).

(** One line of the body (lines 447-448). *)
Definition cardLine (frame : Frame) (padWidth : nat) (line : string) : string :=
  let padding := Z.of_nat padWidth - Z.of_nat (visibleLength line) in
  String (vertical frame)
    (" " ++ line ++ repeat_string " " (Z.to_nat (Z.max 0 padding))
     ++ " " ++ String (vertical frame) EmptyString).

(** [drawCard] (lines 439-452) *)
Definition drawCard (frame : Frame) (lines : list (option string)) : string :=
  let content := List.map (default EmptyString) lines in
  let width := cardWidth content in
  let padWidth := width in
  let top := cardTop frame padWidth in
  let bottom := cardBottom frame padWidth in
  let body := join newline (List.map (cardLine frame padWidth) content) in
  top ++ newline ++ body ++ newline ++ bottom.

Definition Qmin (a b : Q) : Q := if Qle_bool a b then a else b.

(** The arithmetic of doubles, as far as the bar depends on it: [fl q]
    is the double that an operation with the exact result [q] returns.
    Rounding keeps the order, and the integers from 0 to 100 are
    doubles. *)
Class Doubles : Type := {
  fl : Q -> Q;
  fl_monotone : forall x y : Q, (x <= y)%Q -> (fl x <= fl y)%Q;
  fl_integer : forall n : Z, 0 <= n <= 100 -> (fl (inject_Z n) == inject_Z n)%Q
}.

(** The arithmetic that never rounds, to run the bar on. *)
Definition exactDoubles : Doubles :=
  {| fl := fun q => q;
     fl_monotone := fun _ _ Hle => Hle;
     fl_integer := fun n _ => Qeq_refl (inject_Z n) |}.

(** The number of filled cells of the bar (lines 467-469): a division
    and a multiplication of doubles, then [Math.round], which is exact. *)
Definition barFilled `{Doubles} (value : Q) : Z :=
  let width := 20 in
  let clamped := Qmin 100 (Qmax 0 value) in
  Math_round (fl (fl (clamped / 100) * inject_Z width)).

(** [makeProgressBar] (lines 465-472); [None] is a value that is not a
    number, or [NaN]. *)
Definition makeProgressBar `{Doubles} (value : option Q) : string :=
  match value with
  | None => "n/a"
  | Some v =>
      let width := 20%nat in
      let filled := barFilled v in
      let bar := padEnd (repeat_string "#" (Z.to_nat filled)) width "." in
      "[" ++ bar ++ "]"
  end.

(** * Properties *)

(** ** Window labels *)

Lemma Math_round_div60 (m : Z) : Math_round (inject_Z m / inject_Z 60) = (m + 30) / 60.
Proof.
  unfold Math_round, Qfloor, Qdiv, Qinv, Qmult, Qplus, inject_Z. simpl.
  change (Z.pos (1 * 60 * 2)) with (60 * 2).
  change (Z.pos (1 * 60)) with 60.
  replace (m * 1 * 2 + 1 * 60) with ((m + 30) * 2) by lia.
  apply Z.div_mul_cancel_r; lia.
Qed.

Lemma humanizeWindow_hours (m : Z) :
  m <= 1440 -> humanizeWindow (MinInt m) = pretty (Z.max 1 ((m + 30) / 60)) ++ "h".
Proof.
  intros Hm. unfold humanizeWindow.
  change (24 * 60) with 1440.
  destruct (Z.leb_spec m 1440) as [_ | Hgt]; [| lia].
  now rewrite Math_round_div60.
Qed.

Lemma nearest_hour (m : Z) :
  let h := (m + 30) / 60 in 60 * h - 30 <= m < 60 * h + 30.
Proof.
  intros h. subst h.
  pose proof (Z.div_mod (m + 30) 60 ltac:(lia)) as Hdm.
  pose proof (Z.mod_pos_bound (m + 30) 60 ltac:(lia)) as Hb.
  lia.
Qed.

(** C9: the label is the length in hours, rounded to the nearest hour
    and at least 1, followed by [h] up to one day (1440 minutes),
    [weekly] above that up to one week (10080), [monthly] above that up
    to 30 days (43200) and [annual] beyond; the seven values of the
    specification are as it lists them. *)
Theorem humanizeWindow_labels (m : Z) :
  (m <= 1440 ->
     exists h, 60 * h - 30 <= m < 60 * h + 30
               /\ humanizeWindow (MinInt m) = pretty (Z.max 1 h) ++ "h")
  /\ (1440 < m <= 10080 -> humanizeWindow (MinInt m) = "weekly")
  /\ (10080 < m <= 43200 -> humanizeWindow (MinInt m) = "monthly")
  /\ (43200 < m -> humanizeWindow (MinInt m) = "annual")
  /\ humanizeWindow (MinInt 90) = "2h"
  /\ humanizeWindow (MinInt 1440) = "24h"
  /\ humanizeWindow (MinInt 1441) = "weekly"
  /\ humanizeWindow (MinInt 10080) = "weekly"
  /\ humanizeWindow (MinInt 10081) = "monthly"
  /\ humanizeWindow (MinInt 43200) = "monthly"
  /\ humanizeWindow (MinInt 43201) = "annual".
Proof.
  split; [| split; [| split; [| split]]].
  - intros Hm. exists ((m + 30) / 60). split.
    + apply nearest_hour.
    + now apply humanizeWindow_hours.
  - intros [Hlo Hhi]. unfold humanizeWindow.
    change (24 * 60) with 1440. change (7 * 1440) with 10080.
    destruct (Z.leb_spec m 1440); [lia |].
    destruct (Z.leb_spec m 10080); [reflexivity | lia].
  - intros [Hlo Hhi]. unfold humanizeWindow.
    change (24 * 60) with 1440. change (7 * 1440) with 10080.
    change (30 * 1440) with 43200.
    destruct (Z.leb_spec m 1440); [lia |].
    destruct (Z.leb_spec m 10080); [lia |].
    destruct (Z.leb_spec m 43200); [reflexivity | lia].
  - intros Hlo. unfold humanizeWindow.
    change (24 * 60) with 1440. change (7 * 1440) with 10080.
    change (30 * 1440) with 43200.
    destruct (Z.leb_spec m 1440); [lia |].
    destruct (Z.leb_spec m 10080); [lia |].
    destruct (Z.leb_spec m 43200); [lia | reflexivity].
  - repeat split; vm_compute; reflexivity.
Qed.

Lemma humanizeWindow_labels_witness :
  exists h, 60 * h - 30 <= 150 < 60 * h + 30
            /\ humanizeWindow (MinInt 150) = pretty (Z.max 1 h) ++ "h".
Proof.
  apply (proj1 (humanizeWindow_labels 150)). lia.
Defined.

(** ** Staleness *)

Lemma decoded_exp_truthy (payload : json) (v : json) :
  prop payload "exp" = Some v -> truthy payload = true.
Proof.
  destruct payload; simpl; try discriminate. reflexivity.
Qed.

Lemma shouldRefreshNow_numeric `{Platform} (token : option json) (now_ms : Z)
    (payload : json) (exp : Q) :
  decodeJwtPayload token = Ok payload ->
  prop payload "exp" = Some (JNum exp) ->
  shouldRefreshNow token now_ms
  = Qle_bool (exp - inject_Z EXP_SKEW_SECONDS) (inject_Z (now_ms / 1000)).
Proof.
  intros Hdec Hexp. unfold shouldRefreshNow.
  rewrite Hdec, (decoded_exp_truthy _ _ Hexp), Hexp. reflexivity.
Qed.

(** C2: with a decoded payload whose [exp] is a number, the access token
    is stale exactly when the current time in seconds is at least
    [exp - 60]: not stale when [exp] is more than 60 seconds ahead, stale
    when [exp <= now + 60].  A token that cannot be decoded, or whose
    payload has no numeric [exp], is not stale; the check is a total
    function, it raises nothing. *)
Theorem shouldRefreshNow_skew `{Platform} (token : option json) (now_ms : Z) :
  let now := inject_Z (now_ms / 1000) in
  (forall payload exp,
      decodeJwtPayload token = Ok payload ->
      prop payload "exp" = Some (JNum exp) ->
      (shouldRefreshNow token now_ms = true <-> (exp - 60 <= now)%Q)
      /\ ((now + 60 < exp)%Q -> shouldRefreshNow token now_ms = false)
      /\ ((exp <= now + 60)%Q -> shouldRefreshNow token now_ms = true))
  /\ (forall e, decodeJwtPayload token = Throw e -> shouldRefreshNow token now_ms = false)
  /\ (forall payload,
        decodeJwtPayload token = Ok payload ->
        (forall exp, prop payload "exp" <> Some (JNum exp)) ->
        shouldRefreshNow token now_ms = false).
Proof.
  intros now. split; [| split].
  - intros payload exp Hdec Hexp.
    rewrite (shouldRefreshNow_numeric _ _ _ _ Hdec Hexp).
    change (inject_Z EXP_SKEW_SECONDS) with (60 : Q). fold now.
    rewrite Qle_bool_iff. split; [tauto | split].
    + intros Hlt. destruct (Qle_bool (exp - 60) now) eqn:Hle; [| reflexivity].
      apply Qle_bool_iff in Hle. lra.
    + intros Hle. lra.
  - intros e Hdec. unfold shouldRefreshNow. now rewrite Hdec.
  - intros payload Hdec Hno. unfold shouldRefreshNow. rewrite Hdec.
    destruct (truthy payload); [| reflexivity]. simpl.
    destruct (prop payload "exp") as [[]|] eqn:Hexp; try reflexivity.
    exfalso. now apply (Hno q).
Qed.

Lemma shouldRefreshNow_skew_witness :
  @shouldRefreshNow Demo.demo (Some (JStr "h.exp100.s")) 40000 = true
  /\ @shouldRefreshNow Demo.demo (Some (JStr "h.exp100.s")) 39999 = false
  /\ @shouldRefreshNow Demo.demo (Some (JStr "no-payload")) 40000 = false.
Proof.
  pose proof (@shouldRefreshNow_skew Demo.demo (Some (JStr "h.exp100.s")) 40000) as [H40 _].
  pose proof (@shouldRefreshNow_skew Demo.demo (Some (JStr "h.exp100.s")) 39999) as [H39 _].
  pose proof (@shouldRefreshNow_skew Demo.demo (Some (JStr "no-payload")) 40000) as [_ [_ Hnone]].
  split; [| split].
  - apply (H40 (JObj [("exp", JNum (inject_Z 100))]) (inject_Z 100));
      [reflexivity | reflexivity | vm_compute; discriminate].
  - apply (H39 (JObj [("exp", JNum (inject_Z 100))]) (inject_Z 100));
      [reflexivity | reflexivity | vm_compute; reflexivity].
  - apply (Hnone JNull); [reflexivity | intros exp; discriminate].
Defined.

(** ** Objects *)

Lemma assoc_set_same (k : string) (v : json) (fs : list (string * json)) :
  assoc k (assoc_set k v fs) = Some v.
Proof.
  induction fs as [| [k' v'] fs IH]; simpl.
  - now rewrite String.eqb_refl.
  - destruct (String.eqb k k') eqn:E; simpl.
    + now rewrite String.eqb_refl.
    + now rewrite E.
Qed.

Lemma assoc_set_other (k k' : string) (v : json) (fs : list (string * json)) :
  k' <> k -> assoc k' (assoc_set k v fs) = assoc k' fs.
Proof.
  intros Hne. apply String.eqb_neq in Hne.
  induction fs as [| [k0 v0] fs IH]; simpl.
  - now rewrite Hne.
  - destruct (String.eqb k k0) eqn:E; simpl.
    + apply String.eqb_eq in E. subst k0. now rewrite Hne.
    + now rewrite IH.
Qed.

Lemma prop_set_other (o : json) (k k' : string) (v : json) :
  k' <> k -> prop (set_prop o k v) k' = prop o k'.
Proof.
  intros Hne. destruct o; simpl; try reflexivity. now apply assoc_set_other.
Qed.

Lemma prop_set_same (fs : list (string * json)) (k : string) (v : json) :
  prop (set_prop (JObj fs) k v) k = Some v.
Proof. simpl. apply assoc_set_same. Qed.

Lemma set_prop_object (o : json) (k : string) (v : json) :
  is_object (set_prop o k v) = is_object o.
Proof. now destruct o. Qed.

(** ** Running computations *)

Lemma bind_inv {A B} (c : M A) (k : A -> M B) (w w' : World) (r : Result B) :
  bind c k w = (r, w') ->
  (exists a w1, c w = (Ok a, w1) /\ k a w1 = (r, w'))
  \/ (exists e, c w = (Throw e, w') /\ r = Throw e).
Proof.
  unfold bind. destruct (c w) as [[a | e] w1]; intros Hrun.
  - left. now exists a, w1.
  - right. exists e. now inversion Hrun.
Qed.

Lemma bind_ok {A B} (c : M A) (k : A -> M B) (w w1 : World) (a : A) :
  c w = (Ok a, w1) -> bind c k w = k a w1.
Proof. unfold bind. now intros ->. Qed.

Lemma bind_throw {A B} (c : M A) (k : A -> M B) (w w1 : World) (e : JsError) :
  c w = (Throw e, w1) -> bind c k w = (Throw e, w1).
Proof. unfold bind. now intros ->. Qed.

Lemma ensureNotAborted_inv (w w' : World) (r : Result unit) :
  ensureNotAborted w = (r, w') ->
  w' = w /\ (aborted w = false /\ r = Ok tt \/ aborted w = true /\ r = Throw abortError).
Proof.
  unfold ensureNotAborted. destruct (aborted w); intros Hrun; inversion Hrun; auto.
Qed.

(** A request that is answered: nobody quit before the answer came. *)
Lemma fetch_ok_inv (request : Event) (w w' : World) (res : Response) :
  fetch request w = (Ok res, w') ->
  aborted w = false
  /\ quitBy (clock w + Z.of_N (delay (envStep w))) w = false
  /\ net (envStep w) = NetResponse (res_status res) (res_statusText res) (res_body res)
  /\ w' = resume (clock w + Z.of_N (delay (envStep w))) [request] w.
Proof.
  unfold fetch, quitBy. destruct (aborted w); [discriminate |].
  destruct (quitAt w) as [q |].
  - destruct (q <=? clock w + Z.of_N (delay (envStep w)))%Z; [discriminate |].
    destruct (net (envStep w)); intros Hrun; [discriminate |].
    injection Hrun as <- <-. auto.
  - destruct (net (envStep w)); intros Hrun; [discriminate |].
    injection Hrun as <- <-. auto.
Qed.

Lemma requestTokenRefresh_ok_inv `{Platform} (rt : option json) (w w' : World) (refreshed : json) :
  requestTokenRefresh rt w = (Ok refreshed, w') ->
  exists status statusText body,
    aborted w = false
    /\ quitBy (clock w + Z.of_N (delay (envStep w))) w = false
    /\ net (envStep w) = NetResponse status statusText body
    /\ JSON_parse body = Some refreshed
    /\ w' = resume (clock w + Z.of_N (delay (envStep w))) [EvTokenPost rt] w.
Proof.
  unfold requestTokenRefresh. intros Hrun.
  apply bind_inv in Hrun as [(res & w1 & Hfetch & Hrest) | (e & _ & He)]; [| discriminate].
  apply fetch_ok_inv in Hfetch as (Hab & Hq & Hnet & ->).
  destruct (negb (res_ok res)); [discriminate |].
  unfold res_json in Hrest. destruct (JSON_parse (res_body res)) as [v |] eqn:Hparse;
    [| discriminate].
  inversion Hrest; subst.
  now exists (res_status res), (res_statusText res), (res_body res).
Qed.

Lemma fs_writeFile_ok_inv (path content : string) (w w' : World) :
  fs_writeFile path content w = (Ok tt, w') ->
  fs_fail (envStep w) = None
  /\ w' = store path content
            (resume (clock w + Z.of_N (delay (envStep w))) [EvWriteFile path content] w).
Proof.
  unfold fs_writeFile. destruct (fs_fail (envStep w)); [discriminate |].
  intros Hrun. now inversion Hrun.
Qed.

(** A refresh that returns: the token endpoint answered with a document
    whose [access_token] is truthy, the bundle with the new tokens was
    written, and these are the two effects it had. *)
Lemma refreshTokensAndPersist_ok_inv `{Platform}
    (path : string) (auth : json) (rt : option json) (w w' : World) (auth' : json) :
  refreshTokensAndPersist path auth rt w = (Ok auth', w') ->
  exists status statusText body refreshed access,
    let completed := clock w + Z.of_N (delay (envStep w)) in
    let w1 := resume completed [EvTokenPost rt] w in
    let content := JSON_stringify_2 auth' ++ newline in
    truthy_opt rt = true
    /\ aborted w = false
    /\ net (envStep w) = NetResponse status statusText body
    /\ JSON_parse body = Some refreshed
    /\ prop refreshed "access_token" = Some access
    /\ truthy access = true
    /\ storeRefreshed auth refreshed access completed = Ok auth'
    /\ w' = store path content
              (resume (completed + Z.of_N (delay (envStep w1))) [EvWriteFile path content] w1).
Proof.
  unfold refreshTokensAndPersist. destruct (truthy_opt rt) eqn:Hrt; [| discriminate].
  simpl negb. cbv iota. intros Hrun.
  apply bind_inv in Hrun as [([] & w0 & Hcheck & Hrun) | (e & _ & He)]; [| discriminate].
  apply ensureNotAborted_inv in Hcheck as (-> & [[Hab _] | [_ Hbad]]); [| discriminate].
  apply bind_inv in Hrun as [(refreshed & w1 & Hreq & Hrun) | (e & _ & He)]; [| discriminate].
  apply requestTokenRefresh_ok_inv in Hreq as (st & stt & body & _ & Hq & Hnet & Hparse & ->).
  assert (Hbody :
    (if negb (truthy_opt (prop refreshed "access_token"))
     then throw (newError "Token refresh succeeded but no access_token was returned.")
     else
       now <- Date_now ;;
       auth' <- lift (storeRefreshed auth refreshed
                        (default JNull (prop refreshed "access_token")) now) ;;
       _ <- fs_writeFile path (JSON_stringify_2 auth' ++ newline) ;;
       ret auth')
      (resume (clock w + Z.of_N (delay (envStep w))) [EvTokenPost rt] w) = (Ok auth', w')).
  { destruct refreshed; try exact Hrun. discriminate. }
  clear Hrun.
  destruct (prop refreshed "access_token") as [access |] eqn:Hacc; [| discriminate].
  simpl in Hbody. destruct (truthy access) eqn:Htr; [| discriminate]. simpl in Hbody.
  apply bind_inv in Hbody as [(now & w2 & Hnow & Hrun) | (e & _ & He)]; [| discriminate].
  unfold Date_now in Hnow. inversion Hnow; subst now w2. clear Hnow.
  apply bind_inv in Hrun as [(a2 & w2 & Hstore & Hrun) | (e & _ & He)]; [| discriminate].
  unfold lift in Hstore. inversion Hstore as [[Hst Hw2]]. subst w2.
  apply bind_inv in Hrun as [([] & w3 & Hwrite & Hrun) | (e & _ & He)]; [| discriminate].
  unfold ret in Hrun. inversion Hrun; subst a2 w3.
  apply fs_writeFile_ok_inv in Hwrite as (_ & ->).
  exists st, stt, body, refreshed, access. simpl.
  repeat split; auto.
Qed.

(** ** Refresh client *)

Lemma prop_opt_some (x : json) (k : string) : prop_opt (Some x) k = prop x k.
Proof. now destruct x. Qed.

Lemma falsy_no_prop (v : option json) (k : string) :
  truthy_opt v = false -> prop_opt v k = None.
Proof.
  destruct v as [[] |]; simpl; try reflexivity; discriminate.
Qed.

(** What [storeRefreshed] changes in the bundle and what it keeps. *)
Lemma storeRefreshed_ok_inv `{Platform} (auth refreshed access auth' : json) (now : Z) :
  storeRefreshed auth refreshed access now = Ok auth' ->
  exists tokens0 tokens',
    (forall k, prop tokens0 k = prop_opt (prop auth "tokens") k)
    /\ tokens0 = (if truthy_opt (prop auth "tokens")
                  then default JNull (prop auth "tokens") else JObj [])
    /\ prop auth' "tokens" = Some tokens'
    /\ prop auth' "last_refresh" = Some (JStr (Date_toISOString now))
    /\ (forall k, k <> "tokens" -> k <> "last_refresh" -> prop auth' k = prop auth k)
    /\ tokens' =
       (let tokens1 := set_prop tokens0 "access_token" access in
        let tokens2 :=
          if truthy_opt (prop refreshed "id_token")
          then set_prop tokens1 "id_token" (default JNull (prop refreshed "id_token"))
          else tokens1 in
        if truthy_opt (prop refreshed "refresh_token")
        then set_prop tokens2 "refresh_token" (default JNull (prop refreshed "refresh_token"))
        else tokens2).
Proof.
  unfold storeRefreshed.
  destruct auth as [| b | q | s | items | fields]; try discriminate.
  remember (JObj fields) as auth eqn:Hauth.
  remember (if negb (truthy_opt (prop auth "tokens"))
            then set_prop auth "tokens" (JObj []) else auth) as auth1 eqn:Hauth1.
  assert (Hother : forall k, k <> "tokens" -> prop auth1 k = prop auth k).
  { intros k Hk. subst auth1. destruct (negb (truthy_opt (prop auth "tokens")));
      [now apply prop_set_other | reflexivity]. }
  assert (Hobj : exists fields1, auth1 = JObj fields1).
  { subst auth1 auth. destruct (negb _); simpl; eauto. }
  assert (Htokens : prop auth1 "tokens"
                    = Some (if truthy_opt (prop auth "tokens")
                            then default JNull (prop auth "tokens") else JObj [])).
  { subst auth1. destruct (truthy_opt (prop auth "tokens")) eqn:Htruthy; simpl negb; cbv iota.
    - destruct (prop auth "tokens"); [reflexivity | discriminate].
    - subst auth. apply prop_set_same. }
  destruct Hobj as [fields1 Hobj].
  rewrite Htokens. intros [= <-]. eexists _, _.
  split; [| split; [reflexivity |]]; [| split; [| split; [| split; [| reflexivity]]]].
  - intros k. destruct (truthy_opt (prop auth "tokens")) eqn:Htruthy.
    + destruct (prop auth "tokens") as [t |]; [| discriminate]. simpl default.
      now rewrite prop_opt_some.
    + now rewrite (falsy_no_prop _ k Htruthy).
  - rewrite prop_set_other by discriminate. rewrite Hobj. apply prop_set_same.
  - rewrite Hobj. simpl set_prop at 2. apply prop_set_same.
  - intros k Hk1 Hk2. rewrite !prop_set_other by assumption. now apply Hother.
Qed.

(** C8: a refresh without refresh token ([undefined], [null], the empty
    string, any falsy value) fails with the configuration error of line
    269 and leaves the world as it was: no request went to the token
    endpoint, nothing was written, and nothing is tried again. *)
Theorem refresh_requires_token `{Platform}
    (authPath : string) (auth : json) (refreshToken : option json) (w : World) :
  truthy_opt refreshToken = false ->
  refreshTokensAndPersist authPath auth refreshToken w
  = (Throw (newError "Cannot refresh tokens: refresh_token is missing from auth.json."), w)
  /\ count isTokenPost (trace (snd (refreshTokensAndPersist authPath auth refreshToken w)))
     = count isTokenPost (trace w).
Proof.
  intros Hfalsy. unfold refreshTokensAndPersist. rewrite Hfalsy. simpl. split; reflexivity.
Qed.

Lemma refresh_requires_token_witness :
  @refreshTokensAndPersist Demo.demo "/a.json" Demo.bundle (Some (JStr EmptyString))
    Demo.refusedRefresh
  = (Throw (newError "Cannot refresh tokens: refresh_token is missing from auth.json."),
     Demo.refusedRefresh).
Proof.
  apply (@refresh_requires_token Demo.demo). reflexivity.
Defined.

(** C5: when a refresh returns, the file at the bundle's path holds
    [JSON.stringify(auth, null, 2)] of the mutated bundle followed by a
    newline, written after the answer of the token endpoint and before the
    refresh returns; in that bundle [tokens.access_token] is the token the
    endpoint returned and [last_refresh] is the ISO form of a time that is
    not before the completion of the token request. *)
Theorem refresh_persists_bundle `{Platform}
    (authPath : string) (auth : json) (refreshToken : option json)
    (w w' : World) (auth' : json) :
  is_object auth = true ->
  (truthy_opt (prop auth "tokens") = true ->
   exists fields, prop auth "tokens" = Some (JObj fields)) ->
  refreshTokensAndPersist authPath auth refreshToken w = (Ok auth', w') ->
  exists status statusText body refreshed access stamp,
    let completed := clock w + Z.of_N (delay (envStep w)) in
    let content := JSON_stringify_2 auth' ++ newline in
    net (envStep w) = NetResponse status statusText body
    /\ JSON_parse body = Some refreshed
    /\ prop refreshed "access_token" = Some access
    /\ files w' !! authPath = Some content
    /\ trace w' = (trace w ++ [EvTokenPost refreshToken; EvWriteFile authPath content])%list
    /\ prop_opt (prop auth' "tokens") "access_token" = Some access
    /\ prop auth' "last_refresh" = Some (JStr (Date_toISOString stamp))
    /\ completed <= stamp <= clock w'.
Proof.
  intros _ Hshape Hrun.
  apply refreshTokensAndPersist_ok_inv in Hrun
    as (st & stt & body & refreshed & access & _ & _ & Hnet & Hparse & Hacc & _ & Hstore & ->).
  apply storeRefreshed_ok_inv in Hstore
    as (tokens0 & tokens' & Hprops & Hobj & Htok & Hstamp & _ & ->).
  exists st, stt, body, refreshed, access, (clock w + Z.of_N (delay (envStep w))).
  cbv zeta. repeat split; auto.
  - simpl. apply lookup_insert_eq.
  - simpl. now rewrite <- app_assoc.
  - rewrite Htok, prop_opt_some.
    assert (Hfields : exists fields, tokens0 = JObj fields).
    { rewrite Hobj. destruct (truthy_opt (prop auth "tokens")) eqn:Htruthy; [| eauto].
      destruct (Hshape eq_refl) as [fields ->]. eauto. }
    destruct Hfields as [fields ->].
    destruct (truthy_opt (prop refreshed "refresh_token"));
      destruct (truthy_opt (prop refreshed "id_token"));
      rewrite ?prop_set_other by discriminate; apply prop_set_same.
  - lia.
  - simpl. lia.
Qed.

Lemma refresh_persists_bundle_witness :
  exists auth' w',
    @refreshTokensAndPersist Demo.demo "/a.json" Demo.bundle (Some (JStr "r1")) Demo.refreshing
    = (Ok auth', w')
    /\ files w' !! "/a.json" = Some (@JSON_stringify_2 Demo.demo auth' ++ newline)
    /\ prop_opt (prop auth' "tokens") "access_token" = Some (JStr "tok2")
    /\ prop auth' "last_refresh" = Some (JStr "T1000003").
Proof.
  destruct (@refreshTokensAndPersist Demo.demo "/a.json" Demo.bundle (Some (JStr "r1"))
              Demo.refreshing) as [[auth' | e] w'] eqn:Hrun;
    [| vm_compute in Hrun; discriminate].
  exists auth', w'. split; [reflexivity |].
  destruct (@refresh_persists_bundle Demo.demo "/a.json" Demo.bundle (Some (JStr "r1"))
              Demo.refreshing w' auth')
    as (st & stt & body & refreshed & access & stamp & Hnet & Hparse & Hacc & Hfile & _
        & Htok & Hstamp & Hle).
  - reflexivity.
  - intros _. eexists. reflexivity.
  - exact Hrun.
  - vm_compute in Hrun. injection Hrun as <- <-.
    split; [exact Hfile | split; reflexivity].
Defined.

(** C10: when a refresh returns, the bundle it wrote keeps what the
    response did not replace: the previous [id_token] when the response
    has no (truthy) [id_token], the previous [refresh_token] when it has
    no (truthy) [refresh_token], every other field of [tokens], and every
    field of the bundle other than [tokens] and [last_refresh]. *)
Theorem refresh_keeps_other_fields `{Platform}
    (authPath : string) (auth : json) (refreshToken : option json)
    (w w' : World) (auth' : json) :
  is_object auth = true ->
  refreshTokensAndPersist authPath auth refreshToken w = (Ok auth', w') ->
  exists status statusText body refreshed,
    net (envStep w) = NetResponse status statusText body
    /\ JSON_parse body = Some refreshed
    /\ files w' !! authPath = Some (JSON_stringify_2 auth' ++ newline)
    /\ (truthy_opt (prop refreshed "id_token") = false ->
        prop_opt (prop auth' "tokens") "id_token" = prop_opt (prop auth "tokens") "id_token")
    /\ (truthy_opt (prop refreshed "refresh_token") = false ->
        prop_opt (prop auth' "tokens") "refresh_token"
        = prop_opt (prop auth "tokens") "refresh_token")
    /\ (forall k, k <> "access_token" -> k <> "id_token" -> k <> "refresh_token" ->
        prop_opt (prop auth' "tokens") k = prop_opt (prop auth "tokens") k)
    /\ (forall k, k <> "tokens" -> k <> "last_refresh" -> prop auth' k = prop auth k).
Proof.
  intros _ Hrun.
  apply refreshTokensAndPersist_ok_inv in Hrun
    as (st & stt & body & refreshed & access & _ & _ & Hnet & Hparse & _ & _ & Hstore & ->).
  apply storeRefreshed_ok_inv in Hstore
    as (tokens0 & tokens' & Hprops & _ & Htok & _ & Hframe & ->).
  exists st, stt, body, refreshed. rewrite Htok.
  split; [exact Hnet | split; [exact Hparse | split; [| split; [| split; [| split]]]]].
  - simpl. apply lookup_insert_eq.
  - intros Hid. rewrite prop_opt_some, Hid, <- Hprops.
    destruct (truthy_opt (prop refreshed "refresh_token"));
      now rewrite !prop_set_other by discriminate.
  - intros Hrt. rewrite prop_opt_some, Hrt, <- Hprops.
    destruct (truthy_opt (prop refreshed "id_token"));
      now rewrite !prop_set_other by discriminate.
  - intros k Hk1 Hk2 Hk3. rewrite prop_opt_some, <- Hprops.
    destruct (truthy_opt (prop refreshed "refresh_token"));
      destruct (truthy_opt (prop refreshed "id_token"));
      now rewrite !prop_set_other by assumption.
  - exact Hframe.
Qed.

Lemma refresh_keeps_other_fields_witness :
  exists auth' w',
    @refreshTokensAndPersist Demo.demo "/a.json" Demo.bundle (Some (JStr "r1")) Demo.refreshing
    = (Ok auth', w')
    /\ prop_opt (prop auth' "tokens") "id_token" = Some (JStr "id0")
    /\ prop_opt (prop auth' "tokens") "refresh_token" = Some (JStr "r1")
    /\ prop auth' "OPENAI_API_KEY" = Some JNull.
Proof.
  destruct (@refreshTokensAndPersist Demo.demo "/a.json" Demo.bundle (Some (JStr "r1"))
              Demo.refreshing) as [[auth' | e] w'] eqn:Hrun;
    [| vm_compute in Hrun; discriminate].
  exists auth', w'. split; [reflexivity |].
  destruct (@refresh_keeps_other_fields Demo.demo "/a.json" Demo.bundle (Some (JStr "r1"))
              Demo.refreshing w' auth' eq_refl Hrun)
    as (st & stt & body & refreshed & Hnet & Hparse & _ & Hid & Hrt & _ & Hframe).
  assert (Hrefreshed : refreshed = JObj [("access_token", JStr "tok2")]).
  { vm_compute in Hnet. injection Hnet as <- <- <-.
    vm_compute in Hparse. now injection Hparse as <-. }
  subst refreshed.
  split; [| split].
  - rewrite (Hid eq_refl). reflexivity.
  - rewrite (Hrt eq_refl). reflexivity.
  - rewrite Hframe by discriminate. reflexivity.
Defined.

(** ** Cancellation *)

Lemma extends_refl (w : World) : extends w w.
Proof. unfold extends. repeat split; lia. Qed.

Lemma extends_trans (w1 w2 w3 : World) : extends w1 w2 -> extends w2 w3 -> extends w1 w3.
Proof.
  unfold extends. intros (Hq1 & He1 & Hc1) (Hq2 & He2 & Hc2).
  repeat split; [congruence | congruence | lia].
Qed.

Lemma extends_aborted (w w' : World) : extends w w' -> aborted w = true -> aborted w' = true.
Proof.
  unfold extends, aborted. intros (Hq & _ & Hc). rewrite Hq.
  destruct (quitAt w) as [q |]; [| discriminate].
  intros Hle. apply Z.leb_le in Hle. apply Z.leb_le. lia.
Qed.

Lemma extends_resume (w : World) (t : Z) (evs : list Event) :
  clock w <= t -> extends w (resume t evs w).
Proof. unfold extends. simpl. auto. Qed.

Lemma guards_weaken {A} (pre pre' : World -> Prop) (c : M A) :
  (forall w, pre' w -> pre w) -> guards pre c -> guards pre' c.
Proof. unfold guards. intros Himp Hc w r w' Hpre. apply Hc. auto. Qed.

Lemma cancellable_guards {A} (pre : World -> Prop) (c : M A) :
  cancellable c -> guards pre c.
Proof. apply guards_weaken. auto. Qed.

Lemma guards_ret {A} (pre : World -> Prop) (a : A) : guards pre (ret a).
Proof.
  intros w r w' _ [= <- <-]. split; [apply extends_refl | discriminate].
Qed.

Lemma guards_throw {A} (pre : World -> Prop) (e : JsError) :
  (forall w, pre w -> isAbortError e = true -> aborted w = true) ->
  guards pre (@throw A e).
Proof.
  intros Hpre w r w' Hw [= <- <-]. split; [apply extends_refl |].
  intros e' [= <-]. now apply Hpre.
Qed.

Lemma cancellable_throw {A} (e : JsError) :
  isAbortError e = false -> cancellable (@throw A e).
Proof.
  intros Hne. apply guards_throw. intros w _ Habs. congruence.
Qed.

Lemma guards_lift {A} (pre : World -> Prop) (r : Result A) :
  (forall e, r = Throw e -> isAbortError e = false) -> guards pre (lift r).
Proof.
  intros Hr w r' w' _ [= <- <-]. split; [apply extends_refl |].
  intros e He Habs. rewrite (Hr e He) in Habs. discriminate.
Qed.

Lemma guards_bind {A B} (pre : World -> Prop) (c : M A) (k : A -> M B) :
  guards pre c -> (forall a, cancellable (k a)) -> guards pre (bind c k).
Proof.
  intros Hc Hk w r w' Hpre Hrun.
  apply bind_inv in Hrun as [(a & w1 & Hc1 & Hk1) | (e & Hc1 & ->)].
  - destruct (Hc _ _ _ Hpre Hc1) as [Hext1 _].
    destruct (Hk a _ _ _ I Hk1) as [Hext2 Hab].
    split; [eapply extends_trans; eauto | exact Hab].
  - destruct (Hc _ _ _ Hpre Hc1) as [Hext Hab]. split; [exact Hext |].
    intros e' [= <-]. now apply (Hab e).
Qed.

Lemma cancellable_bind {A B} (c : M A) (k : A -> M B) :
  cancellable c -> (forall a, cancellable (k a)) -> cancellable (bind c k).
Proof. apply guards_bind. Qed.

(** A handler may assume that an abort error it is given comes with an
    aborted signal. *)
Lemma cancellable_try_catch {A} (c : M A) (handler : JsError -> M A) :
  cancellable c ->
  (forall e, guards (fun w => isAbortError e = true -> aborted w = true) (handler e)) ->
  cancellable (try_catch c handler).
Proof.
  intros Hc Hh w r w' _ Hrun. unfold try_catch in Hrun.
  destruct (c w) as [[a | e] w1] eqn:Hc1.
  - injection Hrun as <- <-. destruct (Hc _ _ _ I Hc1) as [Hext _].
    split; [exact Hext | discriminate].
  - destruct (Hc _ _ _ I Hc1) as [Hext1 Hab1].
    destruct (Hh e w1 r w' (Hab1 e eq_refl) Hrun) as [Hext2 Hab2].
    split; [eapply extends_trans; eauto | exact Hab2].
Qed.

Lemma cancellable_Date_now : cancellable Date_now.
Proof.
  intros w r w' _ [= <- <-]. split; [apply extends_refl | discriminate].
Qed.

Lemma cancellable_ensureNotAborted : cancellable ensureNotAborted.
Proof.
  intros w r w' _ Hrun.
  apply ensureNotAborted_inv in Hrun as (-> & [[_ ->] | [Hab ->]]);
    (split; [apply extends_refl |]); [discriminate | auto].
Qed.

Lemma cancellable_fs_readFile (path : string) : cancellable (fs_readFile path).
Proof.
  intros w r w' _ Hrun. unfold fs_readFile in Hrun.
  assert (Hext : extends w (resume (clock w + Z.of_N (delay (envStep w))) [EvReadFile path] w))
    by (apply extends_resume; lia).
  destruct (fs_fail (envStep w)); [| destruct (files w !! path)];
    injection Hrun as <- <-; (split; [exact Hext |]);
    intros e [= <-]; discriminate.
Qed.

Lemma cancellable_fs_writeFile (path content : string) :
  cancellable (fs_writeFile path content).
Proof.
  intros w r w' _ Hrun. unfold fs_writeFile in Hrun.
  destruct (fs_fail (envStep w)); injection Hrun as <- <-.
  - split; [apply extends_resume; lia | intros e [= <-]; discriminate].
  - split; [| discriminate]. unfold extends. simpl. repeat split; lia.
Qed.

Lemma cancellable_fetch (request : Event) : cancellable (fetch request).
Proof.
  intros w r w' _ Hrun. unfold fetch in Hrun.
  destruct (aborted w) eqn:Hab.
  { injection Hrun as <- <-. split; [apply extends_refl | auto]. }
  unfold aborted in Hab.
  destruct (quitAt w) as [q |] eqn:Hq.
  - apply Z.leb_gt in Hab.
    destruct (Z.leb_spec q (clock w + Z.of_N (delay (envStep w)))) as [Hle | Hgt].
    + injection Hrun as <- <-. simpl. split.
      * unfold extends. simpl. repeat split; auto. lia.
      * intros _ _ _. unfold aborted. simpl. rewrite Hq. apply Z.leb_le. lia.
    + destruct (net (envStep w)); injection Hrun as <- <-;
        (split; [apply extends_resume; lia |]); intros e [= <-]; discriminate.
  - destruct (net (envStep w)); injection Hrun as <- <-;
      (split; [apply extends_resume; lia |]); intros e [= <-]; discriminate.
Qed.

Lemma cancellable_res_json `{Platform} (res : Response) : cancellable (res_json res).
Proof.
  unfold res_json. destruct (JSON_parse (res_body res));
    [apply guards_ret | now apply cancellable_throw].
Qed.

Lemma cancellable_readAuth `{Platform} (path : string) : cancellable (readAuth path).
Proof.
  apply cancellable_bind; [apply cancellable_fs_readFile |].
  intros raw. destruct (JSON_parse raw); [apply guards_ret | now apply cancellable_throw].
Qed.

Lemma cancellable_fetchUsage `{Platform} (accessToken accountId : option json) :
  cancellable (fetchUsage accessToken accountId).
Proof.
  apply cancellable_bind; [apply cancellable_ensureNotAborted | intros _].
  apply cancellable_bind; [apply cancellable_fetch | intros res].
  destruct (negb (res_ok res)); [now apply cancellable_throw | apply cancellable_res_json].
Qed.

Lemma cancellable_requestTokenRefresh `{Platform} (refreshToken : option json) :
  cancellable (requestTokenRefresh refreshToken).
Proof.
  apply cancellable_bind; [apply cancellable_fetch | intros res].
  destruct (negb (res_ok res)); [now apply cancellable_throw | apply cancellable_res_json].
Qed.

Lemma storeRefreshed_not_abort `{Platform} (auth refreshed access : json) (now : Z) (e : JsError) :
  storeRefreshed auth refreshed access now = Throw e -> isAbortError e = false.
Proof.
  unfold storeRefreshed. destruct auth; try (intros [= <-]; reflexivity).
  all: match goal with
       | |- context [match ?p with Some _ => _ | None => _ end] => destruct p
       end; try discriminate; intros [= <-]; reflexivity.
Qed.

Lemma cancellable_refreshTokensAndPersist `{Platform}
    (path : string) (auth : json) (refreshToken : option json) :
  cancellable (refreshTokensAndPersist path auth refreshToken).
Proof.
  unfold refreshTokensAndPersist.
  destruct (negb (truthy_opt refreshToken)); [now apply cancellable_throw |].
  apply cancellable_bind; [apply cancellable_ensureNotAborted | intros _].
  apply cancellable_bind; [apply cancellable_requestTokenRefresh | intros refreshed].
  assert (Hbody : cancellable
    (if negb (truthy_opt (prop refreshed "access_token"))
     then throw (newError "Token refresh succeeded but no access_token was returned.")
     else
       now <- Date_now ;;
       auth' <- lift (storeRefreshed auth refreshed
                        (default JNull (prop refreshed "access_token")) now) ;;
       _ <- fs_writeFile path (JSON_stringify_2 auth' ++ newline) ;;
       ret auth')).
  { destruct (negb _); [now apply cancellable_throw |].
    apply cancellable_bind; [apply cancellable_Date_now | intros now].
    apply cancellable_bind;
      [apply guards_lift; intros e; apply storeRefreshed_not_abort | intros auth'].
    apply cancellable_bind; [apply cancellable_fs_writeFile | intros _].
    apply guards_ret. }
  destruct refreshed; try exact Hbody. now apply cancellable_throw.
Qed.

Lemma cancellable_validateTokenBundle (tokens : option json) :
  cancellable (validateTokenBundle tokens).
Proof.
  unfold validateTokenBundle.
  match goal with |- context [if ?b then _ else _] => destruct b end;
    [now apply cancellable_throw | apply guards_ret].
Qed.

Lemma isoOfSeconds_not_abort `{Platform} (v : json) (e : JsError) :
  isoOfSeconds v = Throw e -> isAbortError e = false.
Proof.
  unfold isoOfSeconds. destruct (ToNumber v); [| intros [= <-]; reflexivity].
  match goal with |- context [if ?b then _ else _] => destruct b end;
    [discriminate | intros [= <-]; reflexivity].
Qed.

Lemma mapWindow_not_abort `{Platform} (window : option json) (e : JsError) :
  mapWindow window = Throw e -> isAbortError e = false.
Proof.
  unfold mapWindow. destruct window as [win |]; [| discriminate].
  destruct (negb (truthy win)); [discriminate |].
  destruct (js_nullish (js_nullish (prop win "reset_at") (prop win "resetAt")) (Some JNull))
    as [v |]; [| discriminate].
  destruct v; try discriminate.
  all: match goal with
       | |- context [isoOfSeconds ?v] => destruct (isoOfSeconds v) eqn:Hv
       end; [discriminate | intros [= <-]; now apply isoOfSeconds_not_abort in Hv].
Qed.

Lemma cancellable_sessionPrelude `{Platform} (authPath : string) :
  cancellable (sessionPrelude authPath).
Proof.
  unfold sessionPrelude.
  apply cancellable_bind; [apply cancellable_ensureNotAborted | intros _].
  apply cancellable_bind; [apply cancellable_readAuth | intros auth0].
  destruct auth0; try (now apply cancellable_throw).
  all: apply cancellable_bind; [apply cancellable_validateTokenBundle | intros _].
  all: apply cancellable_bind; [apply cancellable_Date_now | intros now].
  all: match goal with |- context [if ?b then _ else _] => destruct b end;
         [| apply guards_ret].
  all: apply cancellable_bind; [apply cancellable_ensureNotAborted | intros _].
  all: apply cancellable_bind; [apply cancellable_refreshTokensAndPersist | intros auth'].
  all: apply guards_ret.
Qed.

Lemma cancellable_firstFetch `{Platform} (s : Session) : cancellable (firstFetch s).
Proof.
  apply cancellable_bind; [apply cancellable_ensureNotAborted | intros _].
  apply cancellable_fetchUsage.
Qed.

Lemma guards_retryAfter401 `{Platform} (authPath : string) (s : Session) (err : JsError) :
  guards (fun w => isAbortError err = true -> aborted w = true) (retryAfter401 authPath s err).
Proof.
  unfold retryAfter401.
  match goal with |- context [if ?b then _ else _] => destruct b end.
  - apply cancellable_guards.
    apply cancellable_bind; [apply cancellable_refreshTokensAndPersist | intros auth'].
    apply cancellable_bind; [apply cancellable_ensureNotAborted | intros _].
    apply cancellable_bind; [apply cancellable_fetchUsage | intros payload].
    apply guards_ret.
  - apply guards_throw. auto.
Qed.

Lemma cancellable_usageWithRetry `{Platform} (authPath : string) (s : Session) :
  cancellable (usageWithRetry authPath s).
Proof.
  apply cancellable_try_catch.
  - apply cancellable_bind; [apply cancellable_firstFetch | intros p; apply guards_ret].
  - apply guards_retryAfter401.
Qed.

Lemma cancellable_assembleResult `{Platform} (authPath : string) (payload : json) (s : Session) :
  cancellable (assembleResult authPath payload s).
Proof.
  unfold assembleResult.
  apply cancellable_bind; [apply guards_lift; intros e; apply mapWindow_not_abort | intros p1].
  apply cancellable_bind; [apply guards_lift; intros e; apply mapWindow_not_abort | intros p2].
  apply cancellable_bind; [apply cancellable_Date_now | intros now].
  apply guards_ret.
Qed.

(** A session moves the world forward and ends in an abort error only
    when the signal is aborted. *)
Lemma cancellable_collectUsageForAuth `{Platform} (authPath : string) :
  cancellable (collectUsageForAuth authPath).
Proof.
  apply cancellable_bind; [apply cancellable_sessionPrelude | intros s].
  apply cancellable_bind; [apply cancellable_usageWithRetry | intros r].
  apply cancellable_assembleResult.
Qed.

(** ** The pass *)

Lemma accountEntry_run `{Platform} (authPath : string) (w : World) :
  accountEntry authPath w
  = match collectUsageForAuth authPath w with
    | (Ok usage, w') => (Ok (ResultUsage usage), w')
    | (Throw e, w') =>
        if isAbortError e then (Throw e, w')
        else (Ok (ResultError authPath (errorText e)), w')
    end.
Proof.
  unfold accountEntry, try_catch, bind, ret, throw.
  destruct (collectUsageForAuth authPath w) as [[usage | e] w']; [reflexivity |].
  now destruct (isAbortError e).
Qed.

Lemma renderAccounts_cons `{Platform} (authArg : string) (rest : list string)
    (results : list AccountResult) :
  renderAccounts (authArg :: rest) results
  = (_ <- ensureNotAborted ;;
     entry <- accountEntry (path_resolve authArg) ;;
     renderAccounts rest (results ++ [entry])%list).
Proof. reflexivity. Qed.

Lemma renderAccounts_spec `{Platform} (authPaths : list string) :
  forall (results : list AccountResult) (w : World) (r : Result (list AccountResult))
         (w' : World),
    renderAccounts authPaths results w = (r, w') ->
    extends w w'
    /\ match r with
       | Throw e => isAbortError e = true /\ aborted w' = true
       | Ok _ => aborted w' = false
       end.
Proof.
  induction authPaths as [| authArg rest IH]; intros results w r w' Hrun.
  - simpl in Hrun.
    apply bind_inv in Hrun as [([] & w1 & Hcheck & Hret) | (e & Hcheck & ->)].
    + apply ensureNotAborted_inv in Hcheck as (-> & [[Hab _] | [_ Hbad]]); [| discriminate].
      injection Hret as <- <-. split; [apply extends_refl | exact Hab].
    + apply ensureNotAborted_inv in Hcheck as (-> & [[_ Hbad] | [Hab [= ->]]]);
        [discriminate |].
      split; [apply extends_refl | now split].
  - rewrite renderAccounts_cons in Hrun.
    apply bind_inv in Hrun as [([] & w1 & Hcheck & Hrun) | (e & Hcheck & ->)].
    + apply ensureNotAborted_inv in Hcheck as (-> & _).
      apply bind_inv in Hrun as [(entry & w2 & Hentry & Hrun) | (e & Hentry & ->)].
      * rewrite accountEntry_run in Hentry.
        destruct (collectUsageForAuth (path_resolve authArg) w) as [[usage | e] w3] eqn:Hsession.
        -- injection Hentry as <- <-.
           destruct (cancellable_collectUsageForAuth _ _ _ _ I Hsession) as [Hext1 _].
           destruct (IH _ _ _ _ Hrun) as [Hext2 Hres].
           split; [eapply extends_trans; eauto | exact Hres].
        -- destruct (isAbortError e) eqn:Habort; [discriminate |].
           injection Hentry as <- <-.
           destruct (cancellable_collectUsageForAuth _ _ _ _ I Hsession) as [Hext1 _].
           destruct (IH _ _ _ _ Hrun) as [Hext2 Hres].
           split; [eapply extends_trans; eauto | exact Hres].
      * rewrite accountEntry_run in Hentry.
        destruct (collectUsageForAuth (path_resolve authArg) w) as [[usage | e'] w3] eqn:Hsession;
          [discriminate |].
        destruct (isAbortError e') eqn:Habort; [| discriminate].
        injection Hentry as <- <-.
        destruct (cancellable_collectUsageForAuth _ _ _ _ I Hsession) as [Hext1 Hab].
        split; [exact Hext1 |]. split; [exact Habort | now apply (Hab e')].
    + apply ensureNotAborted_inv in Hcheck as (-> & [[_ Hbad] | [Hab [= ->]]]);
        [discriminate |].
      split; [apply extends_refl | now split].
Qed.

Lemma capturedAs_errorText (authPath : string) (e : JsError) :
  isAbortError e = false ->
  capturedAs authPath (Throw e) (ResultError authPath (errorText e)).
Proof.
  intros Hnot. split; [exact Hnot |]. exists (errorText e). unfold errorText.
  split; [reflexivity |]. destruct (err_message e); cbn; split; intros; congruence.
Qed.

(** What the loop of a pass does, session by session. *)
Lemma renderAccounts_chain `{Platform} (authPaths : list string) :
  forall (results : list AccountResult) (w : World) (r : Result (list AccountResult))
         (w' : World),
    renderAccounts authPaths results w = (r, w') ->
    match r with
    | Ok all =>
        exists entries,
          all = (results ++ entries)%list /\ passRun authPaths w entries w'
          /\ aborted w' = false
    | Throw e =>
        exists done rest entries w1,
          authPaths = (done ++ rest)%list /\ passRun done w entries w1
          /\ (w' = w1 /\ aborted w1 = true /\ e = abortError
              \/ exists authArg rest',
                   rest = authArg :: rest' /\ aborted w1 = false
                   /\ collectUsageForAuth (path_resolve authArg) w1 = (Throw e, w')
                   /\ isAbortError e = true)
    end.
Proof.
  induction authPaths as [| authArg rest IH]; intros results w r w' Hrun.
  - simpl in Hrun.
    apply bind_inv in Hrun as [([] & w1 & Hcheck & Hret) | (e & Hcheck & ->)].
    + apply ensureNotAborted_inv in Hcheck as (-> & [[Hab _] | [_ Hbad]]); [| discriminate].
      injection Hret as <- <-. exists []. rewrite app_nil_r.
      split; [reflexivity | split; [constructor | exact Hab]].
    + apply ensureNotAborted_inv in Hcheck as (-> & [[_ Hbad] | [Hab [= ->]]]);
        [discriminate |].
      exists [], [], [], w. split; [reflexivity |]. split; [constructor |]. now left.
  - rewrite renderAccounts_cons in Hrun.
    apply bind_inv in Hrun as [([] & w0 & Hcheck & Hrun) | (e & Hcheck & ->)].
    + apply ensureNotAborted_inv in Hcheck as (-> & [[Hab _] | [_ Hbad]]); [| discriminate].
      apply bind_inv in Hrun as [(entry & w1 & Hentry & Hrun) | (e & Hentry & ->)].
      * rewrite accountEntry_run in Hentry.
        destruct (collectUsageForAuth (path_resolve authArg) w) as [[usage | e] ws]
          eqn:Hsession.
        -- injection Hentry as <- <-.
           specialize (IH _ _ _ _ Hrun). destruct r as [all | e].
           ++ destruct IH as (entries & -> & Hchain & Hend).
              exists (ResultUsage usage :: entries).
              split; [now rewrite <- app_assoc |].
              split; [| exact Hend]. econstructor; eauto. reflexivity.
           ++ destruct IH as (done & rest' & entries & w1 & -> & Hchain & Hstop).
              exists (authArg :: done), rest', (ResultUsage usage :: entries), w1.
              split; [reflexivity |]. split; [| exact Hstop].
              econstructor; eauto. reflexivity.
        -- destruct (isAbortError e) eqn:Habort; [discriminate |].
           injection Hentry as <- <-.
           specialize (IH _ _ _ _ Hrun). destruct r as [all | e'].
           ++ destruct IH as (entries & -> & Hchain & Hend).
              exists (ResultError (path_resolve authArg) (errorText e) :: entries).
              split; [now rewrite <- app_assoc |].
              split; [| exact Hend].
              econstructor; eauto. now apply capturedAs_errorText.
           ++ destruct IH as (done & rest' & entries & w1 & -> & Hchain & Hstop).
              exists (authArg :: done), rest',
                (ResultError (path_resolve authArg) (errorText e) :: entries), w1.
              split; [reflexivity |]. split; [| exact Hstop].
              econstructor; eauto. now apply capturedAs_errorText.
      * rewrite accountEntry_run in Hentry.
        destruct (collectUsageForAuth (path_resolve authArg) w) as [[usage | e'] ws]
          eqn:Hsession; [discriminate |].
        destruct (isAbortError e') eqn:Habort; [| discriminate].
        injection Hentry as <- <-.
        exists [], (authArg :: rest), [], w. split; [reflexivity |].
        split; [constructor |]. right. exists authArg, rest. auto.
    + apply ensureNotAborted_inv in Hcheck as (-> & [[_ Hbad] | [Hab [= ->]]]);
        [discriminate |].
      exists [], (authArg :: rest), [], w. split; [reflexivity |].
      split; [constructor |]. now left.
Qed.

Lemma capturedAs_entry (authPath : string) (e : JsError) (entry : AccountResult) :
  capturedAs authPath (Throw e) entry ->
  isAbortError e = false /\ entry = ResultError authPath (errorText e).
Proof.
  intros [Hnot (error & -> & Hsome & Hnone)]. split; [exact Hnot |].
  unfold errorText. destruct (err_message e) eqn:Hmsg.
  - now rewrite Hnone.
  - rewrite Hsome; [reflexivity | discriminate].
Qed.

(** Conversely, such a chain of sessions is what the loop does. *)
Lemma renderAccounts_of_chain `{Platform} (authPaths : list string) (w w' : World)
    (entries : list AccountResult) :
  passRun authPaths w entries w' ->
  aborted w' = false ->
  forall results, renderAccounts authPaths results w = (Ok (results ++ entries)%list, w').
Proof.
  induction 1 as [w | authArg rest w w1 w' r entry entries Hab Hsession Hentry Hchain IH];
    intros Hend results.
  - simpl. unfold bind, ensureNotAborted. rewrite Hend.
    unfold ret. now rewrite app_nil_r.
  - rewrite renderAccounts_cons. unfold bind at 1.
    unfold ensureNotAborted. rewrite Hab.
    unfold bind. rewrite accountEntry_run, Hsession.
    destruct r as [usage | e].
    + cbn in Hentry. subst entry. rewrite (IH Hend). now rewrite <- app_assoc.
    + apply capturedAs_entry in Hentry as [Hnot ->]. rewrite Hnot.
      unfold ret. rewrite (IH Hend). now rewrite <- app_assoc.
Qed.

(** C4: a pass is the chain of the sessions of the configured bundles,
    each run in the world the one before left.  It returns exactly when
    the signal is not aborted at any of its checks and no session ends in
    an abort error, and then with one entry per bundle, in order: the
    object of the session, or [{ authFile, error }] with the message of
    the error that ended that very session (its name if it has no
    message), which is then no abort error; the sessions after a failed
    one run all the same.  It raises nothing but an abort error, with the
    signal aborted: at one of its checks, or from the session that raised
    it, whose entry and whose successors' are then never written.
    Without cancellation every pass returns, whatever fails in its
    sessions. *)
Theorem renderOnce_isolates_failures `{Platform} (authPaths : list string) (w : World) :
  (forall results w',
      renderOnce authPaths w = (Ok results, w')
      <-> passRun authPaths w results w' /\ aborted w' = false)
  /\ (forall e w',
        renderOnce authPaths w = (Throw e, w') ->
        isAbortError e = true /\ aborted w' = true
        /\ exists done rest entries w1,
             authPaths = (done ++ rest)%list /\ passRun done w entries w1
             /\ (w' = w1 /\ e = abortError
                 \/ exists authArg rest',
                      rest = authArg :: rest' /\ aborted w1 = false
                      /\ collectUsageForAuth (path_resolve authArg) w1 = (Throw e, w')))
  /\ (quitAt w = None -> exists results w', renderOnce authPaths w = (Ok results, w')).
Proof.
  assert (Hthrow : forall e w',
             renderOnce authPaths w = (Throw e, w') ->
             isAbortError e = true /\ aborted w' = true
             /\ exists done rest entries w1,
                  authPaths = (done ++ rest)%list /\ passRun done w entries w1
                  /\ (w' = w1 /\ e = abortError
                      \/ exists authArg rest',
                           rest = authArg :: rest' /\ aborted w1 = false
                           /\ collectUsageForAuth (path_resolve authArg) w1 = (Throw e, w'))).
  { intros e w' Hrun. unfold renderOnce in Hrun.
    apply bind_inv in Hrun as [([] & w1 & Hcheck & Hrun) | (e0 & Hcheck & [= ->])].
    - apply ensureNotAborted_inv in Hcheck as (-> & _).
      destruct (renderAccounts_spec _ _ _ _ _ Hrun) as [_ [Habort Hab]].
      split; [exact Habort | split; [exact Hab |]].
      destruct (renderAccounts_chain _ _ _ _ _ Hrun)
        as (done & rest & entries & w1 & Hsplit & Hchain & Hstop).
      exists done, rest, entries, w1. split; [exact Hsplit | split; [exact Hchain |]].
      destruct Hstop as [(-> & _ & ->) | (authArg & rest' & -> & Hok & Hsession & _)].
      + now left.
      + right. exists authArg, rest'. auto.
    - apply ensureNotAborted_inv in Hcheck as (-> & [[_ Hbad] | [Hab [= ->]]]);
        [discriminate |].
      split; [reflexivity | split; [exact Hab |]].
      exists [], authPaths, [], w. split; [reflexivity |]. split; [constructor |].
      now left. }
  split; [| split; [exact Hthrow |]].
  - intros results w'. split.
    + intros Hrun. unfold renderOnce in Hrun.
      apply bind_inv in Hrun as [([] & w1 & Hcheck & Hrun) | (e & _ & He)]; [| discriminate].
      apply ensureNotAborted_inv in Hcheck as (-> & _).
      destruct (renderAccounts_chain _ _ _ _ _ Hrun) as (entries & -> & Hchain & Hend).
      now split.
    + intros [Hchain Hend].
      assert (Hstart : aborted w = false).
      { destruct Hchain; assumption. }
      unfold renderOnce, bind, ensureNotAborted. rewrite Hstart.
      exact (renderAccounts_of_chain _ _ _ _ Hchain Hend []).
  - intros Hquit. destruct (renderOnce authPaths w) as [[results | e] w'] eqn:Hrun; [eauto |].
    destruct (Hthrow _ _ eq_refl) as (_ & Hab & _).
    assert (Hq : quitAt w' = quitAt w).
    { unfold renderOnce in Hrun.
      apply bind_inv in Hrun as [([] & w1 & Hcheck & Hrun) | (e0 & Hcheck & _)].
      - apply ensureNotAborted_inv in Hcheck as (-> & _).
        now destruct (renderAccounts_spec _ _ _ _ _ Hrun) as [(Hq & _) _].
      - now apply ensureNotAborted_inv in Hcheck as (-> & _). }
    unfold aborted in Hab. rewrite Hq, Hquit in Hab. discriminate.
Qed.

Lemma renderOnce_isolates_failures_witness :
  exists usage w',
    @renderOnce Demo.demo ["/missing.json"; "/b.json"] Demo.twoBundles
    = (Ok [ResultError "/missing.json"
             "ENOENT: no such file or directory, open '/missing.json'";
           ResultUsage usage], w')
    /\ @passRun Demo.demo ["/missing.json"; "/b.json"] Demo.twoBundles
         [ResultError "/missing.json"
            "ENOENT: no such file or directory, open '/missing.json'";
          ResultUsage usage] w'.
Proof.
  destruct (@renderOnce_isolates_failures Demo.demo ["/missing.json"; "/b.json"] Demo.twoBundles)
    as (Hentries & _ & Hreturns).
  destruct (Hreturns eq_refl) as (results & w' & Hrun).
  destruct (proj1 (Hentries _ _) Hrun) as [Hchain _].
  pose proof Hrun as Hvalue. vm_compute in Hvalue. injection Hvalue as <- <-.
  eexists _, _. split; [exact Hrun | exact Hchain].
Defined.

(** ** Account session *)

Lemma count_app (p : Event -> bool) (l l' : list Event) :
  count p (l ++ l')%list = (count p l + count p l')%nat.
Proof. unfold count. now rewrite List.filter_app, List.length_app. Qed.

Lemma ensureNotAborted_ok (w : World) :
  aborted w = false -> ensureNotAborted w = (Ok tt, w).
Proof. unfold ensureNotAborted. now intros ->. Qed.

(** A request is sent, and logged, whenever the signal is not yet
    aborted. *)
Lemma fetch_trace (request : Event) (w w' : World) (r : Result Response) :
  aborted w = false -> fetch request w = (r, w') ->
  trace w' = (trace w ++ [request])%list.
Proof.
  unfold fetch. intros ->.
  destruct (quitAt w) as [q |].
  - destruct (q <=? _)%Z; [now intros [= _ <-] |].
    destruct (net (envStep w)); now intros [= _ <-].
  - destruct (net (envStep w)); now intros [= _ <-].
Qed.

Lemma fetchUsage_trace `{Platform} (accessToken accountId : option json) (w w' : World)
    (r : Result json) :
  fetchUsage accessToken accountId w = (r, w') ->
  (aborted w = false ->
   trace w' = (trace w ++ [EvUsageGet accessToken (accountHeader accountId)])%list)
  /\ (aborted w = true -> w' = w /\ r = Throw abortError).
Proof.
  unfold fetchUsage. intros Hrun.
  apply bind_inv in Hrun as [([] & w0 & Hcheck & Hrun) | (e & Hcheck & ->)].
  - apply ensureNotAborted_inv in Hcheck as (-> & [[Hab _] | [_ Hbad]]); [| discriminate].
    split; [intros _ | congruence].
    apply bind_inv in Hrun as [(res & w1 & Hfetch & Hrun) | (e & Hfetch & ->)].
    + apply (fetch_trace _ _ _ _ Hab) in Hfetch.
      destruct (negb (res_ok res)); [now injection Hrun as _ <- |].
      unfold res_json in Hrun. destruct (JSON_parse (res_body res)); now injection Hrun as _ <-.
    + now apply (fetch_trace _ _ _ _ Hab) in Hfetch.
  - apply ensureNotAborted_inv in Hcheck as (-> & [[_ Hbad] | [Hab [= ->]]]); [discriminate |].
    split; [congruence | auto].
Qed.


Lemma firstFetch_run `{Platform} (s : Session) (w : World) :
  firstFetch s w = fetchUsage (prop_opt (s_tokens s) "access_token") (s_accountId s) w.
Proof.
  unfold firstFetch, bind. unfold ensureNotAborted at 1.
  destruct (aborted w) eqn:Hab; [| reflexivity].
  unfold fetchUsage, bind, ensureNotAborted. now rewrite Hab.
Qed.



Lemma usageWithRetry_run `{Platform} (authPath : string) (s : Session) (w : World) :
  usageWithRetry authPath s w
  = match firstFetch s w with
    | (Ok usagePayload, w1) => (Ok (usagePayload, s), w1)
    | (Throw err, w1) => retryAfter401 authPath s err w1
    end.
Proof.
  unfold usageWithRetry, try_catch, bind, ret.
  now destruct (firstFetch s w) as [[payload | err] w1].
Qed.






(** A session that refreshed ahead of the request and is answered 401
    all the same refreshes a second time. *)
Example refresh_ahead_then_after_401 :
  let w2 := snd (@collectUsageForAuth Demo.demo "/a.json" Demo.refreshedTwice) in
  count isTokenPost (trace w2) = 2%nat /\ count isUsageGet (trace w2) = 2%nat.
Proof. vm_compute. split; reflexivity. Qed.

Lemma readAuth_ok `{Platform} (path raw : string) (auth0 : json) (w : World) :
  files w !! path = Some raw -> fs_fail (envStep w) = None -> JSON_parse raw = Some auth0 ->
  readAuth path w
  = (Ok auth0, resume (clock w + Z.of_N (delay (envStep w))) [EvReadFile path] w).
Proof.
  intros Hfile Hfs Hparse. unfold readAuth, bind, fs_readFile.
  now rewrite Hfs, Hfile, Hparse.
Qed.

Lemma assembleResult_world `{Platform} (authPath : string) (payload : json) (s : Session)
    (w w' : World) (r : Result Usage) :
  assembleResult authPath payload s w = (r, w') -> w' = w.
Proof.
  unfold assembleResult, bind, lift, Date_now, ret.
  destruct (mapWindow _); [| now intros [= _ <-]].
  destruct (mapWindow _); now intros [= _ <-].
Qed.

(** C7: a bundle with a valid access token and no refresh token goes
    straight from the read of the bundle to the usage request, made with
    the access token of the bundle, whether or not that token is stale:
    the session attempts no refresh and raises nothing before the
    request.  These two are all the effects of the session. *)
Theorem stale_token_without_refresh_token `{Platform}
    (authPath raw : string) (auth0 : json) (access : string) (w : World) :
  files w !! authPath = Some raw ->
  fs_fail (envStep w) = None ->
  JSON_parse raw = Some auth0 ->
  prop_opt (prop auth0 "tokens") "access_token" = Some (JStr access) ->
  access <> EmptyString ->
  truthy_opt (prop_opt (prop auth0 "tokens") "refresh_token") = false ->
  quitBy (clock w + Z.of_N (delay (envStep w))) w = false ->
  exists s w1 r w2,
    sessionPrelude authPath w = (Ok s, w1)
    /\ s_auth s = auth0
    /\ s_tokens s = prop auth0 "tokens"
    /\ trace w1 = (trace w ++ [EvReadFile authPath])%list
    /\ collectUsageForAuth authPath w = (r, w2)
    /\ trace w2
       = (trace w ++ [EvReadFile authPath;
                      EvUsageGet (Some (JStr access)) (accountHeader (s_accountId s))])%list
    /\ count isTokenPost (trace w2) = count isTokenPost (trace w).
Proof.
  intros Hfile Hfs Hparse Haccess Hnonempty Hnorefresh Hquit.
  set (w1 := resume (clock w + Z.of_N (delay (envStep w))) [EvReadFile authPath] w).
  assert (Hab1 : aborted w1 = false) by exact Hquit.
  assert (Hab : aborted w = false).
  { unfold aborted. unfold quitBy in Hquit. destruct (quitAt w) as [q |]; [| reflexivity].
    apply Z.leb_gt in Hquit. apply Z.leb_gt. lia. }
  destruct (prop auth0 "tokens") as [tokens |] eqn:Htokens; [| discriminate].
  assert (Hobj : exists fields, tokens = JObj fields).
  { destruct tokens; try discriminate. eauto. }
  destruct Hobj as [fields ->].
  set (identity := decodeIdToken (prop_opt (Some (JObj fields)) "id_token")).
  set (accountId := js_or (prop_opt (Some (JObj fields)) "account_id")
                      (or_null (prop_opt (id_auth identity) "chatgpt_account_id"))).
  set (s := mkSession auth0 (Some (JObj fields)) identity accountId).
  assert (Hprelude : sessionPrelude authPath w = (Ok s, w1)).
  { unfold sessionPrelude.
    rewrite (bind_ok _ _ _ _ _ (ensureNotAborted_ok _ Hab)).
    rewrite (bind_ok _ _ _ _ _ (readAuth_ok _ _ _ _ Hfile Hfs Hparse)). fold w1.
    assert (Hvalid : validateTokenBundle (Some (JObj fields)) w1 = (Ok tt, w1)).
    { unfold validateTokenBundle. rewrite Haccess.
      destruct access; [congruence | reflexivity]. }
    destruct auth0; try discriminate.
    rewrite Htokens. simpl negb. cbv iota.
    rewrite Htokens, (bind_ok _ _ _ _ _ Hvalid).
    unfold bind at 1. unfold Date_now at 1.
    rewrite Hnorefresh, andb_false_r. reflexivity. }
  destruct (firstFetch s w1) as [rf wf] eqn:Hfirst.
  pose proof Hfirst as Hsent. rewrite firstFetch_run in Hsent.
  apply fetchUsage_trace in Hsent as [Hsent _]. specialize (Hsent Hab1).
  cbn [s_tokens s_accountId s] in Hsent. rewrite Haccess in Hsent.
  assert (Htrace : trace wf
                   = (trace w ++ [EvReadFile authPath;
                                  EvUsageGet (Some (JStr access)) (accountHeader accountId)])%list).
  { rewrite Hsent. unfold w1. simpl. now rewrite <- app_assoc. }
  assert (Hsession : exists r, collectUsageForAuth authPath w = (r, wf)).
  { unfold collectUsageForAuth.
    rewrite (bind_ok _ _ _ _ _ Hprelude).
    unfold bind at 1. rewrite usageWithRetry_run, Hfirst.
    destruct rf as [payload | err].
    - cbn [fst snd].
      destruct (assembleResult authPath payload s wf) as [r w3] eqn:Hres.
      apply assembleResult_world in Hres as ->. eauto.
    - unfold retryAfter401. cbn [s_tokens s]. rewrite Hnorefresh, andb_false_r.
      unfold throw. eauto. }
  destruct Hsession as [r Hsession].
  exists s, w1, r, wf. repeat split; auto.
  rewrite Htrace, count_app. unfold count. simpl. lia.
Qed.

Lemma stale_token_without_refresh_token_witness :
  @shouldRefreshNow Demo.demo (Some (JStr "h.exp100.s")) 1000001 = true
  /\ exists r w2,
       @collectUsageForAuth Demo.demo "/a.json" Demo.staleNoRefresh = (r, w2)
       /\ trace w2 = [EvReadFile "/a.json"; EvUsageGet (Some (JStr "h.exp100.s")) None].
Proof.
  split; [reflexivity |].
  destruct (@stale_token_without_refresh_token Demo.demo "/a.json" "STALE-NR"
              Demo.staleBundleNoRefresh "h.exp100.s" Demo.staleNoRefresh)
    as (s & w1 & r & w2 & Hpre & _ & _ & _ & Hrun & Htrace & _);
    try reflexivity; try discriminate.
  exists r, w2. split; [exact Hrun |].
  vm_compute in Hpre. injection Hpre as <- _. exact Htrace.
Defined.

(** ** The bundle of a session is an object *)

Lemma prop_some_object (v : json) (k : string) (x : json) :
  prop v k = Some x -> is_object v = true.
Proof. now destruct v. Qed.

Lemma validateTokenBundle_ok_inv (tokens : option json) (w w' : World) :
  validateTokenBundle tokens w = (Ok tt, w') ->
  w' = w
  /\ exists fields access,
       tokens = Some (JObj fields)
       /\ assoc "access_token" fields = Some (JStr access)
       /\ access <> EmptyString.
Proof.
  unfold validateTokenBundle.
  destruct (truthy_opt tokens); [| discriminate]. simpl negb. cbv iota.
  destruct (prop_opt tokens "access_token") as [[| | | access | |] |] eqn:Haccess;
    try discriminate.
  destruct access as [| a rest]; [discriminate |]. simpl. intros [= <-].
  split; [reflexivity |].
  destruct tokens as [[] |]; try discriminate. simpl in Haccess. eauto 6.
Qed.

Lemma storeRefreshed_shape `{Platform} (auth refreshed access auth' : json) (now : Z) :
  bundleShape auth ->
  storeRefreshed auth refreshed access now = Ok auth' ->
  bundleShape auth'.
Proof.
  intros [_ [fields Htokens]] Hstore.
  apply storeRefreshed_ok_inv in Hstore
    as (tokens0 & tokens' & _ & Htokens0 & Htok & Hstamp & _ & ->).
  split; [exact (prop_some_object _ _ _ Hstamp) |].
  rewrite Htok, Htokens0, Htokens. simpl.
  destruct (truthy_opt (prop refreshed "refresh_token"));
    destruct (truthy_opt (prop refreshed "id_token")); simpl; eauto.
Qed.

(** Whatever bundle a session goes on with, and hands to a refresh, is an
    object whose [tokens] is an object: the shape that the theorems on
    [refreshTokensAndPersist] assume. *)
Lemma sessionPrelude_shape `{Platform} (authPath : string) (w w' : World) (s : Session) :
  sessionPrelude authPath w = (Ok s, w') ->
  bundleShape (s_auth s) /\ s_tokens s = prop (s_auth s) "tokens".
Proof.
  unfold sessionPrelude. intros Hrun.
  apply bind_inv in Hrun as [([] & w0 & _ & Hrun) | (e & _ & He)]; [| discriminate].
  apply bind_inv in Hrun as [(auth0 & w1 & _ & Hrun) | (e & _ & He)]; [| discriminate].
  set (auth := if negb (truthy_opt (prop auth0 "tokens"))
               then set_prop auth0 "tokens" (JObj []) else auth0) in Hrun.
  assert (Hbody :
    (_ <- validateTokenBundle (prop auth "tokens") ;;
     now <- Date_now ;;
     if shouldRefreshNow (prop_opt (prop auth "tokens") "access_token") now
        && truthy_opt (prop_opt (prop auth "tokens") "refresh_token")
     then
       _ <- ensureNotAborted ;;
       auth' <- refreshTokensAndPersist authPath auth
                  (prop_opt (prop auth "tokens") "refresh_token") ;;
       ret (mkSession auth' (prop auth' "tokens")
              (decodeIdToken (prop_opt (prop auth "tokens") "id_token"))
              (js_or (prop_opt (prop auth "tokens") "account_id")
                 (or_null (prop_opt (id_auth (decodeIdToken
                                                (prop_opt (prop auth "tokens") "id_token")))
                             "chatgpt_account_id"))))
     else
       ret (mkSession auth (prop auth "tokens")
              (decodeIdToken (prop_opt (prop auth "tokens") "id_token"))
              (js_or (prop_opt (prop auth "tokens") "account_id")
                 (or_null (prop_opt (id_auth (decodeIdToken
                                                (prop_opt (prop auth "tokens") "id_token")))
                             "chatgpt_account_id"))))) w1 = (Ok s, w')).
  { destruct auth0; try exact Hrun. discriminate. }
  clear Hrun.
  apply bind_inv in Hbody as [([] & w2 & Hvalid & Hrun) | (e & _ & He)]; [| discriminate].
  apply validateTokenBundle_ok_inv in Hvalid as (-> & fields & access & Htokens & _ & _).
  assert (Hshape : bundleShape auth).
  { split; [exact (prop_some_object _ _ _ Htokens) | eauto]. }
  apply bind_inv in Hrun as [(now & w2 & Hnow & Hrun) | (e & _ & He)]; [| discriminate].
  injection Hnow as <- <-.
  destruct (shouldRefreshNow _ _ && truthy_opt _).
  - apply bind_inv in Hrun as [([] & w2 & _ & Hrun) | (e & _ & He)]; [| discriminate].
    apply bind_inv in Hrun as [(auth' & w3 & Hrefresh & Hrun) | (e & _ & He)];
      [| discriminate].
    injection Hrun as <- _. simpl.
    apply refreshTokensAndPersist_ok_inv in Hrefresh
      as (st & stt & body & refreshed & acc & _ & _ & _ & _ & _ & _ & Hstore & _).
    split; [exact (storeRefreshed_shape _ _ _ _ _ Hshape Hstore) | reflexivity].
  - injection Hrun as <- _. simpl. split; [exact Hshape | reflexivity].
Qed.

(** [JSON.stringify(_, null, 2)] on a small bundle: one member per line,
    two spaces per level, no space in an empty object. *)
Example stringify_pretty :
  @JSON_stringify_2 (Demo.platform [])
    (JObj [("tokens", JObj [("n", JNum (inject_Z 7))]); ("x", JObj []); ("y", JArr [JNull])])
  = "{" ++ newline
    ++ "  " ++ JSON_quote "tokens" ++ ": {" ++ newline
    ++ "    " ++ JSON_quote "n" ++ ": 7" ++ newline
    ++ "  }," ++ newline
    ++ "  " ++ JSON_quote "x" ++ ": {}," ++ newline
    ++ "  " ++ JSON_quote "y" ++ ": [" ++ newline
    ++ "    null" ++ newline
    ++ "  ]" ++ newline
    ++ "}".
Proof. vm_compute. reflexivity. Qed.

(** ** Tail loop *)

Lemma renderStep_ok (renderOnce : M (list AccountResult)) (w w' : World) (t : Z) :
  renderStep renderOnce w = (Ok t, w') -> t = clock w'.
Proof.
  unfold renderStep. intros Hrun.
  apply bind_inv in Hrun as [(results & w1 & _ & Hrun) | (e & _ & He)]; [| discriminate].
  apply bind_inv in Hrun as [([] & w2 & _ & Hrun) | (e & _ & He)]; [| discriminate].
  now injection Hrun as <- <-.
Qed.

(** One turn of the loop: when it starts a pass and when it waits. *)
Lemma tailIteration_spec (renderOnce : M (list AccountResult)) (lastRenderAt : Z)
    (w w' : World) (it : Iteration) (lastRenderAt' : Z) :
  tailIteration renderOnce lastRenderAt w = (it, lastRenderAt', w') ->
  it_now it = clock w
  /\ it_due it = isDue lastRenderAt (clock w)
  /\ (it_due it = true ->
      it_waitDuration it = 0
      /\ (w' = snd (renderStep renderOnce w)
          \/ exists message, w' = log (EvConsoleError message) (snd (renderStep renderOnce w))))
  /\ (it_due it = false ->
      it_waitDuration it = waitDuration lastRenderAt (clock w)
      /\ w' = resume (it_end it) [] w
      /\ (it_kind it = Tick \/ it_kind it = Quit))
  /\ lastRenderAt' = match it_kind it with Rendered => it_end it | _ => lastRenderAt end.
Proof.
  unfold tailIteration. destruct (isDue lastRenderAt (clock w)) eqn:Hdue.
  - destruct (renderStep renderOnce w) as [r wp] eqn:Hpass. cbn [snd].
    destruct (quitBy (clock wp) w).
    + intros [= <- <- <-]. simpl. repeat split; auto; discriminate.
    + destruct r as [t | error].
      * intros [= <- <- <-]. simpl. apply renderStep_ok in Hpass.
        repeat split; auto; discriminate.
      * destruct (isAbortError error); intros [= <- <- <-]; simpl;
          repeat split; eauto; discriminate.
  - destruct (quitBy _ w); intros [= <- <- <-]; simpl; repeat split; auto; discriminate.
Qed.

Lemma lastCompleted_cons (lastRenderAt : Z) (it : Iteration) (its : list Iteration) :
  lastCompleted lastRenderAt (it :: its)
  = lastCompleted (match it_kind it with Rendered => it_end it | _ => lastRenderAt end) its.
Proof. reflexivity. Qed.

(** In a run of the loop every turn decides from the completion time of
    the last rendered pass before it. *)
Lemma runTailLoop_turns (renderOnce : M (list AccountResult)) (fuel : nat) :
  forall (lastRenderAt : Z) (w w' : World) (its : list Iteration) (r : Result LoopEnd),
    runTailLoop fuel renderOnce lastRenderAt w = (its, r, w') ->
    forall pre it post,
      its = (pre ++ it :: post)%list ->
      let last := lastCompleted lastRenderAt pre in
      it_due it = isDue last (it_now it)
      /\ (it_due it = false -> it_waitDuration it = waitDuration last (it_now it)).
Proof.
  induction fuel as [| fuel IH]; intros lastRenderAt w w' its r Hrun pre it post Hsplit.
  - injection Hrun as <- _ _. now destruct pre.
  - simpl in Hrun.
    destruct (tailIteration renderOnce lastRenderAt w) as [[it0 last'] w1] eqn:Hturn.
    destruct (tailIteration_spec _ _ _ _ _ _ Hturn) as (Hnow & Hdue & _ & Hwait & Hlast).
    assert (Hhead : it_due it0 = isDue lastRenderAt (it_now it0)
                    /\ (it_due it0 = false ->
                        it_waitDuration it0 = waitDuration lastRenderAt (it_now it0))).
    { rewrite Hnow. split; [exact Hdue | intros Hnot; now apply Hwait]. }
    destruct (runTailLoop fuel renderOnce last' w1) as [[its1 r1] w2] eqn:Hrest.
    assert (Hcases : (its = [it0]) \/ (its = it0 :: its1)).
    { destruct (it_kind it0); injection Hrun as <- _ _; auto. }
    destruct pre as [| it1 pre].
    + simpl in Hsplit. assert (it = it0) as ->.
      { destruct Hcases as [-> | ->]; now injection Hsplit. }
      exact Hhead.
    + destruct Hcases as [-> | ->].
      * injection Hsplit as _ Hnil. now destruct pre.
      * injection Hsplit as <- Hsplit.
        rewrite lastCompleted_cons, <- Hlast.
        exact (IH _ _ _ _ _ Hrest _ _ _ Hsplit).
Qed.

Lemma isDue_remaining (lastRenderAt now : Z) :
  lastRenderAt <> 0 ->
  (isDue lastRenderAt now = true <-> remainingWait lastRenderAt now = 0).
Proof.
  intros Hne. unfold isDue, remainingWait, REFRESH_INTERVAL_MS.
  destruct (Z.eqb_spec lastRenderAt 0) as [Heq | _]; [contradiction |]. simpl.
  rewrite Z.leb_le. lia.
Qed.

Lemma tailIteration_rendered (renderOnce : M (list AccountResult)) (lastRenderAt : Z)
    (w w' : World) (it : Iteration) (lastRenderAt' : Z) :
  tailIteration renderOnce lastRenderAt w = (it, lastRenderAt', w') ->
  it_kind it = Rendered ->
  it_due it = true /\ it_end it = clock w' /\ w' = snd (renderStep renderOnce w).
Proof.
  unfold tailIteration. destruct (isDue lastRenderAt (clock w)).
  - destruct (renderStep renderOnce w) as [r wp]. cbn [snd].
    destruct (quitBy (clock wp) w); [intros [= <- _ _]; discriminate |].
    destruct r as [t | error]; [now intros [= <- _ <-] |].
    destruct (isAbortError error); intros [= <- _ _]; discriminate.
  - destruct (quitBy _ w); intros [= <- _ _]; discriminate.
Qed.

(** C3 (as amended): the cadence of 30 seconds runs from the completion
    of the last rendered pass to the start of the next pass.  In every
    run, a turn of the loop whose clock reads [now] starts a pass exactly
    when no pass has completed yet or the remaining wait
    [max(0, 30000 - (now - last))] is zero, [last] being the completion
    time of the last rendered pass; otherwise it sets a timer of
    [min(500, remaining wait)].  A turn that starts a pass runs it from
    the world at the head of the turn, with no wait before it; a turn
    that waits has no other effect than its timer; and the time the loop
    keeps in [lastRenderAt] is the clock at the end of a rendered pass. *)
Theorem tail_cadence_from_completion (renderOnce : M (list AccountResult)) :
  (forall (fuel : nat) (lastRenderAt : Z) (w w' : World) (its : list Iteration)
          (r : Result LoopEnd),
     runTailLoop fuel renderOnce lastRenderAt w = (its, r, w') ->
     forall pre it post,
       its = (pre ++ it :: post)%list ->
       let last := lastCompleted lastRenderAt pre in
       let remaining := Z.max 0 (REFRESH_INTERVAL_MS - (it_now it - last)) in
       (it_due it = true <-> last = 0 \/ remaining = 0)
       /\ (it_due it = true -> last = 0 \/ last + REFRESH_INTERVAL_MS <= it_now it)
       /\ (it_due it = false ->
           it_waitDuration it = Z.min POLL_INTERVAL_MS remaining
           /\ 0 < remaining
           /\ it_now it < last + REFRESH_INTERVAL_MS))
  /\ (forall (lastRenderAt lastRenderAt' : Z) (w w' : World) (it : Iteration),
        tailIteration renderOnce lastRenderAt w = (it, lastRenderAt', w') ->
        it_now it = clock w
        /\ (it_due it = true ->
            w' = snd (renderStep renderOnce w)
            \/ exists message,
                w' = log (EvConsoleError message) (snd (renderStep renderOnce w)))
        /\ (it_due it = false -> w' = resume (it_end it) [] w)
        /\ (it_kind it = Rendered ->
            it_due it = true /\ lastRenderAt' = it_end it /\ it_end it = clock w')
        /\ (it_kind it <> Rendered -> lastRenderAt' = lastRenderAt)).
Proof.
  split.
  - intros fuel lastRenderAt w w' its r Hrun pre it post Hsplit last remaining.
    destruct (runTailLoop_turns _ _ _ _ _ _ _ Hrun _ _ _ Hsplit) as [Hdue Hwait].
    fold last in Hdue, Hwait.
    assert (Hiff : it_due it = true <-> last = 0 \/ remaining = 0).
    { rewrite Hdue. destruct (Z.eq_dec last 0) as [Hzero | Hne].
      - rewrite Hzero. unfold isDue. simpl. tauto.
      - rewrite (isDue_remaining _ _ Hne). unfold remainingWait. fold remaining. tauto. }
    split; [exact Hiff | split].
    + intros Hd. apply Hiff in Hd as [Hzero | Hrem]; [now left | right].
      unfold remaining, REFRESH_INTERVAL_MS in *. lia.
    + intros Hnot. split; [exact (Hwait Hnot) |].
      assert (Hnd : ~ (last = 0 \/ remaining = 0)).
      { intros Hd. apply Hiff in Hd. congruence. }
      unfold remaining, REFRESH_INTERVAL_MS in *. lia.
  - intros lastRenderAt lastRenderAt' w w' it Hturn.
    destruct (tailIteration_spec _ _ _ _ _ _ Hturn) as (Hnow & _ & Hpass & Hwait & Hlast).
    split; [exact Hnow | split; [| split; [| split]]].
    + intros Hd. exact (proj2 (Hpass Hd)).
    + intros Hd. exact (proj1 (proj2 (Hwait Hd))).
    + intros Hkind. destruct (tailIteration_rendered _ _ _ _ _ _ Hturn Hkind) as (Hd & Hend & _).
      rewrite Hkind in Hlast. auto.
    + intros Hkind. rewrite Hlast. destruct (it_kind it); congruence.
Qed.

Lemma tail_cadence_from_completion_witness :
  let its := fst (fst (runTailLoop 70 (@renderOnce Demo.demo ["/a.json"]) 0 Demo.slowPass)) in
  passStarts its = [1000000; 1035000]
  /\ exists pre it post,
       its = (pre ++ it :: post)%list
       /\ lastCompleted 0 pre = 1005000
       /\ it_now it = 1035000
       /\ it_due it = true
       /\ (lastCompleted 0 pre = 0 \/ lastCompleted 0 pre + REFRESH_INTERVAL_MS <= it_now it).
Proof.
  intros its. split; [vm_compute; reflexivity |].
  destruct (runTailLoop 70 (@renderOnce Demo.demo ["/a.json"]) 0 Demo.slowPass)
    as [[its' r] w'] eqn:Hrun.
  pose proof (proj1 (tail_cadence_from_completion _) _ _ _ _ _ _ Hrun
                (firstn 61 its') (nth 61 its' (mkIteration 0 false 0 0 Quit)) (skipn 62 its'))
    as Hturn.
  exists (firstn 61 its'), (nth 61 its' (mkIteration 0 false 0 0 Quit)), (skipn 62 its').
  subst its. vm_compute in Hrun. injection Hrun as <- _ _.
  destruct (Hturn eq_refl) as (_ & Hdue & _).
  split; [reflexivity | split; [reflexivity | split; [reflexivity | split; [reflexivity |]]]].
  apply Hdue. reflexivity.
Defined.

(** The claim C3 as the specification states it measures the 30 seconds
    between the starts of successive passes.  In [Demo.slowPass] the
    first pass starts at 1000000 and takes 5 seconds; the turn at 1030000,
    30 seconds after that start, still waits, and the second pass starts
    at 1035000. *)
Lemma cadence_between_starts_counterexample :
  ~ (forall (renderOnce : M (list AccountResult)) (fuel : nat) (w w' : World)
            (its : list Iteration) (r : Result LoopEnd),
       runTailLoop fuel renderOnce 0 w = (its, r, w') ->
       forall pre it post,
         its = (pre ++ it :: post)%list ->
         let last := lastStarted 0 pre in
         it_due it = true
         <-> last = 0 \/ Z.max 0 (REFRESH_INTERVAL_MS - (it_now it - last)) = 0).
Proof.
  intros Hclaim.
  destruct (runTailLoop 70 (@renderOnce Demo.demo ["/a.json"]) 0 Demo.slowPass)
    as [[its r] w'] eqn:Hrun.
  specialize (Hclaim _ _ _ _ _ _ Hrun (firstn 51 its) (nth 51 its (mkIteration 0 true 0 0 Quit))
                (skipn 52 its)).
  vm_compute in Hrun. injection Hrun as <- _ _.
  specialize (Hclaim eq_refl).
  destruct Hclaim as [_ Hdue]. 
  assert (Hfalse : false = true) by (apply Hdue; right; vm_compute; reflexivity).
  discriminate.
Qed.

Lemma waitDuration_bounds (lastRenderAt now : Z) :
  isDue lastRenderAt now = false ->
  0 < waitDuration lastRenderAt now <= POLL_INTERVAL_MS.
Proof.
  unfold isDue, waitDuration, remainingWait, POLL_INTERVAL_MS, REFRESH_INTERVAL_MS.
  intros Hdue. apply orb_false_iff in Hdue as [_ Hlt]. apply Z.leb_gt in Hlt. lia.
Qed.

Lemma runTailLoop_returns (renderOnce : M (list AccountResult)) (fuel : nat) :
  forall (lastRenderAt : Z) (w : World),
  exists its how w', runTailLoop fuel renderOnce lastRenderAt w = (its, Ok how, w').
Proof.
  induction fuel as [| fuel IH]; intros lastRenderAt w; simpl.
  - eauto.
  - destruct (tailIteration renderOnce lastRenderAt w) as [[it last'] w1].
    destruct (IH last' w1) as (its & how & w' & Hrest). rewrite Hrest.
    destruct (it_kind it); eauto.
Qed.

(** C6: a turn of the loop that waits sets one timer, of
    [min(500, remaining)] ms, more than 0 and never more than 500 however
    much of the 30 seconds remains, and races it against the quit; it
    touches nothing else.  If the quit comes no later than the timer
    fires, the turn ends at the time of the quit (at once if the quit came
    before the turn began), within 500 ms of the start of the wait when
    the quit came within the time set, and the loop returns there.
    Otherwise the turn is a tick: it ends when the timer fires, and the
    loop goes round again from there, reading the clock and racing the
    quit anew.  In every run every wait is of that kind, a wait that ends
    in a quit is the last turn, and the loop never raises: its promise is
    fulfilled, not rejected. *)
Theorem tail_wait_is_cancellable (renderOnce : M (list AccountResult)) (lastRenderAt : Z)
    (w : World) :
  (isDue lastRenderAt (clock w) = false ->
   let timer := Z.min POLL_INTERVAL_MS (REFRESH_INTERVAL_MS - (clock w - lastRenderAt)) in
   let fire := clock w + timer + Z.of_N (delay (envStep w)) in
   exists it w',
     tailIteration renderOnce lastRenderAt w = (it, lastRenderAt, w')
     /\ it_now it = clock w
     /\ it_due it = false
     /\ it_waitDuration it = timer
     /\ 0 < it_waitDuration it <= POLL_INTERVAL_MS
     /\ trace w' = trace w /\ files w' = files w /\ clock w' = it_end it
     /\ (forall q,
           quitAt w = Some q -> q <= fire ->
           it_kind it = Quit
           /\ it_end it = Z.max (clock w) q
           /\ (q <= clock w + it_waitDuration it -> it_end it - clock w <= POLL_INTERVAL_MS)
           /\ forall fuel,
                runTailLoop (S fuel) renderOnce lastRenderAt w = ([it], Ok Returned, w'))
     /\ ((forall q, quitAt w = Some q -> fire < q) ->
         it_kind it = Tick
         /\ it_end it = fire
         /\ forall fuel,
              runTailLoop (S fuel) renderOnce lastRenderAt w
              = let '(its, r, w'') := runTailLoop fuel renderOnce lastRenderAt w' in
                (it :: its, r, w'')))
  /\ (forall fuel its r w',
        runTailLoop fuel renderOnce lastRenderAt w = (its, r, w') ->
        (exists how, r = Ok how)
        /\ Forall (fun it => 0 <= it_waitDuration it <= POLL_INTERVAL_MS) its
        /\ forall pre it post,
             its = (pre ++ it :: post)%list -> it_due it = false ->
             0 < it_waitDuration it
             /\ (it_kind it = Tick /\ it_now it + it_waitDuration it <= it_end it
                 \/ it_kind it = Quit /\ post = [] /\ r = Ok Returned)).
Proof.
  split.
  - intros Hdue timer fire.
    destruct (tailIteration renderOnce lastRenderAt w) as [[it last'] w'] eqn:Hturn.
    pose proof (waitDuration_bounds _ _ Hdue) as Hbound.
    assert (Htimer : waitDuration lastRenderAt (clock w) = timer).
    { subst timer. unfold waitDuration, remainingWait.
      unfold isDue in Hdue. apply orb_false_iff in Hdue as [_ Hlt].
      apply Z.leb_gt in Hlt. unfold REFRESH_INTERVAL_MS, POLL_INTERVAL_MS in *. lia. }
    unfold tailIteration in Hturn. rewrite Hdue in Hturn.
    fold (waitDuration lastRenderAt (clock w)) in Hturn.
    rewrite Htimer in Hturn, Hbound. fold fire in Hturn.
    destruct (quitBy fire w) eqn:Hquit;
      injection Hturn as <- <- <-; eexists _, _; (split; [reflexivity |]);
      cbn [it_now it_due it_waitDuration it_end it_kind resume trace files clock];
      (split; [reflexivity |]); (split; [reflexivity |]); (split; [reflexivity |]);
      (split; [exact Hbound |]); (split; [apply app_nil_r |]);
      (split; [reflexivity |]); (split; [reflexivity |]).
    + split.
      * intros q Hq Hle. unfold quitTime. rewrite Hq.
        split; [reflexivity |]. split; [reflexivity |]. split; [lia |].
        intros fuel. simpl. unfold tailIteration. rewrite Hdue.
        fold (waitDuration lastRenderAt (clock w)). rewrite Htimer. fold fire.
        rewrite Hquit. unfold quitTime. rewrite Hq. reflexivity.
      * intros Hlate. exfalso. unfold quitBy in Hquit.
        destruct (quitAt w) as [q |]; [| discriminate].
        apply Z.leb_le in Hquit. specialize (Hlate q eq_refl). lia.
    + split.
      * intros q Hq Hle. exfalso. unfold quitBy in Hquit. rewrite Hq in Hquit.
        apply Z.leb_gt in Hquit. lia.
      * intros _. split; [reflexivity |]. split; [reflexivity |].
        intros fuel. cbn [runTailLoop]. unfold tailIteration. rewrite Hdue.
        fold (waitDuration lastRenderAt (clock w)). rewrite Htimer. fold fire.
        rewrite Hquit. cbn [it_kind]. reflexivity.
  - intros fuel. revert lastRenderAt w.
    induction fuel as [| fuel IH]; intros lastRenderAt w its r w' Hrun.
    + injection Hrun as <- <- _. split; [eauto |]. split; [constructor |].
      intros pre it post Hsplit. now destruct pre.
    + simpl in Hrun.
      destruct (tailIteration renderOnce lastRenderAt w) as [[it last'] w1] eqn:Hturn.
      destruct (tailIteration_spec _ _ _ _ _ _ Hturn) as (Hnow & Hd & Hpass & Hwait & _).
      assert (Hit : 0 <= it_waitDuration it <= POLL_INTERVAL_MS).
      { destruct (it_due it) eqn:Hdue.
        - destruct (Hpass eq_refl) as [-> _]. unfold POLL_INTERVAL_MS. lia.
        - destruct (Hwait eq_refl) as [-> _].
          pose proof (waitDuration_bounds lastRenderAt (clock w) (eq_sym Hd)). lia. }
      assert (Hhead : it_due it = false ->
                0 < it_waitDuration it
                /\ (it_kind it = Tick /\ it_now it + it_waitDuration it <= it_end it
                    \/ it_kind it = Quit)).
      { intros Hdue. rewrite Hdue in Hd.
        pose proof (waitDuration_bounds lastRenderAt (clock w) (eq_sym Hd)) as Hbound.
        destruct (Hwait Hdue) as (Hw & _ & _). rewrite Hw. split; [lia |].
        revert Hturn. unfold tailIteration. rewrite <- Hd.
        fold (waitDuration lastRenderAt (clock w)).
        pose proof (N2Z.is_nonneg (delay (envStep w))) as Hdelay.
        destruct (quitBy _ w); intros [= <- _ _]; cbn; [now right | left].
        split; [reflexivity | lia]. }
      destruct (runTailLoop fuel renderOnce last' w1) as [[its1 r1] w2] eqn:Hrest.
      destruct (IH _ _ _ _ _ Hrest) as (Hok & Hall & Hturns).
      destruct (it_kind it) eqn:Hkind; injection Hrun as <- <- _;
        (split; [eauto |]);
        (split; [constructor; [exact Hit | first [exact Hall | constructor]] |]);
        intros pre it' post Hsplit Hdue'.
      * destruct pre as [| it0 pre]; injection Hsplit as <- Hsplit.
        -- destruct (Hhead Hdue') as [Hpos [[Htick _] | Hquit]]; congruence.
        -- destruct (Hturns _ _ _ Hsplit Hdue') as [Hpos Hcase]. now split.
      * destruct pre as [| it0 pre]; injection Hsplit as <- Hsplit.
        -- destruct (Hhead Hdue') as [Hpos [Htick | Hquit]]; [| congruence].
           split; [exact Hpos | now left].
        -- destruct (Hturns _ _ _ Hsplit Hdue') as [Hpos Hcase]. now split.
      * destruct pre as [| it0 pre]; injection Hsplit as <- Hsplit.
        -- destruct (Hhead Hdue') as [Hpos _]. split; [exact Hpos |].
           right. subst post. auto.
        -- now destruct pre.
      * destruct pre as [| it0 pre]; injection Hsplit as <- Hsplit.
        -- destruct (Hhead Hdue') as [Hpos [[Htick _] | Hquit]]; congruence.
        -- now destruct pre.
Qed.

Lemma tail_wait_is_cancellable_witness :
  let w := mkWorld 1010000 (Some 1010200) ∅ (fun _ => Demo.quiet) 0 [] in
  let patient := mkWorld 1010000 None ∅ (fun _ => Demo.quiet) 0 [] in
  (exists it w',
      runTailLoop 5 (@renderOnce Demo.demo ["/a.json"]) 1005000 w = ([it], Ok Returned, w')
      /\ it_kind it = Quit
      /\ it_end it = 1010200)
  /\ (exists it its w' w'',
        runTailLoop 2 (@renderOnce Demo.demo ["/a.json"]) 1005000 patient
        = (it :: its, Ok StillRunning, w'')
        /\ runTailLoop 1 (@renderOnce Demo.demo ["/a.json"]) 1005000 w'
           = (its, Ok StillRunning, w'')
        /\ it_kind it = Tick /\ it_waitDuration it = 500 /\ clock w' = 1010500).
Proof.
  intros w patient. split.
  - destruct (tail_wait_is_cancellable (@renderOnce Demo.demo ["/a.json"]) 1005000 w)
      as [Hwait _].
    destruct (Hwait eq_refl) as (it & w' & Hturn & _ & _ & _ & _ & _ & _ & _ & Hquit & _).
    destruct (Hquit 1010200 eq_refl) as (Hkind & Hend & _ & Hloop).
    + vm_compute. discriminate.
    + exists it, w'. split; [apply Hloop | split; [exact Hkind | exact Hend]].
  - destruct (tail_wait_is_cancellable (@renderOnce Demo.demo ["/a.json"]) 1005000 patient)
      as [Hwait _].
    destruct (Hwait eq_refl)
      as (it & w' & Hturn & _ & _ & Htimer & _ & _ & _ & Hclock & _ & Htick).
    destruct Htick as (Hkind & Hend & Hloop); [intros q [=] |].
    destruct (runTailLoop 1 (@renderOnce Demo.demo ["/a.json"]) 1005000 w')
      as [[its r] w''] eqn:Hrest.
    specialize (Hloop 1%nat). rewrite Hrest in Hloop.
    assert (Hr : r = Ok StillRunning).
    { vm_compute in Hturn. injection Hturn as <- <-. vm_compute in Hrest.
      now injection Hrest as _ <- _. }
    subst r. exists it, its, w', w''.
    split; [exact Hloop |]. split; [exact Hrest |]. split; [exact Hkind |].
    split; [exact Htimer |]. rewrite Hclock, Hend. reflexivity.
Defined.

(** * Further properties *)

(** ** Token codec *)

Lemma split_on_no_separator (c : ascii) (s : string) :
  has_char c s = false -> split_on c s = [s].
Proof.
  induction s as [| a rest IH]; simpl; [reflexivity |].
  intros Hno. apply orb_false_iff in Hno as [Ha Hrest].
  now rewrite Ha, (IH Hrest).
Qed.

Lemma split_on_nonempty (c : ascii) (s : string) : split_on c s <> [].
Proof.
  destruct s as [| a rest]; simpl; [discriminate |].
  destruct (Ascii.eqb a c); [discriminate |]. now destruct (split_on c rest).
Qed.

(** The model of [split] loses nothing: joining the segments with the
    separator gives the string back. *)
Lemma split_on_join (c : ascii) (s : string) :
  join (String c EmptyString) (split_on c s) = s.
Proof.
  induction s as [| a rest IH]; simpl; [reflexivity |].
  pose proof (split_on_nonempty c rest) as Hne.
  destruct (split_on c rest) as [| h t]; [contradiction |].
  destruct (Ascii.eqb_spec a c) as [-> | Hac].
  - simpl. now rewrite <- IH.
  - destruct t as [| h' t']; simpl in *; now rewrite <- IH.
Qed.

(** X1: a token that is no string, or a string without a dot (fewer than
    two segments), decodes to [null] and to the empty identity without
    raising, whatever [JSON.parse] and the base64 decoder do, and is never
    taken for expired. *)
Theorem short_token_decodes_to_nothing `{Platform} (token : option json) (now_ms : Z) :
  match token with
  | Some (JStr t) => has_char "." t = false
  | _ => True
  end ->
  decodeJwtPayload token = Ok JNull
  /\ decodeIdToken token = emptyIdentity
  /\ shouldRefreshNow token now_ms = false.
Proof.
  intros Hshort.
  assert (Hpayload : decodeJwtPayload token = Ok JNull).
  { unfold decodeJwtPayload. destruct token as [[| | | t | |] |]; try reflexivity.
    now rewrite (split_on_no_separator _ _ Hshort). }
  split; [exact Hpayload | split].
  - unfold decodeIdToken. destruct token as [[| | | t | |] |]; try reflexivity.
    now rewrite (split_on_no_separator _ _ Hshort).
  - unfold shouldRefreshNow. now rewrite Hpayload.
Qed.

Lemma short_token_decodes_to_nothing_witness :
  @decodeJwtPayload Demo.demo (Some (JStr "exp100==")) = Ok JNull
  /\ @decodeIdToken Demo.demo (Some (JStr "exp100==")) = emptyIdentity
  /\ @shouldRefreshNow Demo.demo (Some (JStr "exp100==")) 1000000 = false.
Proof.
  apply (@short_token_decodes_to_nothing Demo.demo (Some (JStr "exp100==")) 1000000).
  reflexivity.
Defined.

Lemma length_append (s1 s2 : string) :
  String.length (s1 ++ s2) = (String.length s1 + String.length s2)%nat.
Proof. induction s1 as [| a s1 IH]; simpl; [reflexivity | now rewrite IH]. Qed.

Lemma length_repeat_string (s : string) (n : nat) :
  String.length (repeat_string s n) = (n * String.length s)%nat.
Proof.
  induction n as [| n IH]; simpl; [reflexivity |]. now rewrite length_append, IH.
Qed.

Lemma length_map_chars (f : ascii -> ascii) (s : string) :
  String.length (map_chars f s) = String.length s.
Proof. induction s as [| a s IH]; simpl; [reflexivity | now rewrite IH]. Qed.

Lemma map_chars_append (f : ascii -> ascii) (s1 s2 : string) :
  map_chars f (s1 ++ s2) = map_chars f s1 ++ map_chars f s2.
Proof. induction s1 as [| a s1 IH]; simpl; [reflexivity | now rewrite IH]. Qed.

Lemma base64url_char_idem (a : ascii) : base64url_char (base64url_char a) = base64url_char a.
Proof.
  unfold base64url_char.
  destruct (Ascii.eqb_spec a "-") as [-> | H1]; [reflexivity |].
  destruct (Ascii.eqb_spec a "_") as [-> | H2]; [reflexivity |].
  destruct (Ascii.eqb_spec a "-"); [contradiction |].
  destruct (Ascii.eqb_spec a "_"); [contradiction | reflexivity].
Qed.

Lemma base64url_char_plain (c a : ascii) :
  c = "-"%char \/ c = "_"%char -> Ascii.eqb (base64url_char a) c = false.
Proof.
  intros Hc. unfold base64url_char.
  destruct (Ascii.eqb_spec a "-") as [-> | H1]; [destruct Hc as [-> | ->]; reflexivity |].
  destruct (Ascii.eqb_spec a "_") as [-> | H2]; [destruct Hc as [-> | ->]; reflexivity |].
  apply Ascii.eqb_neq. destruct Hc as [-> | ->]; assumption.
Qed.

Lemma map_chars_no_url_char (c : ascii) (s : string) :
  c = "-"%char \/ c = "_"%char -> has_char c (map_chars base64url_char s) = false.
Proof.
  intros Hc. induction s as [| a s IH]; simpl; [reflexivity |].
  now rewrite (base64url_char_plain c a Hc), IH.
Qed.

Lemma map_chars_idem (s : string) :
  map_chars base64url_char (map_chars base64url_char s) = map_chars base64url_char s.
Proof.
  induction s as [| a s IH]; simpl; [reflexivity |]. now rewrite base64url_char_idem, IH.
Qed.

Lemma append_empty_r (s : string) : s ++ EmptyString = s.
Proof.
  induction s as [| a s IH]; [reflexivity |].
  change (String a s ++ EmptyString) with (String a (s ++ EmptyString)). now f_equal.
Qed.

(** X2: what [base64UrlDecode] hands to the base64 decoder has a length
    that is a multiple of 4, reached with at most three [=] after the
    segment, holds no [-] and no [_], and is left as it is when
    normalised again. *)
Theorem base64UrlNormalize_padded (segment : string) :
  let normalized := base64UrlNormalize segment in
  (Z.of_nat (String.length normalized) mod 4 = 0)
  /\ (exists pad, (pad <= 3)%nat
                  /\ normalized = map_chars base64url_char segment ++ repeat_string "=" pad)
  /\ has_char "-" normalized = false
  /\ has_char "_" normalized = false
  /\ base64UrlNormalize normalized = normalized.
Proof.
  intros normalized.
  set (n := Z.of_nat (String.length segment)).
  set (pad := Z.to_nat ((4 - n mod 4) mod 4)).
  assert (Hpad : (0 <= (4 - n mod 4) mod 4 < 4)) by (apply Z.mod_pos_bound; lia).
  assert (Hnorm : normalized
                  = map_chars base64url_char segment ++ map_chars base64url_char
                                                            (repeat_string "=" pad)).
  { unfold normalized, base64UrlNormalize. fold n. fold pad. apply map_chars_append. }
  assert (Heq : map_chars base64url_char (repeat_string "=" pad) = repeat_string "=" pad).
  { clear. induction pad as [| p IH]; cbn [repeat_string]; [reflexivity |].
    now rewrite map_chars_append, IH. }
  rewrite Heq in Hnorm.
  assert (Hlen : Z.of_nat (String.length normalized) mod 4 = 0).
  { rewrite Hnorm, length_append, length_map_chars, length_repeat_string. simpl String.length.
    rewrite Nat2Z.inj_add, Nat2Z.inj_mul. fold n. unfold pad.
    rewrite Z2Nat.id by lia. change (Z.of_nat 1) with 1. rewrite Z.mul_1_r.
    pose proof (Z.mod_pos_bound n 4 ltac:(lia)) as Hn.
    pose proof (Z.div_mod n 4 ltac:(lia)) as Hdm.
    destruct (Z.eq_dec (n mod 4) 0) as [H0 | Hne].
    - rewrite H0. change ((4 - 0) mod 4) with 0. now rewrite Z.add_0_r.
    - rewrite (Z.mod_small (4 - n mod 4) 4) by lia.
      replace (n + (4 - n mod 4)) with ((n / 4 + 1) * 4) by lia.
      apply Z.mod_mul. lia. }
  split; [exact Hlen | split; [| split; [| split]]].
  - exists pad. split; [unfold pad; lia | exact Hnorm].
  - unfold normalized, base64UrlNormalize. apply map_chars_no_url_char. now left.
  - unfold normalized, base64UrlNormalize. apply map_chars_no_url_char. now right.
  - unfold base64UrlNormalize at 1. rewrite Hlen.
    change (Z.to_nat ((4 - 0) mod 4)) with 0%nat. cbn [repeat_string].
    rewrite append_empty_r. unfold normalized, base64UrlNormalize. apply map_chars_idem.
Qed.

(** ** Rate windows *)

Lemma isoOfSeconds_run `{Platform} (v : json) :
  isoOfSeconds v
  = match ToNumber v with
    | Some secs =>
        if validTime (secs * inject_Z 1000)
        then Ok (Date_toISOString (Qtrunc (secs * inject_Z 1000)))
        else Throw (mkError "RangeError" "Invalid time value" None None)
    | None => Throw (mkError "RangeError" "Invalid time value" None None)
    end.
Proof. reflexivity. Qed.

(** How [mapWindow] ends on a truthy window, by its reset field. *)
Lemma mapWindow_run `{Platform} (win : json) :
  truthy win = true ->
  exists info : option string -> WindowInfo,
    (forall resetsAt, win_resetsAt (info resetsAt) = resetsAt)
    /\ (forall resetsAt, win_raw (info resetsAt) = win)
    /\ (forall r1 r2, win_percentUsed (info r1) = win_percentUsed (info r2)
                      /\ win_percentRemaining (info r1) = win_percentRemaining (info r2)
                      /\ win_windowMinutes (info r1) = win_windowMinutes (info r2)
                      /\ win_label (info r1) = win_label (info r2))
    /\ mapWindow (Some win)
       = match resetField win with
         | None | Some JNull => Ok (Some (info None))
         | Some v =>
             match isoOfSeconds v with
             | Ok iso => Ok (Some (info (Some iso)))
             | Throw e => Throw e
             end
         end.
Proof.
  intros Htruthy. unfold mapWindow. rewrite Htruthy. simpl negb. cbv iota.
  eexists (fun resetsAt => mkWindow _ _ _ _ resetsAt win).
  split; [reflexivity | split; [reflexivity | split; [intros; repeat split |]]].
  unfold resetField. now destruct (js_nullish _ (Some JNull)) as [[] |].
Qed.




(** The fields of a mapped window that come from the used percentage and
    from the length of the window. *)
Lemma mapWindow_fields `{Platform} (win : json) (info : WindowInfo) :
  mapWindow (Some win) = Ok (Some info) ->
  win_raw info = win
  /\ win_percentUsed info
     = match js_nullish (js_nullish (prop win "used_percent") (prop win "usedPercent"))
               (Some (JNum 0)) with
       | Some v => ToNumber v
       | None => None
       end
  /\ win_percentRemaining info
     = option_map (fun u => Qmax 0 (inject_Z 100 - u)) (win_percentUsed info)
  /\ win_windowMinutes info
     = match secondsField win with
       | None | Some JNull => MinNull
       | Some v =>
           match ToNumber v with
           | Some secs => MinInt (Math_ceil (secs / inject_Z 60))
           | None => MinNaN
           end
       end
  /\ win_label info
     = match win_windowMinutes info with
       | MinNull => "unknown"
       | _ => humanizeWindow (win_windowMinutes info)
       end.
Proof.
  unfold mapWindow. destruct (negb (truthy win)); [discriminate |].
  destruct (js_nullish (js_nullish (prop win "reset_at") (prop win "resetAt")) (Some JNull))
    as [v |].
  - destruct v; try (destruct (isoOfSeconds _); [| discriminate]);
      intros [= <-]; repeat split.
  - intros [= <-]. repeat split.
Qed.



Lemma Qceiling_bounds (q : Q) :
  (inject_Z (Qceiling q) - 1 < q)%Q /\ (q <= inject_Z (Qceiling q))%Q.
Proof.
  split; [| apply Qle_ceiling].
  pose proof (Qceiling_lt q) as Hlt.
  unfold Z.sub in Hlt. rewrite inject_Z_plus, inject_Z_opp in Hlt.
  change (inject_Z 1) with 1%Q in Hlt. lra.
Qed.

Lemma hours_label_not_unknown (s : string) : s ++ "h" <> "unknown".
Proof.
  intros Heq.
  assert (Hlen : String.length (s ++ "h") = 7%nat) by now rewrite Heq.
  rewrite length_append in Hlen. simpl in Hlen.
  do 7 (destruct s as [| ? s]; [try discriminate |]); simpl in Hlen; try lia.
  all: cbv in Heq; try discriminate.
Qed.

Lemma humanizeWindow_not_unknown (minutes : minutes_arg) :
  minutes <> MinNull -> humanizeWindow minutes <> "unknown".
Proof.
  intros Hne. destruct minutes as [| | m]; [contradiction | discriminate |].
  unfold humanizeWindow.
  destruct (m <=? 24 * 60)%Z; [apply hours_label_not_unknown |].
  destruct (m <=? 7 * (24 * 60))%Z; [discriminate |].
  destruct (m <=? 30 * (24 * 60))%Z; discriminate.
Qed.

(** X5: the length of a mapped window in minutes is the least integer
    that is at least [seconds / 60] (1 second counts as 1 minute, 60 as 1,
    61 as 2); the label is that of [humanizeWindow] for these minutes, and
    it is [unknown] exactly when the window has no length field. *)
Theorem mapWindow_minutes_round_up `{Platform} (win : json) (info : WindowInfo) :
  mapWindow (Some win) = Ok (Some info) ->
  (forall v secs,
      secondsField win = Some v -> v <> JNull -> ToNumber v = Some secs ->
      exists m,
        win_windowMinutes info = MinInt m
        /\ (inject_Z (60 * (m - 1)) < secs)%Q /\ (secs <= inject_Z (60 * m))%Q
        /\ win_label info = humanizeWindow (MinInt m))
  /\ (win_label info = "unknown" <-> win_windowMinutes info = MinNull)
  /\ (win_windowMinutes info = MinNull
      <-> secondsField win = None \/ secondsField win = Some JNull).
Proof.
  intros Hmap. destruct (mapWindow_fields _ _ Hmap) as (_ & _ & _ & Hmin & Hlabel).
  split; [| split].
  - intros v secs Hfield Hnull Hnum. rewrite Hfield, Hnum in Hmin.
    assert (Hm : win_windowMinutes info = MinInt (Math_ceil (secs / inject_Z 60))).
    { rewrite Hmin. destruct v; try reflexivity. now contradiction Hnull. }
    exists (Math_ceil (secs / inject_Z 60)).
    rewrite Hlabel, Hm. split; [reflexivity | split; [| split; [| reflexivity]]].
    + destruct (Qceiling_bounds (secs / inject_Z 60)) as [Hlo _].
      unfold Math_ceil, Z.sub. rewrite inject_Z_mult, inject_Z_plus, inject_Z_opp.
      change (inject_Z 60) with 60%Q in *. change (inject_Z 1) with 1%Q.
      assert (Hsecs : (secs == 60 * (secs / 60))%Q) by (field; discriminate).
      lra.
    + destruct (Qceiling_bounds (secs / inject_Z 60)) as [_ Hhi].
      unfold Math_ceil. rewrite inject_Z_mult.
      change (inject_Z 60) with 60%Q in *.
      assert (Hsecs : (secs == 60 * (secs / 60))%Q) by (field; discriminate).
      lra.
  - rewrite Hlabel. split.
    + intros Hunknown. destruct (win_windowMinutes info) eqn:Hm; [reflexivity | |];
        now apply humanizeWindow_not_unknown in Hunknown.
    + now intros ->.
  - rewrite Hmin. destruct (secondsField win) as [v |]; [| tauto].
    destruct v; try tauto; (split; [| intros [? | ?]; discriminate]);
      destruct (ToNumber _); discriminate.
Qed.

Lemma mapWindow_minutes_round_up_witness :
  exists info,
    @mapWindow Demo.demo (Some (JObj [("limit_window_seconds", JNum (inject_Z 18001))]))
    = Ok (Some info)
    /\ win_windowMinutes info = MinInt 301
    /\ win_label info = "5h".
Proof.
  destruct (@mapWindow Demo.demo (Some (JObj [("limit_window_seconds", JNum (inject_Z 18001))])))
    as [[info |] | e] eqn:Hmap; try (vm_compute in Hmap; discriminate).
  exists info. split; [reflexivity |].
  destruct (@mapWindow_minutes_round_up Demo.demo _ _ Hmap) as [Hminutes _].
  destruct (Hminutes (JNum (inject_Z 18001)) (inject_Z 18001) eq_refl) as (m & Hm & Hlo & Hhi & Hl);
    [discriminate | reflexivity |].
  assert (m = 301).
  { rewrite <- Zlt_Qlt in Hlo. rewrite <- Zle_Qle in Hhi. lia. }
  subst m. split; [exact Hm | rewrite Hl; reflexivity].
Defined.

(** ** The effects of a session *)

Lemma spent_app (l l' : list Event) : spent (l ++ l')%list = budget_add (spent l) (spent l').
Proof. unfold spent, budget_add. simpl. now rewrite !count_app. Qed.

Lemma budget_le_add (a b a' b' : Budget) :
  budget_le a a' -> budget_le b b' -> budget_le (budget_add a b) (budget_add a' b').
Proof. unfold budget_le, budget_add. simpl. lia. Qed.

Lemma budget_le_add_l (a b1 b2 : Budget) : budget_le a b1 -> budget_le a (budget_add b1 b2).
Proof. unfold budget_le, budget_add. simpl. lia. Qed.

Lemma budget_le_nothing (b : Budget) : budget_le (spent []) b.
Proof. unfold budget_le, spent, count. simpl. lia. Qed.

Lemma budget_le_trans (a b c : Budget) : budget_le a b -> budget_le b c -> budget_le a c.
Proof. unfold budget_le. lia. Qed.

Lemma effects_weaken {A} (path : string) (b b' : Budget) (c : M A) :
  budget_le b b' -> effects path b c -> effects path b' c.
Proof.
  intros Hle Hc w r w' Hrun.
  destruct (Hc _ _ _ Hrun) as ((evs & Htrace & Hown & Hspent & Hwp & Hfiles) & Hframe & Hname).
  split; [| now split].
  exists evs. split; [exact Htrace | split; [exact Hown | split; [| now split]]].
  now apply (budget_le_trans _ b).
Qed.

Lemma effects_no_event {A} (path : string) (b : Budget) (w : World) (r : Result A) :
  (forall e, r = Throw e -> err_name e <> EmptyString) ->
  (exists evs,
      trace w = (trace w ++ evs)%list
      /\ Forall (ownEvent path) evs
      /\ budget_le (spent evs) b
      /\ (count isWriteFile evs <= count isTokenPost evs)%nat
      /\ (count isWriteFile evs = 0%nat -> files w = files w))
  /\ (forall q, q <> path -> files w !! q = files w !! q)
  /\ (forall e, r = Throw e -> err_name e <> EmptyString).
Proof.
  intros Hname. split; [| split; [reflexivity | exact Hname]].
  exists []. split; [now rewrite app_nil_r | split; [constructor | split]].
  - apply budget_le_nothing.
  - split; [reflexivity | reflexivity].
Qed.

Lemma effects_pure {A} (path : string) (c : M A) :
  (forall w, exists r, c w = (r, w) /\ forall e, r = Throw e -> err_name e <> EmptyString) ->
  effects path nothing c.
Proof.
  intros Hpure w r w' Hrun. destruct (Hpure w) as (r0 & Hr0 & Hname).
  rewrite Hr0 in Hrun. injection Hrun as <- <-.
  now apply effects_no_event.
Qed.

Lemma effects_ret {A} (path : string) (a : A) : effects path nothing (ret a).
Proof. apply effects_pure. intros w. exists (Ok a). split; [reflexivity | discriminate]. Qed.

Lemma effects_throw {A} (path : string) (e : JsError) :
  err_name e <> EmptyString -> effects path nothing (@throw A e).
Proof.
  intros Hname. apply effects_pure. intros w. exists (Throw e).
  split; [reflexivity | now intros e' [= <-]].
Qed.

Lemma effects_lift {A} (path : string) (r : Result A) :
  (forall e, r = Throw e -> err_name e <> EmptyString) -> effects path nothing (lift r).
Proof. intros Hname. apply effects_pure. intros w. now exists r. Qed.

Lemma effects_seq {A B} (path : string) (b1 b2 : Budget) (c : M A) (k : A -> M B)
    (w w1 w2 : World) (a : A) (r : Result B) :
  effects path b1 c -> effects path b2 (k a) ->
  c w = (Ok a, w1) -> k a w1 = (r, w2) ->
  (exists evs,
      trace w2 = (trace w ++ evs)%list
      /\ Forall (ownEvent path) evs
      /\ budget_le (spent evs) (budget_add b1 b2)
      /\ (count isWriteFile evs <= count isTokenPost evs)%nat
      /\ (count isWriteFile evs = 0%nat -> files w2 = files w))
  /\ (forall q, q <> path -> files w2 !! q = files w !! q)
  /\ (forall e, r = Throw e -> err_name e <> EmptyString).
Proof.
  intros Hc Hk Hrun1 Hrun2.
  destruct (Hc _ _ _ Hrun1)
    as ((evs1 & Ht1 & Ho1 & Hs1 & Hwp1 & Hf1) & Hframe1 & _).
  destruct (Hk _ _ _ Hrun2)
    as ((evs2 & Ht2 & Ho2 & Hs2 & Hwp2 & Hf2) & Hframe2 & Hname2).
  split; [| split; [| exact Hname2]].
  - exists (evs1 ++ evs2)%list. rewrite Ht2, Ht1, <- app_assoc.
    split; [reflexivity | split; [now apply Forall_app | split; [| split]]].
    + rewrite spent_app. now apply budget_le_add.
    + rewrite !count_app. lia.
    + rewrite count_app. intros Hzero. rewrite Hf2, Hf1 by lia. reflexivity.
  - intros q Hq. now rewrite Hframe2, Hframe1.
Qed.

Lemma effects_bind {A B} (path : string) (b1 b2 : Budget) (c : M A) (k : A -> M B) :
  effects path b1 c -> (forall a, effects path b2 (k a)) ->
  effects path (budget_add b1 b2) (bind c k).
Proof.
  intros Hc Hk w r w' Hrun.
  apply bind_inv in Hrun as [(a & w1 & Hrun1 & Hrun2) | (e & Hrun1 & ->)].
  - exact (effects_seq _ _ _ _ _ _ _ _ _ _ Hc (Hk a) Hrun1 Hrun2).
  - destruct (Hc _ _ _ Hrun1) as ((evs & Ht & Ho & Hs & Hwp & Hf) & Hframe & Hname).
    split; [| split; [exact Hframe |]].
    + exists evs. split; [exact Ht | split; [exact Ho | split; [| now split]]].
      now apply budget_le_add_l.
    + intros e' [= <-]. now apply (Hname e).
Qed.

(** A handler is only run on errors that have a name. *)
Lemma effects_try_catch {A} (path : string) (b1 b2 : Budget) (c : M A)
    (handler : JsError -> M A) :
  effects path b1 c ->
  (forall e, err_name e <> EmptyString -> effects path b2 (handler e)) ->
  effects path (budget_add b1 b2) (try_catch c handler).
Proof.
  intros Hc Hh w r w' Hrun. unfold try_catch in Hrun.
  destruct (c w) as [[a | e] w1] eqn:Hrun1.
  - injection Hrun as <- <-.
    destruct (Hc _ _ _ Hrun1) as ((evs & Ht & Ho & Hs & Hwp & Hf) & Hframe & _).
    split; [| split; [exact Hframe | discriminate]].
    exists evs. split; [exact Ht | split; [exact Ho | split; [| now split]]].
    now apply budget_le_add_l.
  - destruct (Hc _ _ _ Hrun1) as ((evs1 & Ht1 & Ho1 & Hs1 & Hwp1 & Hf1) & Hframe1 & Hname1).
    destruct (Hh e (Hname1 e eq_refl) _ _ _ Hrun)
      as ((evs2 & Ht2 & Ho2 & Hs2 & Hwp2 & Hf2) & Hframe2 & Hname2).
    split; [| split; [| exact Hname2]].
    + exists (evs1 ++ evs2)%list. rewrite Ht2, Ht1, <- app_assoc.
      split; [reflexivity | split; [now apply Forall_app | split; [| split]]].
      * rewrite spent_app. now apply budget_le_add.
      * rewrite !count_app. lia.
      * rewrite count_app. intros Hzero. rewrite Hf2, Hf1 by lia. reflexivity.
    + intros q Hq. now rewrite Hframe2, Hframe1.
Qed.

Lemma effects_ensureNotAborted (path : string) : effects path nothing ensureNotAborted.
Proof.
  apply effects_pure. intros w. unfold ensureNotAborted.
  destruct (aborted w); eexists; (split; [reflexivity |]); [| discriminate].
  intros e [= <-]. discriminate.
Qed.

Lemma effects_Date_now (path : string) : effects path nothing Date_now.
Proof.
  apply effects_pure. intros w. exists (Ok (clock w)). split; [reflexivity | discriminate].
Qed.

(** One event and no change of a file. *)
Lemma effects_one_event {A} (path : string) (b : Budget) (ev : Event) (w w' : World)
    (t : Z) (r : Result A) :
  w' = resume t [ev] w ->
  ownEvent path ev -> isWriteFile ev = false -> budget_le (spent [ev]) b ->
  (forall e, r = Throw e -> err_name e <> EmptyString) ->
  (exists evs,
      trace w' = (trace w ++ evs)%list
      /\ Forall (ownEvent path) evs
      /\ budget_le (spent evs) b
      /\ (count isWriteFile evs <= count isTokenPost evs)%nat
      /\ (count isWriteFile evs = 0%nat -> files w' = files w))
  /\ (forall q, q <> path -> files w' !! q = files w !! q)
  /\ (forall e, r = Throw e -> err_name e <> EmptyString).
Proof.
  intros -> Hown Hnowrite Hbudget Hname.
  split; [| split; [reflexivity | exact Hname]].
  exists [ev]. split; [reflexivity | split; [now constructor | split; [exact Hbudget |]]].
  split; [| reflexivity]. unfold count. simpl. rewrite Hnowrite. simpl. lia.
Qed.

Lemma effects_readAuth `{Platform} (path : string) :
  effects path (mkBudget 1 0 0 0) (readAuth path).
Proof.
  intros w r w' Hrun. unfold readAuth, bind, fs_readFile in Hrun.
  set (w1 := resume (clock w + Z.of_N (delay (envStep w))) [EvReadFile path] w) in *.
  assert (Hw' : w' = w1 /\ forall e, r = Throw e -> err_name e <> EmptyString).
  { destruct (fs_fail (envStep w)); [| destruct (files w !! path) as [raw |]].
    - injection Hrun as <- <-. split; [reflexivity |]. intros e [= <-]. discriminate.
    - destruct (JSON_parse raw); injection Hrun as <- <-;
        (split; [reflexivity |]); [discriminate | intros e [= <-]; discriminate].
    - injection Hrun as <- <-. split; [reflexivity |]. intros e [= <-]. discriminate. }
  destruct Hw' as [-> Hname].
  apply (effects_one_event path _ (EvReadFile path) w w1 _ r eq_refl); auto.
  - reflexivity.
  - unfold budget_le, spent, count. simpl. lia.
Qed.

Lemma res_json_named `{Platform} (res : Response) (w w' : World) (r : Result json) :
  res_json res w = (r, w') -> w' = w /\ forall e, r = Throw e -> err_name e <> EmptyString.
Proof.
  unfold res_json. destruct (JSON_parse (res_body res)); intros [= <- <-];
    (split; [reflexivity |]); [discriminate | intros e [= <-]; discriminate].
Qed.

(** A request: no event or the request itself, and no change of a file. *)
Lemma fetch_effects (request : Event) (w w' : World) (r : Result Response) :
  fetch request w = (r, w') ->
  (w' = w \/ exists t, w' = resume t [request] w)
  /\ forall e, r = Throw e -> err_name e <> EmptyString.
Proof.
  unfold fetch. destruct (aborted w).
  { intros [= <- <-]. split; [now left | intros e [= <-]; discriminate]. }
  destruct (match quitAt w with Some q => (q <=? _)%Z | None => false end).
  { intros [= <- <-]. split; [right; eauto | intros e [= <-]; discriminate]. }
  destruct (net (envStep w)); intros [= <- <-];
    (split; [right; eauto |]); [intros e [= <-] | ]; discriminate.
Qed.

Lemma effects_of_request {A} (path : string) (b : Budget) (request : Event) (w w' : World)
    (r : Result A) :
  (w' = w \/ exists t, w' = resume t [request] w) ->
  ownEvent path request -> isWriteFile request = false -> budget_le (spent [request]) b ->
  (forall e, r = Throw e -> err_name e <> EmptyString) ->
  (exists evs,
      trace w' = (trace w ++ evs)%list
      /\ Forall (ownEvent path) evs
      /\ budget_le (spent evs) b
      /\ (count isWriteFile evs <= count isTokenPost evs)%nat
      /\ (count isWriteFile evs = 0%nat -> files w' = files w))
  /\ (forall q, q <> path -> files w' !! q = files w !! q)
  /\ (forall e, r = Throw e -> err_name e <> EmptyString).
Proof.
  intros [-> | [t ->]] Hown Hnowrite Hbudget Hname.
  - now apply effects_no_event.
  - now apply (effects_one_event path b request w _ t r eq_refl).
Qed.

Lemma effects_fetchUsage `{Platform} (path : string) (accessToken accountId : option json) :
  effects path (mkBudget 0 0 0 1) (fetchUsage accessToken accountId).
Proof.
  intros w r w' Hrun. unfold fetchUsage in Hrun.
  apply bind_inv in Hrun as [([] & w0 & Hcheck & Hrun) | (e & Hcheck & ->)].
  - apply ensureNotAborted_inv in Hcheck as (-> & _).
    apply bind_inv in Hrun as [(res & w1 & Hfetch & Hrun) | (e & Hfetch & ->)].
    + apply fetch_effects in Hfetch as [Hw1 _].
      assert (Hend : w' = w1 /\ forall e, r = Throw e -> err_name e <> EmptyString).
      { destruct (negb (res_ok res)); [| now apply res_json_named in Hrun].
        injection Hrun as <- <-. split; [reflexivity | intros e [= <-]; discriminate]. }
      destruct Hend as [-> Hname].
      apply (effects_of_request path _ _ w w1 r Hw1); auto; try reflexivity.
      unfold budget_le, spent, count. simpl. lia.
    + apply fetch_effects in Hfetch as [Hw1 Hname].
      apply (effects_of_request path _ _ w w' _ Hw1); auto; try reflexivity.
      * unfold budget_le, spent, count. simpl. lia.
      * intros e' [= <-]. now apply (Hname e).
  - apply ensureNotAborted_inv in Hcheck as (-> & [[_ Hbad] | [_ [= ->]]]); [discriminate |].
    apply (effects_of_request path _ (EvUsageGet accessToken (accountHeader accountId)) w w _
             (or_introl eq_refl)); auto; try reflexivity.
    + unfold budget_le, spent, count. simpl. lia.
    + intros e [= <-]. discriminate.
Qed.

Lemma storeRefreshed_named `{Platform} (auth refreshed access : json) (now : Z) (e : JsError) :
  storeRefreshed auth refreshed access now = Throw e -> err_name e <> EmptyString.
Proof.
  unfold storeRefreshed. destruct auth; try (intros [= <-]; discriminate).
  all: match goal with
       | |- context [match ?p with Some _ => _ | None => _ end] => destruct p
       end; try discriminate; intros [= <-]; discriminate.
Qed.

(** A refresh: nothing, or the request to the token endpoint, or that
    request and the write of the bundle. *)
Lemma effects_refreshTokensAndPersist `{Platform}
    (path : string) (auth : json) (refreshToken : option json) :
  effects path (mkBudget 0 1 1 0) (refreshTokensAndPersist path auth refreshToken).
Proof.
  intros w r w' Hrun.
  assert (Hshape :
    (w' = w
     \/ (exists t, w' = resume t [EvTokenPost refreshToken] w)
     \/ (exists t t' content,
           w' = resume t' [EvWriteFile path content] (resume t [EvTokenPost refreshToken] w)
           \/ w' = store path content
                     (resume t' [EvWriteFile path content]
                        (resume t [EvTokenPost refreshToken] w))))
    /\ forall e, r = Throw e -> err_name e <> EmptyString).
  { unfold refreshTokensAndPersist in Hrun.
    destruct (negb (truthy_opt refreshToken)).
    { injection Hrun as <- <-. split; [now left | intros e [= <-]; discriminate]. }
    apply bind_inv in Hrun as [([] & w0 & Hcheck & Hrun) | (e & Hcheck & ->)].
    2: { apply ensureNotAborted_inv in Hcheck as (-> & [[_ Hbad] | [_ [= ->]]]);
           [discriminate |]. split; [now left | intros e [= <-]; discriminate]. }
    apply ensureNotAborted_inv in Hcheck as (-> & _).
    apply bind_inv in Hrun as [(refreshed & w1 & Hreq & Hrun) | (e & Hreq & ->)].
    2: { unfold requestTokenRefresh in Hreq.
         apply bind_inv in Hreq as [(res & w1 & Hfetch & Hreq) | (e' & Hfetch & [= ->])].
         - apply fetch_effects in Hfetch as [Hw1 _].
           assert (Hend : w' = w1 /\ err_name e <> EmptyString).
           { destruct (negb (res_ok res)).
             - injection Hreq as <- <-. split; [reflexivity | discriminate].
             - apply res_json_named in Hreq as [-> Hname]. split; [reflexivity | now apply Hname]. }
           destruct Hend as [-> Hname].
           split; [destruct Hw1 as [-> | Hw1]; auto | now intros e' [= <-]].
         - apply fetch_effects in Hfetch as [Hw1 Hname].
           split; [destruct Hw1 as [-> | Hw1]; auto | intros e0 [= <-]; now apply (Hname e')]. }
    apply requestTokenRefresh_ok_inv in Hreq as (st & stt & body & _ & _ & _ & _ & ->).
    set (w1 := resume (clock w + Z.of_N (delay (envStep w))) [EvTokenPost refreshToken] w) in *.
    assert (Hbody :
      ((if negb (truthy_opt (prop refreshed "access_token"))
        then throw (newError "Token refresh succeeded but no access_token was returned.")
        else
          now <- Date_now ;;
          auth' <- lift (storeRefreshed auth refreshed
                           (default JNull (prop refreshed "access_token")) now) ;;
          _ <- fs_writeFile path (JSON_stringify_2 auth' ++ newline) ;;
          ret auth') w1 = (r, w'))
      \/ (w' = w1 /\ forall e, r = Throw e -> err_name e <> EmptyString)).
    { destruct refreshed; try (left; exact Hrun). right. injection Hrun as <- <-.
      split; [reflexivity | intros e [= <-]; discriminate]. }
    clear Hrun. destruct Hbody as [Hbody | [-> Hname]];
      [| split; [right; left; eauto | exact Hname]].
    destruct (negb (truthy_opt (prop refreshed "access_token"))).
    { injection Hbody as <- <-.
      split; [right; left; eauto | intros e [= <-]; discriminate]. }
    apply bind_inv in Hbody as [(now & w2 & Hnow & Hrun) | (e & Hnow & _)]; [| discriminate].
    injection Hnow as <- <-.
    apply bind_inv in Hrun as [(a2 & w2 & Hstore & Hrun) | (e & Hstore & ->)].
    2: { unfold lift in Hstore. injection Hstore as Hstore <-.
         split; [right; left; eauto |].
         intros e' [= <-]. now apply storeRefreshed_named in Hstore. }
    unfold lift in Hstore. injection Hstore as Hstore <-.
    unfold bind, fs_writeFile in Hrun.
    destruct (fs_fail (envStep w1)); injection Hrun as <- <-.
    - split; [right; right; eexists _, _, _; left; reflexivity |].
      intros e [= <-]. discriminate.
    - split; [right; right; eexists _, _, _; right; reflexivity | discriminate]. }
  destruct Hshape as [Hshape Hname].
  destruct Hshape as [-> | [[t ->] | (t & t' & content & [-> | ->])]].
  - now apply effects_no_event.
  - apply (effects_one_event path _ (EvTokenPost refreshToken) w _ t r eq_refl); auto;
      try reflexivity.
    unfold budget_le, spent, count. simpl. lia.
  - split; [| split; [reflexivity | exact Hname]].
    exists [EvTokenPost refreshToken; EvWriteFile path content].
    split; [simpl; now rewrite <- app_assoc | split; [now repeat constructor |]].
    split; [unfold budget_le, spent, count; simpl; lia |].
    split; [unfold count; simpl; lia | unfold count; simpl; discriminate].
  - split; [| split; [| exact Hname]].
    + exists [EvTokenPost refreshToken; EvWriteFile path content].
      split; [simpl; now rewrite <- app_assoc | split; [now repeat constructor |]].
      split; [unfold budget_le, spent, count; simpl; lia |].
      split; [unfold count; simpl; lia | unfold count; simpl; discriminate].
    + intros q Hq. simpl. now rewrite lookup_insert_ne.
Qed.

Lemma effects_validateTokenBundle (path : string) (tokens : option json) :
  effects path nothing (validateTokenBundle tokens).
Proof.
  unfold validateTokenBundle.
  match goal with |- context [if ?b then _ else _] => destruct b end;
    [now apply effects_throw | apply effects_ret].
Qed.

Lemma isoOfSeconds_named `{Platform} (v : json) (e : JsError) :
  isoOfSeconds v = Throw e -> err_name e <> EmptyString.
Proof.
  rewrite isoOfSeconds_run. destruct (ToNumber v) as [secs |]; [| intros [= <-]; discriminate].
  destruct (validTime _); [discriminate | intros [= <-]; discriminate].
Qed.

Lemma mapWindow_named `{Platform} (window : option json) (e : JsError) :
  mapWindow window = Throw e -> err_name e <> EmptyString.
Proof.
  intros Hthrow. destruct window as [win |]; [| discriminate].
  destruct (truthy win) eqn:Htruthy;
    [| unfold mapWindow in Hthrow; rewrite Htruthy in Hthrow; discriminate].
  destruct (mapWindow_run win Htruthy) as (info & _ & _ & _ & Hrun).
  rewrite Hrun in Hthrow.
  destruct (resetField win) as [v |]; [| discriminate].
  destruct v; try discriminate;
    (destruct (isoOfSeconds _) eqn:Hiso; [discriminate |]);
    injection Hthrow as ->; now apply isoOfSeconds_named in Hiso.
Qed.

Lemma effects_sessionPrelude `{Platform} (authPath : string) :
  effects authPath (mkBudget 1 1 1 0) (sessionPrelude authPath).
Proof.
  unfold sessionPrelude.
  eapply effects_weaken; cycle 1.
  - apply effects_bind; [apply effects_ensureNotAborted | intros _].
    apply effects_bind; [apply effects_readAuth | intros auth0].
    instantiate (1 := mkBudget 0 1 1 0).
    destruct auth0;
      try (eapply effects_weaken; [| now apply effects_throw]; within_budget).
    all: eapply effects_weaken; cycle 1.
    all: try (apply effects_bind; [apply effects_validateTokenBundle | intros _];
              apply effects_bind; [apply effects_Date_now | intros now];
              instantiate (1 := mkBudget 0 1 1 0);
              match goal with |- context [if ?b then _ else _] => destruct b end;
              [| eapply effects_weaken; [| apply effects_ret]; within_budget];
              eapply effects_weaken; cycle 1;
              [apply effects_bind; [apply effects_ensureNotAborted | intros _];
               apply effects_bind; [apply effects_refreshTokensAndPersist | intros auth'];
               apply effects_ret
              | within_budget]).
    all: within_budget.
  - within_budget.
Qed.

Lemma effects_firstFetch `{Platform} (path : string) (s : Session) :
  effects path (mkBudget 0 0 0 1) (firstFetch s).
Proof.
  eapply effects_weaken; cycle 1.
  - apply effects_bind; [apply effects_ensureNotAborted | intros _].
    apply effects_fetchUsage.
  - within_budget.
Qed.

Lemma effects_retryAfter401 `{Platform} (authPath : string) (s : Session) (err : JsError) :
  err_name err <> EmptyString ->
  effects authPath (mkBudget 0 1 1 1) (retryAfter401 authPath s err).
Proof.
  intros Hname. unfold retryAfter401.
  match goal with |- context [if ?b then _ else _] => destruct b end.
  - eapply effects_weaken; cycle 1.
    + apply effects_bind; [apply effects_refreshTokensAndPersist | intros auth'].
      apply effects_bind; [apply effects_ensureNotAborted | intros _].
      apply effects_bind; [apply effects_fetchUsage | intros payload].
      apply effects_ret.
    + within_budget.
  - eapply effects_weaken; [| now apply effects_throw]. within_budget.
Qed.

Lemma effects_usageWithRetry `{Platform} (authPath : string) (s : Session) :
  effects authPath (mkBudget 0 1 1 2) (usageWithRetry authPath s).
Proof.
  eapply effects_weaken; cycle 1.
  - apply effects_try_catch.
    + apply effects_bind; [apply effects_firstFetch | intros p; apply effects_ret].
    + intros e He. now apply effects_retryAfter401.
  - within_budget.
Qed.

Lemma effects_assembleResult `{Platform} (authPath : string) (payload : json) (s : Session) :
  effects authPath nothing (assembleResult authPath payload s).
Proof.
  unfold assembleResult.
  eapply effects_weaken; cycle 1.
  - apply effects_bind; [apply effects_lift; intros e; apply mapWindow_named | intros p1].
    apply effects_bind; [apply effects_lift; intros e; apply mapWindow_named | intros p2].
    apply effects_bind; [apply effects_Date_now | intros now].
    apply effects_ret.
  - within_budget.
Qed.

Lemma effects_collectUsageForAuth `{Platform} (authPath : string) :
  effects authPath (mkBudget 1 2 2 2) (collectUsageForAuth authPath).
Proof.
  eapply effects_weaken; cycle 1.
  - apply effects_bind; [apply effects_sessionPrelude | intros s].
    apply effects_bind; [apply effects_usageWithRetry | intros r].
    apply effects_assembleResult.
  - within_budget.
Qed.

(** X6: whatever the remote end and the file system do, one session
    reads its bundle at most once, asks the token endpoint at most twice
    (once ahead of the usage request, once after a 401), writes its
    bundle at most as often as it asked the token endpoint, and asks the
    usage endpoint at most twice; it reads and writes no other file and
    renders nothing.  What it prints to the standard error stream is not
    counted. *)
Theorem session_effects_are_bounded `{Platform} (authPath : string) (w : World) :
  exists r w' evs,
    collectUsageForAuth authPath w = (r, w')
    /\ trace w' = (trace w ++ evs)%list
    /\ Forall (ownEvent authPath) evs
    /\ (count isReadFile evs <= 1)%nat
    /\ (count isTokenPost evs <= 2)%nat
    /\ (count isWriteFile evs <= count isTokenPost evs)%nat
    /\ (count isUsageGet evs <= 2)%nat.
Proof.
  destruct (collectUsageForAuth authPath w) as [r w'] eqn:Hrun.
  destruct (effects_collectUsageForAuth authPath _ _ _ Hrun)
    as ((evs & Htrace & Hown & (Hr & Hp & _ & Hg) & Hwp & _) & _ & _).
  exists r, w', evs. simpl in *. auto 10.
Qed.

(** X7: a session changes no file but its own bundle, and its own bundle
    only by a write that follows a request to the token endpoint: a
    session that made no such request leaves every file as it was. *)
Theorem session_writes_only_its_bundle `{Platform} (authPath : string) (w w' : World)
    (r : Result Usage) :
  collectUsageForAuth authPath w = (r, w') ->
  (forall q, q <> authPath -> files w' !! q = files w !! q)
  /\ (count isTokenPost (trace w') = count isTokenPost (trace w) -> files w' = files w).
Proof.
  intros Hrun.
  destruct (effects_collectUsageForAuth authPath _ _ _ Hrun)
    as ((evs & Htrace & _ & _ & Hwp & Hfiles) & Hframe & _).
  split; [exact Hframe |].
  rewrite Htrace, count_app. intros Hposts. apply Hfiles. lia.
Qed.

Lemma session_writes_only_its_bundle_witness :
  let w := mkWorld 1000000 None (<["/a.json" := "AUTH"]> (<["/other.json" := "KEEP"]> ∅))
             (Demo.script [mkStep 1 (NetRejected "-") None; mkStep 2 Demo.unauthorized None;
                           mkStep 3 (Demo.okWith "NEW") None; mkStep 1 (NetRejected "-") None;
                           mkStep 2 (Demo.okWith "USAGE") None] Demo.quiet) 0 [] in
  let w' := snd (@collectUsageForAuth Demo.demo "/a.json" w) in
  files w' !! "/other.json" = Some "KEEP" /\ files w' !! "/a.json" <> Some "AUTH".
Proof.
  intros w w'.
  destruct (@collectUsageForAuth Demo.demo "/a.json" w) as [r w0] eqn:Hrun.
  destruct (@session_writes_only_its_bundle Demo.demo "/a.json" w w0 r Hrun) as [Hframe _].
  subst w'. cbn [snd]. split.
  - rewrite Hframe by discriminate. reflexivity.
  - vm_compute in Hrun. injection Hrun as _ <-. vm_compute. discriminate.
Defined.

(** ** The effects of a pass *)

Lemma errorText_nonempty (e : JsError) :
  err_name e <> EmptyString -> errorText e <> EmptyString.
Proof.
  unfold errorText. destruct (err_message e); [auto | discriminate].
Qed.

Lemma assembleResult_authFile `{Platform} (authPath : string) (payload : json) (s : Session)
    (w w' : World) (usage : Usage) :
  assembleResult authPath payload s w = (Ok usage, w') -> u_authFile usage = authPath.
Proof.
  unfold assembleResult, bind, lift, Date_now, ret.
  destruct (mapWindow _); [| discriminate].
  destruct (mapWindow _); [| discriminate].
  now intros [= <- _].
Qed.

Lemma collectUsageForAuth_authFile `{Platform} (authPath : string) (w w' : World)
    (usage : Usage) :
  collectUsageForAuth authPath w = (Ok usage, w') -> u_authFile usage = authPath.
Proof.
  unfold collectUsageForAuth. intros Hrun.
  apply bind_inv in Hrun as [(s & w1 & _ & Hrun) | (e & _ & He)]; [| discriminate].
  apply bind_inv in Hrun as [(r & w2 & _ & Hrun) | (e & _ & He)]; [| discriminate].
  now apply assembleResult_authFile in Hrun.
Qed.

(** The entry of a bundle: the effects of its session, and an entry that
    carries the path of the bundle and, if it is an error, a text. *)
Lemma accountEntry_effects `{Platform} (authPath : string) (w w' : World)
    (r : Result AccountResult) :
  accountEntry authPath w = (r, w') ->
  (exists evs,
      trace w' = (trace w ++ evs)%list
      /\ Forall (ownEvent authPath) evs
      /\ budget_le (spent evs) (mkBudget 1 2 2 2)
      /\ (count isWriteFile evs <= count isTokenPost evs)%nat)
  /\ (forall q, q <> authPath -> files w' !! q = files w !! q)
  /\ (forall entry, r = Ok entry ->
        entryFile entry = authPath
        /\ forall error, entryError entry = Some error -> error <> EmptyString).
Proof.
  rewrite accountEntry_run.
  destruct (collectUsageForAuth authPath w) as [[usage | e] w1] eqn:Hsession.
  - intros [= <- <-].
    destruct (effects_collectUsageForAuth authPath _ _ _ Hsession)
      as ((evs & Ht & Ho & Hs & Hwp & _) & Hframe & _).
    split; [eauto 6 | split; [exact Hframe |]].
    intros entry [= <-]. split; [now apply collectUsageForAuth_authFile in Hsession |].
    discriminate.
  - destruct (effects_collectUsageForAuth authPath _ _ _ Hsession)
      as ((evs & Ht & Ho & Hs & Hwp & _) & Hframe & Hname).
    destruct (isAbortError e); intros [= <- <-];
      (split; [eauto 6 | split; [exact Hframe |]]); [discriminate |].
    intros entry [= <-]. split; [reflexivity |].
    intros error [= <-]. apply errorText_nonempty. now apply Hname.
Qed.

Lemma renderAccounts_effects `{Platform} (authPaths : list string) :
  forall (results : list AccountResult) (w w' : World) (r : Result (list AccountResult)),
    renderAccounts authPaths results w = (r, w') ->
    (exists evs,
        trace w' = (trace w ++ evs)%list
        /\ Forall (passEvent (List.map path_resolve authPaths)) evs
        /\ (count isReadFile evs <= List.length authPaths)%nat
        /\ (count isTokenPost evs <= 2 * List.length authPaths)%nat
        /\ (count isWriteFile evs <= count isTokenPost evs)%nat
        /\ (count isUsageGet evs <= 2 * List.length authPaths)%nat)
    /\ (forall q, ~ In q (List.map path_resolve authPaths) -> files w' !! q = files w !! q)
    /\ (forall all, r = Ok all ->
          exists entries,
            all = (results ++ entries)%list
            /\ List.map entryFile entries = List.map path_resolve authPaths
            /\ Forall (fun entry => forall error, entryError entry = Some error ->
                                                  error <> EmptyString) entries).
Proof.
  induction authPaths as [| authArg rest IH]; intros results w w' r Hrun.
  - simpl in Hrun. unfold bind, ensureNotAborted, ret in Hrun.
    assert (Hw : w' = w /\ forall all, r = Ok all -> all = results).
    { destruct (aborted w); injection Hrun as <- <-;
        (split; [reflexivity |]); [discriminate | now intros all [= <-]]. }
    destruct Hw as [-> Hall].
    split; [| split; [reflexivity |]].
    + exists []. rewrite app_nil_r. repeat split; auto; unfold count; simpl; lia.
    + intros all Hr. exists []. rewrite app_nil_r. rewrite (Hall _ Hr). now split.
  - rewrite renderAccounts_cons in Hrun.
    apply bind_inv in Hrun as [([] & w0 & Hcheck & Hrun) | (e & Hcheck & ->)].
    2: { apply ensureNotAborted_inv in Hcheck as (-> & _).
         split; [| split; [reflexivity | discriminate]].
         exists []. rewrite app_nil_r. repeat split; auto; unfold count; simpl; lia. }
    apply ensureNotAborted_inv in Hcheck as (-> & _).
    apply bind_inv in Hrun as [(entry & w1 & Hentry & Hrun) | (e & Hentry & ->)].
    + destruct (accountEntry_effects _ _ _ _ Hentry)
        as ((evs1 & Ht1 & Ho1 & (Hr1 & Hp1 & _ & Hg1) & Hwp1) & Hframe1 & Hok1).
      destruct (Hok1 entry eq_refl) as [Hfile Herror].
      destruct (IH _ _ _ _ Hrun)
        as ((evs2 & Ht2 & Ho2 & Hr2 & Hp2 & Hwp2 & Hg2) & Hframe2 & Hok2).
      simpl in Hr1, Hp1, Hg1.
      split; [| split].
      * exists (evs1 ++ evs2)%list. rewrite Ht2, Ht1, <- app_assoc.
        split; [reflexivity |]. split.
        { apply Forall_app. split.
          - eapply List.Forall_impl; [| exact Ho1]. intros ev Hev.
            exists (path_resolve authArg). split; [now left | exact Hev].
          - eapply List.Forall_impl; [| exact Ho2]. intros ev (p & Hin & Hev).
            exists p. split; [now right | exact Hev]. }
        rewrite !count_app. simpl List.length. lia.
      * intros q Hq. simpl in Hq.
        rewrite Hframe2, Hframe1; [reflexivity | |];
          intros Hx; apply Hq; first [right; exact Hx | left; now rewrite Hx].
      * intros all Hr. destruct (Hok2 all Hr) as (entries & -> & Hfiles & Herrors).
        exists (entry :: entries). rewrite <- app_assoc. split; [reflexivity |].
        split; [simpl; now rewrite Hfile, Hfiles | now constructor].
    + destruct (accountEntry_effects _ _ _ _ Hentry)
        as ((evs1 & Ht1 & Ho1 & (Hr1 & Hp1 & _ & Hg1) & Hwp1) & Hframe1 & _).
      simpl in Hr1, Hp1, Hg1.
      split; [| split; [| discriminate]].
      * exists evs1. split; [exact Ht1 |]. split.
        { eapply List.Forall_impl; [| exact Ho1]. intros ev Hev.
          exists (path_resolve authArg). split; [now left | exact Hev]. }
        simpl List.length. lia.
      * intros q Hq. simpl in Hq. apply Hframe1. intros Hx. apply Hq. left. now rewrite Hx.
Qed.

(** X8: the entries of a pass that returns come in configuration order,
    one per configured bundle, each with the resolved path of its bundle
    as [authFile], whether the session succeeded or failed; and the error
    of an error entry is never the empty string, so that the presenter's
    test [if (entry.error)] takes every error entry for one. *)
Theorem pass_entries_are_labelled `{Platform} (authPaths : list string) (w w' : World)
    (results : list AccountResult) :
  renderOnce authPaths w = (Ok results, w') ->
  List.map entryFile results = List.map path_resolve authPaths
  /\ Forall (fun entry => forall error, entryError entry = Some error -> error <> EmptyString)
       results.
Proof.
  unfold renderOnce. intros Hrun.
  apply bind_inv in Hrun as [([] & w0 & _ & Hrun) | (e & _ & He)]; [| discriminate].
  destruct (renderAccounts_effects _ _ _ _ _ Hrun) as (_ & _ & Hok).
  destruct (Hok results eq_refl) as (entries & -> & Hfiles & Herrors). now split.
Qed.

Lemma pass_entries_are_labelled_witness :
  exists results w',
    @renderOnce Demo.demo ["/missing.json"; "/b.json"] Demo.twoBundles = (Ok results, w')
    /\ List.map entryFile results = ["/missing.json"; "/b.json"]
    /\ List.map entryError (firstn 1 results) = [Some "ENOENT: no such file or directory, open '/missing.json'"].
Proof.
  destruct (@renderOnce Demo.demo ["/missing.json"; "/b.json"] Demo.twoBundles)
    as [[results | e] w'] eqn:Hrun; [| vm_compute in Hrun; discriminate].
  exists results, w'. split; [reflexivity |].
  destruct (@pass_entries_are_labelled Demo.demo _ _ _ _ Hrun) as [Hfiles _].
  split; [exact Hfiles |].
  vm_compute in Hrun. injection Hrun as <- _. reflexivity.
Defined.

(** X9: a pass reads and writes no file other than the configured
    bundles, and what it does to the files and the network is what the
    sessions of these bundles do: at most one read, two requests to the
    token endpoint and two to the usage endpoint per configured bundle,
    and no more writes than requests to the token endpoint; the pass
    itself renders nothing.  What the sessions print to the standard
    error stream is not counted. *)
Theorem pass_effects_are_bounded `{Platform} (authPaths : list string) (w : World) :
  exists r w' evs,
    renderOnce authPaths w = (r, w')
    /\ trace w' = (trace w ++ evs)%list
    /\ Forall (passEvent (List.map path_resolve authPaths)) evs
    /\ (count isReadFile evs <= List.length authPaths)%nat
    /\ (count isTokenPost evs <= 2 * List.length authPaths)%nat
    /\ (count isWriteFile evs <= count isTokenPost evs)%nat
    /\ (count isUsageGet evs <= 2 * List.length authPaths)%nat
    /\ (forall q, ~ In q (List.map path_resolve authPaths) -> files w' !! q = files w !! q).
Proof.
  destruct (renderOnce authPaths w) as [r w'] eqn:Hrun. exists r, w'.
  unfold renderOnce in Hrun.
  apply bind_inv in Hrun as [([] & w0 & Hcheck & Hrun) | (e & Hcheck & ->)].
  - apply ensureNotAborted_inv in Hcheck as (-> & _).
    destruct (renderAccounts_effects _ _ _ _ _ Hrun)
      as ((evs & Ht & Ho & Hr & Hp & Hwp & Hg) & Hframe & _).
    exists evs. auto 10.
  - apply ensureNotAborted_inv in Hcheck as (-> & _).
    exists []. rewrite app_nil_r. repeat split; auto; unfold count; simpl; lia.
Qed.

(** ** A session before its first request *)

Lemma readAuth_fails `{Platform} (path : string) (w : World) :
  let w1 := resume (clock w + Z.of_N (delay (envStep w))) [EvReadFile path] w in
  (forall msg, fs_fail (envStep w) = Some msg ->
               readAuth path w = (Throw (fsError "EIO" msg), w1))
  /\ (fs_fail (envStep w) = None -> files w !! path = None ->
      readAuth path w = (Throw (fsError "ENOENT" (noSuchFile path)), w1))
  /\ (forall raw, fs_fail (envStep w) = None -> files w !! path = Some raw ->
                  JSON_parse raw = None -> readAuth path w = (Throw syntaxError, w1)).
Proof.
  intros w1. unfold readAuth, bind, fs_readFile. fold w1. repeat split.
  - now intros msg ->.
  - now intros -> ->.
  - now intros raw -> -> ->.
Qed.

Lemma validateTokenBundle_fails (auth0 : json) (w : World) :
  match prop_opt (prop auth0 "tokens") "access_token" with
  | Some (JStr s) => s = EmptyString
  | _ => True
  end ->
  let auth := if negb (truthy_opt (prop auth0 "tokens"))
              then set_prop auth0 "tokens" (JObj []) else auth0 in
  validateTokenBundle (prop auth "tokens") w
  = (Throw (newError
      "auth.json does not contain ChatGPT tokens (expected tokens.access_token). Run `codex login --chatgpt` first."),
     w).
Proof.
  intros Haccess auth. unfold validateTokenBundle.
  assert (Hbad : match prop_opt (prop auth "tokens") "access_token" with
                 | Some (JStr s) => negb (isEmptyString s)
                 | _ => false
                 end = false).
  { subst auth. destruct (truthy_opt (prop auth0 "tokens")) eqn:Htruthy; simpl negb; cbv iota.
    - destruct (prop_opt (prop auth0 "tokens") "access_token") as [[| | | s | |] |];
        try reflexivity. now rewrite Haccess.
    - destruct auth0; try reflexivity. rewrite prop_set_same. reflexivity. }
  rewrite Hbad. now rewrite orb_true_r.
Qed.

(** X10: a bundle that cannot be read, that is no JSON, that is [null],
    or that has no non-empty string [tokens.access_token] ends its session
    right after the read: with the error of the file system, a
    [SyntaxError], a [TypeError] ([null] has no [tokens]), or the error of
    line 242.  No request is made and no file is written. *)
Theorem unusable_bundle_stops_session `{Platform} (authPath : string) (w : World) :
  aborted w = false ->
  let w1 := resume (clock w + Z.of_N (delay (envStep w))) [EvReadFile authPath] w in
  (forall msg, fs_fail (envStep w) = Some msg ->
               exists e, collectUsageForAuth authPath w = (Throw e, w1)
                         /\ err_message e = msg /\ err_code e <> None)
  /\ (fs_fail (envStep w) = None -> files w !! authPath = None ->
      exists e, collectUsageForAuth authPath w = (Throw e, w1)
                /\ err_code e = Some "ENOENT")
  /\ (forall raw, fs_fail (envStep w) = None -> files w !! authPath = Some raw ->
                  JSON_parse raw = None ->
                  exists e, collectUsageForAuth authPath w = (Throw e, w1)
                            /\ err_name e = "SyntaxError")
  /\ (forall raw, fs_fail (envStep w) = None -> files w !! authPath = Some raw ->
                  JSON_parse raw = Some JNull ->
                  exists e, collectUsageForAuth authPath w = (Throw e, w1)
                            /\ err_name e = "TypeError")
  /\ (forall raw auth0,
        fs_fail (envStep w) = None -> files w !! authPath = Some raw ->
        JSON_parse raw = Some auth0 -> auth0 <> JNull ->
        match prop_opt (prop auth0 "tokens") "access_token" with
        | Some (JStr s) => s = EmptyString
        | _ => True
        end ->
        collectUsageForAuth authPath w
        = (Throw (newError
             "auth.json does not contain ChatGPT tokens (expected tokens.access_token). Run `codex login --chatgpt` first."),
           w1)).
Proof.
  intros Hab w1.
  assert (Hstart : forall e, readAuth authPath w = (Throw e, w1) ->
                             collectUsageForAuth authPath w = (Throw e, w1)).
  { intros e Hread. unfold collectUsageForAuth, sessionPrelude.
    apply bind_throw. rewrite (bind_ok _ _ _ _ _ (ensureNotAborted_ok _ Hab)).
    now apply bind_throw. }
  destruct (readAuth_fails authPath w) as (Hio & Hnone & Hsyntax). fold w1 in Hio, Hnone, Hsyntax.
  split; [| split; [| split; [| split]]].
  - intros msg Hfs. eexists. split; [apply Hstart; exact (Hio msg Hfs) |].
    split; [reflexivity | discriminate].
  - intros Hfs Hfile. eexists. split; [apply Hstart; exact (Hnone Hfs Hfile) | reflexivity].
  - intros raw Hfs Hfile Hparse. eexists.
    split; [apply Hstart; exact (Hsyntax raw Hfs Hfile Hparse) | reflexivity].
  - intros raw Hfs Hfile Hparse.
    exists (typeError "Cannot read properties of null (reading 'tokens')").
    split; [| reflexivity].
    unfold collectUsageForAuth, sessionPrelude. apply bind_throw.
    rewrite (bind_ok _ _ _ _ _ (ensureNotAborted_ok _ Hab)).
    rewrite (bind_ok _ _ _ _ _ (readAuth_ok _ _ _ _ Hfile Hfs Hparse)). fold w1.
    reflexivity.
  - intros raw auth0 Hfs Hfile Hparse Hnull Haccess.
    unfold collectUsageForAuth, sessionPrelude. apply bind_throw.
    rewrite (bind_ok _ _ _ _ _ (ensureNotAborted_ok _ Hab)).
    rewrite (bind_ok _ _ _ _ _ (readAuth_ok _ _ _ _ Hfile Hfs Hparse)). fold w1.
    pose proof (validateTokenBundle_fails auth0 w1 Haccess) as Hvalid. cbv zeta in Hvalid.
    destruct auth0; try (now contradiction Hnull); now apply bind_throw.
Qed.

Lemma unusable_bundle_stops_session_witness :
  let w := mkWorld 1000000 None (<["/a.json" := "USAGE"]> (<["/n.json" := "{broken"]> ∅))
             (fun _ => Demo.quiet) 0 [] in
  (exists e w',
      @collectUsageForAuth Demo.demo "/a.json" w = (Throw e, w')
      /\ trace w' = [EvReadFile "/a.json"]
      /\ files w' = files w)
  /\ (exists e w',
        @collectUsageForAuth Demo.demo "/n.json" w = (Throw e, w')
        /\ err_name e = "SyntaxError"
        /\ trace w' = [EvReadFile "/n.json"]).
Proof.
  intros w. split.
  - destruct (@unusable_bundle_stops_session Demo.demo "/a.json" w eq_refl)
      as (_ & _ & _ & _ & Hinvalid).
    eexists _, _. split.
    + apply (Hinvalid "USAGE" (JObj [("plan_type", JStr "pro")]));
        first [reflexivity | discriminate | exact I].
    + split; reflexivity.
  - destruct (@unusable_bundle_stops_session Demo.demo "/n.json" w eq_refl)
      as (_ & _ & Hsyntax & _).
    destruct (Hsyntax "{broken" eq_refl eq_refl eq_refl) as (e & Hrun & Hname).
    eexists _, _. split; [exact Hrun |]. split; [exact Hname | reflexivity].
Defined.



(** ** The tail loop over the real pass *)

Lemma aborted_unattended (w : World) : quitAt w = None -> aborted w = false.
Proof. unfold aborted. now intros ->. Qed.

(** A pass raises nothing but an abort error, and that only once the
    signal is aborted. *)
Lemma renderOnce_run `{Platform} (authPaths : list string) (w w' : World)
    (r : Result (list AccountResult)) :
  renderOnce authPaths w = (r, w') ->
  extends w w' /\ forall e, r = Throw e -> isAbortError e = true /\ aborted w' = true.
Proof.
  unfold renderOnce. intros Hrun.
  apply bind_inv in Hrun as [([] & w0 & Hcheck & Hrun) | (e & Hcheck & ->)].
  - apply ensureNotAborted_inv in Hcheck as (-> & _).
    destruct (renderAccounts_spec _ _ _ _ _ Hrun) as [Hext Hr].
    split; [exact Hext |]. intros e ->. exact Hr.
  - apply ensureNotAborted_inv in Hcheck as (-> & [[_ Hbad] | [Hab [= ->]]]);
      [discriminate |].
    split; [apply extends_refl |]. now intros e [= <-].
Qed.

(** The entries of a pass that are errors have a text. *)
Lemma renderOnce_texts `{Platform} (authPaths : list string) (w w' : World)
    (results : list AccountResult) :
  renderOnce authPaths w = (Ok results, w') ->
  Forall (fun entry => forall error, entryError entry = Some error -> error <> EmptyString)
    results.
Proof.
  unfold renderOnce. intros Hrun.
  apply bind_inv in Hrun as [([] & w0 & _ & Hrun) | (e & _ & He)]; [| discriminate].
  destruct (renderAccounts_effects _ _ _ _ _ Hrun) as (_ & _ & Hok).
  now destruct (Hok results eq_refl) as (entries & -> & _ & Herrors).
Qed.

Lemma cardError_drawError (u : Usage) (e : JsError) :
  cardError (ResultUsage u) = Some e -> drawError e.
Proof.
  unfold cardError, drawError.
  destruct (negb (printable_opt (u_accountId u))); [intros [= <-]; now right |].
  destruct (badPlan u); [intros [= <-]; now left |].
  destruct (negb (printable_opt (u_lastRefresh u))); [intros [= <-]; now right |].
  destruct (negb (printable_opt (u_email u))); [intros [= <-]; now right | discriminate].
Qed.

Lemma drawError_not_abort (e : JsError) : drawError e -> isAbortError e = false.
Proof. now intros [-> | ->]. Qed.

Lemma drawError_text (e : JsError) : drawError e -> errorText e = err_message e.
Proof. now intros [-> | ->]. Qed.

(** How far [renderResults] gets with entries whose errors have a
    text: through all of them, or up to the first object of a session
    whose card cannot be drawn. *)
Lemma drawCards_run (entries : list AccountResult) :
  Forall (fun entry => forall error, entryError entry = Some error -> error <> EmptyString)
    entries ->
  drawable entries = true /\ drawCards entries = (entries, None)
  \/ exists printed u rest e,
       entries = (printed ++ ResultUsage u :: rest)%list
       /\ drawable printed = true /\ cardError (ResultUsage u) = Some e
       /\ drawCards entries = (printed, Some e).
Proof.
  induction entries as [| entry entries IH]; intros Htexts; [now left |].
  apply Forall_cons_1 in Htexts as [Htext Htexts].
  cbn [drawCards drawable forallb].
  destruct (cardError entry) as [e |] eqn:Hcard.
  - destruct entry as [u | authFile error].
    + right. exists [], u, entries, e. auto.
    + exfalso. cbn [cardError] in Hcard.
      destruct error; [now apply (Htext EmptyString) | discriminate Hcard].
  - cbn [andb].
    destruct (IH Htexts) as [[Hall ->] | (printed & v & rest & e & -> & Hall & Hbad & ->)].
    + left. split; [exact Hall | reflexivity].
    + right. exists (entry :: printed), v, rest, e.
      split; [reflexivity |]. split; [| split; [exact Hbad | reflexivity]].
      cbn [drawable forallb]. now rewrite Hcard.
Qed.

Lemma drawable_stopped (printed rest : list AccountResult) (u : Usage) (e : JsError) :
  cardError (ResultUsage u) = Some e -> drawable (printed ++ ResultUsage u :: rest)%list = false.
Proof.
  intros Hcard. unfold drawable. rewrite forallb_app. cbn [forallb].
  rewrite Hcard. cbn [andb]. apply andb_false_r.
Qed.

(** The render step over the real pass: it moves the world forward, and
    it raises either the abort error of the pass, or, after a pass that
    returned, the error of a card that cannot be drawn. *)
Lemma renderStep_run `{Platform} (authPaths : list string) (w w' : World) (r : Result Z) :
  renderStep (renderOnce authPaths) w = (r, w') ->
  quitAt w' = quitAt w /\ clock w <= clock w'
  /\ forall e,
       r = Throw e ->
       isAbortError e = true /\ aborted w' = true
       \/ exists results w0 printed u rest,
            renderOnce authPaths w = (Ok results, w0)
            /\ results = (printed ++ ResultUsage u :: rest)%list
            /\ drawable printed = true /\ cardError (ResultUsage u) = Some e
            /\ w' = log (EvRender true printed) w0.
Proof.
  unfold renderStep. intros Hrun.
  apply bind_inv in Hrun as [(results & w1 & Hpass & Hrun) | (e & Hpass & ->)].
  - pose proof (renderOnce_texts _ _ _ _ Hpass) as Htexts.
    pose proof Hpass as Hmove. apply renderOnce_run in Hmove as [(Hq & _ & Hc) _].
    unfold bind, renderResults, Date_now in Hrun.
    destruct (drawCards_run results Htexts)
      as [[_ Hdraw] | (printed & u & rest & e & Hsplit & Hall & Hbad & Hdraw)];
      rewrite Hdraw in Hrun; injection Hrun as <- <-.
    + split; [exact Hq | split; [exact Hc | discriminate]].
    + split; [exact Hq | split; [exact Hc |]]. intros e' [= <-]. right.
      exists results, w1, printed, u, rest. auto.
  - apply renderOnce_run in Hpass as [(Hq & _ & Hc) Hthrow].
    split; [exact Hq | split; [exact Hc |]]. intros e' [= <-]. left. now apply Hthrow.
Qed.

(** One turn of the loop over the real pass: it fails only on a card
    that cannot be drawn, and it ends in a quit only if the quit key was
    pressed by then. *)
Lemma tailIteration_renderOnce `{Platform} (authPaths : list string) (lastRenderAt : Z)
    (w w' : World) (it : Iteration) (lastRenderAt' : Z) :
  tailIteration (renderOnce authPaths) lastRenderAt w = (it, lastRenderAt', w') ->
  quitAt w' = quitAt w
  /\ match it_kind it with
     | Failed error =>
         drawError error /\ it_due it = true /\ stoppedByCard authPaths true w w' error
     | Quit => exists q, quitAt w = Some q /\ q <= clock w'
     | Rendered | Tick => True
     end.
Proof.
  unfold tailIteration. destruct (isDue lastRenderAt (clock w)).
  - destruct (renderStep (renderOnce authPaths) w) as [r wp] eqn:Hstep.
    destruct (renderStep_run _ _ _ _ Hstep) as (Hq & Hc & Hthrow).
    destruct (quitBy (clock wp) w) eqn:Hquit.
    + intros [= <- _ <-]. split; [exact Hq |]. cbn [it_kind].
      unfold quitBy in Hquit. destruct (quitAt w) as [q |]; [| discriminate].
      exists q. split; [reflexivity | now apply Z.leb_le].
    + destruct r as [t | error]; [intros [= <- _ <-]; now split |].
      destruct (Hthrow error eq_refl)
        as [[Habort Hab] | (results & w0 & printed & u & rest & Hpass & Hsplit
                            & Hall & Hbad & ->)].
      * rewrite Habort. intros [= <- _ <-]. split; [exact Hq |]. cbn [it_kind].
        unfold aborted in Hab. rewrite Hq in Hab.
        destruct (quitAt w) as [q |]; [| discriminate].
        exists q. split; [reflexivity | now apply Z.leb_le].
      * pose proof (cardError_drawError _ _ Hbad) as Hdraw.
        rewrite (drawError_not_abort _ Hdraw), (drawError_text _ Hdraw).
        intros [= <- _ <-]. split; [exact Hq |]. cbn [it_kind it_due].
        split; [exact Hdraw | split; [reflexivity |]].
        exists results, w0, printed, u, rest. auto.
  - destruct (quitBy _ w) eqn:Hquit; intros [= <- _ <-]; (split; [reflexivity |]);
      cbn [it_kind]; [| exact I].
    unfold quitBy in Hquit. unfold quitTime.
    destruct (quitAt w) as [q |]; [| discriminate].
    exists q. split; [reflexivity |]. cbn [resume clock]. lia.
Qed.

(** The ways in which a run of the loop over the real pass ends. *)
Lemma runTailLoop_over_pass `{Platform} (authPaths : list string) (fuel : nat) :
  forall (lastRenderAt : Z) (w w' : World) (its : list Iteration) (r : Result LoopEnd),
    runTailLoop fuel (renderOnce authPaths) lastRenderAt w = (its, r, w') ->
    Forall (fun it => forall error, it_kind it = Failed error -> drawError error) its
    /\ (r = Ok Returned /\ (exists q, quitAt w = Some q /\ q <= clock w')
        \/ r = Ok Returned
           /\ (exists pre it error evs printed,
                 its = (pre ++ [it])%list /\ it_kind it = Failed error /\ drawError error
                 /\ trace w' = (evs ++ [EvRender true printed;
                                        EvConsoleError (err_message error)])%list)
        \/ r = Ok StillRunning /\ List.length its = fuel
           /\ Forall (fun it => it_kind it = Rendered \/ it_kind it = Tick) its).
Proof.
  induction fuel as [| fuel IH]; intros lastRenderAt w w' its r Hrun.
  - injection Hrun as <- <- <-. split; [constructor |]. right. right. now repeat constructor.
  - simpl in Hrun.
    destruct (tailIteration (renderOnce authPaths) lastRenderAt w) as [[it last'] w1] eqn:Hturn.
    destruct (tailIteration_renderOnce _ _ _ _ _ _ Hturn) as [Hq Hkind].
    destruct (runTailLoop fuel (renderOnce authPaths) last' w1) as [[its1 r1] w2] eqn:Hrest.
    destruct (IH _ _ _ _ _ Hrest) as [Hall Hend].
    assert (Hgoes : it_kind it = Rendered \/ it_kind it = Tick ->
              Forall (fun it => forall error, it_kind it = Failed error -> drawError error)
                (it :: its1)
              /\ (r1 = Ok Returned /\ (exists q, quitAt w = Some q /\ q <= clock w2)
                  \/ r1 = Ok Returned
                     /\ (exists pre it0 error evs printed,
                           it :: its1 = (pre ++ [it0])%list /\ it_kind it0 = Failed error
                           /\ drawError error
                           /\ trace w2 = (evs ++ [EvRender true printed;
                                                  EvConsoleError (err_message error)])%list)
                  \/ r1 = Ok StillRunning /\ List.length (it :: its1) = S fuel
                     /\ Forall (fun it => it_kind it = Rendered \/ it_kind it = Tick)
                          (it :: its1))).
    { intros Hk. split.
      - constructor; [| exact Hall]. intros error He. destruct Hk; congruence.
      - destruct Hend as [[-> (q & Hsome & Hle)]
                         | [[-> (pre & it0 & error & evs & printed & -> & Hfail & Hdraw & Ht)]
                           | (-> & Hlen & Hkinds)]].
        + left. split; [reflexivity |]. exists q. now rewrite <- Hq.
        + right. left. split; [reflexivity |].
          exists (it :: pre), it0, error, evs, printed. auto.
        + right. right. split; [reflexivity |]. split; [simpl; now rewrite Hlen |].
          now constructor. }
    destruct (it_kind it) eqn:Hk; injection Hrun as <- <- <-.
    + apply Hgoes. now left.
    + apply Hgoes. now right.
    + split; [constructor; [rewrite Hk; discriminate | constructor] |].
      left. split; [reflexivity | exact Hkind].
    + destruct Hkind as (Hdraw & _ & results & w0 & printed & u & rest & _ & _ & _ & _ & ->).
      split; [constructor; [rewrite Hk; now intros e [= <-] | constructor] |].
      right. left. split; [reflexivity |].
      exists [], it, error, (trace w0), printed. split; [reflexivity |].
      split; [exact Hk |]. split; [exact Hdraw |].
      cbn [log trace]. now rewrite <- app_assoc.
Qed.

(** X12: over the real pass the errors of the sessions never end the
    tail loop.  A turn fails in one way only: the pass has returned, and
    among its entries is the object of a session whose card cannot be
    drawn, because its plan is truthy but no string, or because its
    account id, [lastRefresh] or email has no primitive value; the cards
    before it are on the screen, the [TypeError] is printed and the loop
    ends.  So the loop returns only after the quit key was pressed or
    after such a failure; otherwise it is still turning, pass after pass
    and tick after tick, after any number of turns. *)
Theorem tail_loop_ends_on_quit_or_card `{Platform} (authPaths : list string)
    (lastRenderAt : Z) (w : World) :
  (forall it lastRenderAt' w' error,
      tailIteration (renderOnce authPaths) lastRenderAt w = (it, lastRenderAt', w') ->
      it_kind it = Failed error ->
      drawError error /\ it_due it = true /\ stoppedByCard authPaths true w w' error)
  /\ (forall fuel its r w',
        runTailLoop fuel (renderOnce authPaths) lastRenderAt w = (its, r, w') ->
        Forall (fun it => forall error, it_kind it = Failed error -> drawError error) its
        /\ (r = Ok Returned /\ (exists q, quitAt w = Some q /\ q <= clock w')
            \/ r = Ok Returned
               /\ (exists pre it error evs printed,
                     its = (pre ++ [it])%list /\ it_kind it = Failed error
                     /\ drawError error
                     /\ trace w' = (evs ++ [EvRender true printed;
                                            EvConsoleError (err_message error)])%list)
            \/ r = Ok StillRunning /\ List.length its = fuel
               /\ Forall (fun it => it_kind it = Rendered \/ it_kind it = Tick) its)).
Proof.
  split.
  - intros it lastRenderAt' w' error Hturn Hkind.
    destruct (tailIteration_renderOnce _ _ _ _ _ _ Hturn) as [_ Hfail].
    now rewrite Hkind in Hfail.
  - intros fuel its r w'. apply runTailLoop_over_pass.
Qed.

Lemma tail_loop_ends_on_quit_or_card_witness :
  (exists its w',
      @runTailLoop 4 (@renderOnce Demo.demo ["/a.json"]) 0 Demo.slowPass
      = (its, Ok StillRunning, w')
      /\ List.length its = 4%nat)
  /\ (exists it evs printed w',
        @runTailLoop 4 (@renderOnce oddPlatform ["/a.json"]) 0 oddPlan = ([it], Ok Returned, w')
        /\ it_kind it = Failed charAtError
        /\ trace w' = (evs ++ [EvRender true printed;
                               EvConsoleError "value.charAt is not a function"])%list).
Proof.
  split.
  - destruct (@runTailLoop 4 (@renderOnce Demo.demo ["/a.json"]) 0 Demo.slowPass)
      as [[its r] w'] eqn:Hrun.
    destruct (@tail_loop_ends_on_quit_or_card Demo.demo ["/a.json"] 0 Demo.slowPass)
      as [_ Hruns].
    destruct (Hruns _ _ _ _ Hrun) as [_ Hend].
    exists its, w'.
    destruct Hend as [[_ (q & Hsome & _)] | [[-> _] | (-> & Hlen & _)]];
      [discriminate Hsome | vm_compute in Hrun; discriminate Hrun |].
    now split.
  - destruct (@runTailLoop 4 (@renderOnce oddPlatform ["/a.json"]) 0 oddPlan)
      as [[its r] w'] eqn:Hrun.
    destruct (@tail_loop_ends_on_quit_or_card oddPlatform ["/a.json"] 0 oddPlan)
      as [_ Hruns].
    destruct (Hruns _ _ _ _ Hrun) as [_ Hend].
    destruct Hend as [[_ (q & Hsome & _)]
                     | [[-> (pre & it & error & evs & printed & Hits & Hkind & _ & Ht)]
                       | (-> & _)]];
      [discriminate Hsome | | vm_compute in Hrun; discriminate Hrun].
    assert (Hvalue : its = [it] /\ error = charAtError).
    { vm_compute in Hrun. injection Hrun as Hrun _. rewrite Hits in Hrun.
      destruct pre as [| it0 [| it1 pre]]; try discriminate Hrun.
      injection Hrun as Hit. rewrite <- Hit in Hkind. cbn in Hkind.
      injection Hkind as <-. now rewrite Hits. }
    destruct Hvalue as [Hone ->].
    exists it, evs, printed, w'. rewrite Hone. auto.
Defined.

(** Sixty punctual polls of 500 ms after a pass. *)
Lemma punctual_ticks (renderOnce : M (list AccountResult)) (lastRenderAt : Z) (k : nat) :
  forall (w : World),
    lastRenderAt <> 0 ->
    quitAt w = None ->
    (0 < Z.of_nat k <= 60) ->
    clock w = lastRenderAt + REFRESH_INTERVAL_MS - POLL_INTERVAL_MS * Z.of_nat k ->
    (forall i, (i < k)%nat -> delay (env w (awaits w + i)%nat) = 0%N) ->
    exists its w',
      runTailLoop k renderOnce lastRenderAt w = (its, Ok StillRunning, w')
      /\ List.length its = k
      /\ Forall (fun it => it_kind it = Tick /\ it_waitDuration it = POLL_INTERVAL_MS) its
      /\ clock w' = lastRenderAt + REFRESH_INTERVAL_MS
      /\ quitAt w' = None /\ trace w' = trace w /\ files w' = files w.
Proof.
  induction k as [| k IH]; intros w Hne Hq Hk Hclock Hdelay; [lia |].
  unfold REFRESH_INTERVAL_MS, POLL_INTERVAL_MS in *.
  cbn [runTailLoop]. unfold tailIteration.
  assert (Hdue : isDue lastRenderAt (clock w) = false).
  { unfold isDue, REFRESH_INTERVAL_MS. apply orb_false_iff. split.
    - now apply Z.eqb_neq.
    - apply Z.leb_gt. lia. }
  rewrite Hdue.
  assert (Hwait : Z.min 500 (remainingWait lastRenderAt (clock w)) = 500).
  { unfold remainingWait, REFRESH_INTERVAL_MS. lia. }
  unfold POLL_INTERVAL_MS. rewrite Hwait.
  assert (Hd : delay (envStep w) = 0%N).
  { unfold envStep. rewrite <- (Hdelay 0%nat) by lia. now rewrite Nat.add_0_r. }
  rewrite Hd. unfold quitBy. rewrite Hq. cbn [it_kind].
  set (w1 := resume (clock w + 500 + Z.of_N 0) [] w).
  destruct k as [| k'].
  - cbn [runTailLoop]. eexists _, _. split; [reflexivity |].
    split; [reflexivity |]. split; [repeat constructor |].
    subst w1. cbn [resume clock quitAt trace files].
    split; [lia |]. split; [exact Hq |]. split; [apply app_nil_r | reflexivity].
  - destruct (IH w1) as (its & w' & Hrun & Hlen & Hall & Hend & Hq' & Ht & Hf).
    + exact Hne.
    + exact Hq.
    + lia.
    + subst w1. cbn [resume clock]. lia.
    + intros i Hi. subst w1. cbn [resume env awaits].
      rewrite <- (Hdelay (S i)) by lia. now rewrite Nat.add_succ_r.
    + rewrite Hrun. exists (mkIteration (clock w) false 500 (clock w + 500 + Z.of_N 0) Tick :: its), w'.
      split; [reflexivity |]. split; [simpl; now rewrite Hlen |].
      split; [constructor; [now split | exact Hall] |].
      split; [exact Hend |]. split; [exact Hq' |].
      subst w1. cbn [resume trace files] in Ht, Hf. rewrite app_nil_r in Ht. now split.
Qed.

(** X13: with punctual timers and nobody at the keyboard, the loop that
    has just shown a pass at time [lastRenderAt] polls sixty times, 500
    ms each, touches nothing meanwhile, and starts the next pass exactly
    30 seconds after the last one was shown. *)
Theorem next_pass_after_sixty_polls (renderOnce : M (list AccountResult))
    (lastRenderAt : Z) (w : World) :
  lastRenderAt <> 0 ->
  quitAt w = None ->
  clock w = lastRenderAt ->
  (forall i, (i < 60)%nat -> delay (env w (awaits w + i)%nat) = 0%N) ->
  exists its w',
    runTailLoop 60 renderOnce lastRenderAt w = (its, Ok StillRunning, w')
    /\ List.length its = 60%nat
    /\ Forall (fun it => it_kind it = Tick /\ it_waitDuration it = POLL_INTERVAL_MS) its
    /\ trace w' = trace w /\ files w' = files w
    /\ clock w' = lastRenderAt + REFRESH_INTERVAL_MS
    /\ forall it last w'',
         tailIteration renderOnce lastRenderAt w' = (it, last, w'') ->
         it_due it = true /\ it_now it = lastRenderAt + REFRESH_INTERVAL_MS.
Proof.
  intros Hne Hq Hclock Hdelay.
  destruct (punctual_ticks renderOnce lastRenderAt 60 w Hne Hq) as
    (its & w' & Hrun & Hlen & Hall & Hend & _ & Ht & Hf).
  - lia.
  - unfold REFRESH_INTERVAL_MS, POLL_INTERVAL_MS. lia.
  - exact Hdelay.
  - exists its, w'. split; [exact Hrun |]. split; [exact Hlen |]. split; [exact Hall |].
    split; [exact Ht |]. split; [exact Hf |]. split; [exact Hend |].
    intros it last w'' Hturn.
    destruct (tailIteration_spec _ _ _ _ _ _ Hturn) as (Hnow & Hdue & _).
    rewrite Hdue, Hnow, Hend. split; [| reflexivity].
    unfold isDue. apply orb_true_iff. right. apply Z.leb_le. lia.
Qed.

Lemma next_pass_after_sixty_polls_witness :
  exists its w',
    runTailLoop 60 (@renderOnce Demo.demo ["/a.json"]) 1000000
      (mkWorld 1000000 None ∅ (fun _ => Demo.quiet) 7 [])
    = (its, Ok StillRunning, w')
    /\ List.length its = 60%nat
    /\ clock w' = 1030000.
Proof.
  destruct (next_pass_after_sixty_polls (@renderOnce Demo.demo ["/a.json"]) 1000000
              (mkWorld 1000000 None ∅ (fun _ => Demo.quiet) 7 []))
    as (its & w' & Hrun & Hlen & _ & _ & _ & Hend & _).
  - discriminate.
  - reflexivity.
  - reflexivity.
  - reflexivity.
  - exists its, w'. split; [exact Hrun |]. split; [exact Hlen | exact Hend].
Defined.

(** ** The command line *)

Lemma auth_equals_arg (raw : string) :
  "--auth=" ++ raw
  = String "-" (String "-" (String "a" (String "u" (String "t" (String "h" (String "=" raw)))))).
Proof. reflexivity. Qed.

Lemma prefix_empty (s : string) : String.prefix EmptyString s = true.
Proof. now destruct s. Qed.

(** One well-formed piece is consumed as a whole and adds what it
    stands for. *)
Lemma parseArgsFrom_item (item : CliItem) (rest authPaths : list string) (tailMode : bool) :
  itemOk item = true ->
  parseArgsFrom (itemArgs item ++ rest)%list authPaths tailMode
  = parseArgsFrom rest (authPaths ++ itemPaths item)%list (tailMode || itemTail item).
Proof.
  destruct item as [| raw | value]; intros Hok; cbn [itemOk itemArgs itemPaths itemTail] in *.
  - cbn. now rewrite app_nil_r, orb_true_r.
  - rewrite auth_equals_arg. cbn -[trim isEmptyString]. apply negb_true_iff in Hok.
    rewrite Hok, prefix_empty. now rewrite orb_false_r.
  - cbn. apply negb_true_iff in Hok. rewrite Hok. now rewrite orb_false_r.
Qed.

Lemma parseArgsFrom_items (items : list CliItem) :
  forall (rest authPaths : list string) (tailMode : bool),
    forallb itemOk items = true ->
    parseArgsFrom (cliArgs items ++ rest)%list authPaths tailMode
    = parseArgsFrom rest (authPaths ++ cliPaths items)%list (tailMode || cliTail items).
Proof.
  induction items as [| item items IH]; intros rest authPaths tailMode Hok.
  - cbn. now rewrite app_nil_r, orb_false_r.
  - cbn [forallb] in Hok. apply andb_true_iff in Hok as [Hitem Hitems].
    unfold cliArgs, cliPaths, cliTail in *. cbn [List.map List.concat existsb].
    rewrite <- app_assoc, parseArgsFrom_item by exact Hitem.
    rewrite IH by exact Hitems. now rewrite <- app_assoc, orb_assoc.
Qed.

(** X14: a command line made of [--tail], [--auth=<path>] and
    [--auth <path>] in any order and number is accepted; the bundles come
    out in the order given, a path after [--auth=] trimmed, a path after
    [--auth] as it is (even if it looks like an option), and tail mode is
    on as soon as [--tail] occurs once. *)
Theorem well_formed_arguments_parse (items : list CliItem) :
  forallb itemOk items = true ->
  parseArgs (cliArgs items) = ArgsParsed (cliPaths items) (cliTail items).
Proof.
  intros Hok. unfold parseArgs.
  rewrite <- (app_nil_r (cliArgs items)), parseArgsFrom_items by exact Hok.
  reflexivity.
Qed.

Lemma well_formed_arguments_parse_witness :
  parseArgs ["--auth= /a.json "; "--tail"; "--auth"; "--help"; "--tail"]
  = ArgsParsed ["/a.json"; "--help"] true.
Proof.
  exact (well_formed_arguments_parse
           [ItemAuthEquals " /a.json "; ItemTail; ItemAuth "--help"; ItemTail] eq_refl).
Defined.

Lemma prefix_auth_equals (arg : string) :
  String.prefix "--auth=" arg = true ->
  arg = "--auth=" ++ slice_from (String.length "--auth=") arg.
Proof.
  intros Hp. rewrite auth_equals_arg.
  do 7 (destruct arg as [| a arg]; [discriminate Hp |];
        cbn [String.prefix] in Hp;
        match type of Hp with
        | (if ascii_dec ?x ?y then _ else _) = true =>
            destruct (ascii_dec x y) as [<- |]; [| discriminate Hp]
        | (if Ascii.eqb ?x ?y then _ else _) = true =>
            destruct (Ascii.eqb_spec x y) as [<- |]; [| discriminate Hp]
        end).
  reflexivity.
Qed.

(** X15: nothing else is accepted.  Whenever [parseArgs] returns, the
    command line was made of well-formed pieces, and the result is what
    these pieces stand for. *)
Theorem parsed_arguments_are_well_formed (args : list string) :
  forall (authPaths : list string) (tailMode : bool),
    parseArgs args = ArgsParsed authPaths tailMode ->
    exists items,
      args = cliArgs items
      /\ forallb itemOk items = true
      /\ authPaths = cliPaths items
      /\ tailMode = cliTail items.
Proof.
  unfold parseArgs.
  assert (Hgen : forall n args, (List.length args <= n)%nat ->
            forall acc t authPaths tailMode,
              parseArgsFrom args acc t = ArgsParsed authPaths tailMode ->
              exists items,
                args = cliArgs items
                /\ forallb itemOk items = true
                /\ authPaths = (acc ++ cliPaths items)%list
                /\ tailMode = t || cliTail items).
  { clear args. induction n as [| n IH]; intros args Hlen acc t authPaths tailMode Hrun.
    - destruct args; [| simpl in Hlen; lia].
      injection Hrun as <- <-. exists []. cbn.
      now rewrite app_nil_r, orb_false_r.
    - destruct args as [| arg rest].
      { injection Hrun as <- <-. exists []. cbn. now rewrite app_nil_r, orb_false_r. }
      cbn [parseArgsFrom] in Hrun. cbn [List.length] in Hlen.
      destruct (String.eqb arg "--help" || String.eqb arg "-h"); [discriminate |].
      destruct (String.eqb_spec arg "--tail") as [-> | _].
      { apply IH in Hrun as (items & -> & Hok & -> & ->); [| lia].
        exists (ItemTail :: items). cbn. now rewrite orb_true_r. }
      destruct (String.prefix "--auth=" arg) eqn:Hprefix.
      { destruct (isEmptyString _) eqn:Hvalue; [discriminate |].
        apply IH in Hrun as (items & -> & Hok & -> & ->); [| lia].
        exists (ItemAuthEquals (slice_from (String.length "--auth=") arg) :: items).
        split; [unfold cliArgs; cbn [List.map List.concat itemArgs];
                now rewrite <- prefix_auth_equals |].
        split; [cbn [forallb itemOk]; now rewrite Hvalue |].
        split; [unfold cliPaths; cbn [List.map List.concat itemPaths];
                now rewrite <- app_assoc |].
        reflexivity. }
      destruct (String.eqb_spec arg "--auth") as [-> | _]; [| discriminate].
      destruct rest as [| value rest]; [discriminate |].
      destruct (isEmptyString value) eqn:Hvalue; [discriminate |].
      cbn [List.length] in Hlen.
      apply IH in Hrun as (items & -> & Hok & -> & ->); [| lia].
      exists (ItemAuth value :: items).
      split; [reflexivity |].
      split; [cbn [forallb itemOk]; now rewrite Hvalue |].
      split; [unfold cliPaths; cbn [List.map List.concat itemPaths];
              now rewrite <- app_assoc |].
      reflexivity. }
  intros authPaths tailMode Hrun.
  destruct (Hgen _ args (le_n _) _ _ _ _ Hrun) as (items & Hargs & Hok & Hpaths & Htail).
  exists items. auto.
Qed.

Lemma parsed_arguments_are_well_formed_witness :
  exists items,
    ["--tail"; "--auth=/a.json"] = cliArgs items /\ forallb itemOk items = true
    /\ ["/a.json"] = cliPaths items /\ true = cliTail items.
Proof.
  exact (parsed_arguments_are_well_formed ["--tail"; "--auth=/a.json"] ["/a.json"] true eq_refl).
Defined.

(** X16: the first argument that is not part of a well-formed piece
    decides.  [--help] or [-h] ends the program with the usage whatever
    follows; an argument the script does not know (such as [--json]) is
    refused by name; [--auth] without a path, or with a blank one, is
    refused. *)
Theorem first_bad_argument_decides (items : list CliItem) (rest : list string) :
  forallb itemOk items = true ->
  parseArgs (cliArgs items ++ "--help" :: rest)%list = ArgsHelp
  /\ parseArgs (cliArgs items ++ "-h" :: rest)%list = ArgsHelp
  /\ (forall arg, unknownArg arg = true ->
        parseArgs (cliArgs items ++ arg :: rest)%list = ArgsThrow (unknownArgument arg))
  /\ (forall raw, isEmptyString (trim raw) = true ->
        parseArgs (cliArgs items ++ ("--auth=" ++ raw)%string :: rest)%list
        = ArgsThrow authRequiresPath)
  /\ parseArgs (cliArgs items ++ ["--auth"])%list = ArgsThrow authRequiresPath
  /\ parseArgs (cliArgs items ++ "--auth" :: EmptyString :: rest)%list
     = ArgsThrow authRequiresPath.
Proof.
  intros Hok. unfold parseArgs.
  rewrite !parseArgsFrom_items by exact Hok.
  split; [reflexivity |]. split; [reflexivity |].
  split.
  { intros arg Hunknown. unfold unknownArg in Hunknown.
    rewrite parseArgsFrom_items by exact Hok.
    apply negb_true_iff in Hunknown.
    repeat (apply orb_false_iff in Hunknown as [Hunknown ?]).
    cbn [parseArgsFrom].
    repeat match goal with H : _ = false |- _ => rewrite H; clear H end.
    reflexivity. }
  split.
  { intros raw Hblank. rewrite parseArgsFrom_items by exact Hok.
    rewrite auth_equals_arg. cbn -[trim isEmptyString]. now rewrite prefix_empty, Hblank. }
  split; reflexivity.
Qed.

Lemma first_bad_argument_decides_witness :
  parseArgs ["--auth=/a.json"; "--json"; "--help"]
  = ArgsThrow (newError
      "Unknown argument: --json. Only --auth=<path> and --tail are supported.")
  /\ parseArgs ["--auth=/a.json"; "--help"; "--json"] = ArgsHelp.
Proof.
  destruct (first_bad_argument_decides [ItemAuthEquals "/a.json"] ["--help"] eq_refl)
    as (_ & _ & Hunknown & _).
  destruct (first_bad_argument_decides [ItemAuthEquals "/a.json"] ["--json"] eq_refl)
    as (Hhelp & _).
  split; [exact (Hunknown "--json" eq_refl) | exact Hhelp].
Defined.

(** ** The quit key and the program *)

Lemma fold_keyHandler_resolved (keys : list (Z * string)) (calls : list Z) :
  fold_left keyHandler keys (mkTailInput true calls) = mkTailInput true calls.
Proof.
  induction keys as [| [t chunk] keys IH]; [reflexivity |].
  cbn [fold_left keyHandler resolved negb]. now destruct (isQuitKey chunk).
Qed.

Lemma feedKeys_run (keys : list (Z * string)) :
  feedKeys keys
  = match List.find (fun input => isQuitKey (snd input)) keys with
    | Some (t, _) => mkTailInput true [t]
    | None => mkTailInput false []
    end.
Proof.
  unfold feedKeys. induction keys as [| [t chunk] keys IH]; [reflexivity |].
  cbn [fold_left keyHandler List.find snd resolved negb quitCalls].
  destruct (isQuitKey chunk); [apply fold_keyHandler_resolved | exact IH].
Qed.

(** X17: however many chunks the terminal delivers, the quit is taken
    at most once, at the first chunk that is exactly [q], [Q] or Ctrl-C;
    a chunk that merely contains one of them is ignored, and without a
    terminal the signal is never aborted. *)
Theorem quit_key_is_taken_once (keys : list (Z * string)) :
  quitCalls (feedKeys keys)
  = match List.find (fun input => isQuitKey (snd input)) keys with
    | Some (t, _) => [t]
    | None => []
    end
  /\ resolved (feedKeys keys) = existsb (fun input => isQuitKey (snd input)) keys
  /\ setupTailInput (Some keys)
     = option_map fst (List.find (fun input => isQuitKey (snd input)) keys)
  /\ setupTailInput None = None.
Proof.
  assert (Hex : existsb (fun input => isQuitKey (snd input)) keys
                = match List.find (fun input => isQuitKey (snd input)) keys with
                  | Some _ => true
                  | None => false
                  end).
  { induction keys as [| [t chunk] keys IH]; [reflexivity |].
    cbn [existsb List.find snd]. now destruct (isQuitKey chunk). }
  unfold setupTailInput. rewrite feedKeys_run, Hex.
  destruct (List.find _ keys) as [[t chunk] |]; now repeat split.
Qed.

Lemma setupTailInput_some (stdin : option (list (Z * string))) (q : Z) :
  setupTailInput stdin = Some q ->
  exists keys chunk, stdin = Some keys /\ In (q, chunk) keys /\ isQuitKey chunk = true.
Proof.
  destruct stdin as [keys |]; [| discriminate]. unfold setupTailInput.
  rewrite feedKeys_run.
  destruct (List.find _ keys) as [[t chunk] |] eqn:Hfind; [| discriminate].
  intros [= ->]. apply List.find_some in Hfind as [Hin Hkey].
  exists keys, chunk. auto.
Qed.

Lemma attend_fields (quit : option Z) (w : World) :
  quitAt (attend quit w) = quit /\ trace (attend quit w) = trace w
  /\ files (attend quit w) = files w /\ clock (attend quit w) = clock w.
Proof. now repeat split. Qed.

(** X18: in single-pass mode what happens to the sessions never changes
    the exit code, and nothing typed does.  The pass always returns, with
    one entry per configured bundle in the order given.  If every card
    can be drawn the program renders once, without clearing the screen,
    and ends with exit code 0, even if every session failed.  Otherwise,
    that is when the object of some session carries a plan that is truthy
    but no string, or an account id, [lastRefresh] or email without
    primitive value, it prints the cards before that entry and the
    message of the [TypeError] and ends with exit code 1. *)
Theorem single_pass_exit_code `{Platform} (defaultPath : string)
    (stdin : option (list (Z * string))) (fuel : nat) (argv authPaths : list string)
    (w : World) :
  parseArgs argv = ArgsParsed authPaths false ->
  authPaths <> [] ->
  exists results evs w1,
    renderOnce authPaths (attend None w) = (Ok results, w1)
    /\ trace w1 = (trace w ++ evs)%list
    /\ Forall (passEvent (List.map path_resolve authPaths)) evs
    /\ List.map entryFile results = List.map path_resolve authPaths
    /\ (forall q, ~ In q (List.map path_resolve authPaths) -> files w1 !! q = files w !! q)
    /\ (drawable results = true ->
        main defaultPath stdin fuel argv w = (Exit 0, log (EvRender false results) w1))
    /\ (drawable results = false ->
        exists e w',
          main defaultPath stdin fuel argv w = (Exit 1, w')
          /\ drawError e
          /\ stoppedByCard authPaths false (attend None w) w' e).
Proof.
  intros Hargs Hne. unfold main. rewrite Hargs.
  destruct authPaths as [| p ps] eqn:Hpaths; [contradiction |]. rewrite <- Hpaths.
  cbn [negb]. unfold mainOnce, bind.
  destruct (renderOnce authPaths (attend None w)) as [[results | e] w1] eqn:Hpass.
  - exists results.
    pose proof (renderOnce_texts _ _ _ _ Hpass) as Htexts.
    pose proof Hpass as Hrun. unfold renderOnce in Hrun.
    apply bind_inv in Hrun as [([] & w0 & Hcheck & Hrun) | (e & _ & He)]; [| discriminate].
    apply ensureNotAborted_inv in Hcheck as (-> & _).
    destruct (renderAccounts_effects _ _ _ _ _ Hrun)
      as ((evs & Ht & Ho & _) & Hframe & Hok).
    destruct (Hok results eq_refl) as (entries & Hall & Hfiles & _).
    cbn [app] in Hall. subst entries.
    exists evs, w1. split; [reflexivity |]. split; [exact Ht |]. split; [exact Ho |].
    split; [exact Hfiles |]. split; [exact Hframe |].
    unfold renderResults.
    destruct (drawCards_run results Htexts)
      as [[Hgood ->] | (printed & u & rest & e & Hsplit & Hprinted & Hbad & ->)].
    + split; [reflexivity |]. rewrite Hgood. discriminate.
    + split.
      * rewrite Hsplit, (drawable_stopped _ _ _ _ Hbad). discriminate.
      * intros _. pose proof (cardError_drawError _ _ Hbad) as Hdraw.
        exists e. eexists. rewrite (drawError_text _ Hdraw).
        split; [reflexivity |]. split; [exact Hdraw |].
        exists results, w1, printed, u, rest. auto.
  - apply renderOnce_run in Hpass as [(Hq & _) Hthrow].
    destruct (Hthrow e eq_refl) as [_ Hab].
    rewrite aborted_unattended in Hab; [discriminate | now rewrite Hq].
Qed.

Lemma single_pass_exit_code_witness :
  (exists results evs w1,
      @main Demo.demo "/home/.codex/auth.json" (Some [(0, "q")]) 0
        ["--auth=/missing.json"; "--auth"; "/b.json"] Demo.twoBundles
      = (Exit 0, log (EvRender false results) w1)
      /\ trace w1 = ([] ++ evs)%list
      /\ List.map entryFile results = ["/missing.json"; "/b.json"])
  /\ (exists e w',
        @main oddPlatform "/home/.codex/auth.json" None 0 ["--auth=/a.json"] oddPlan
        = (Exit 1, w')
        /\ drawError e
        /\ @stoppedByCard oddPlatform ["/a.json"] false (attend None oddPlan) w' e).
Proof.
  split.
  - destruct (@single_pass_exit_code Demo.demo "/home/.codex/auth.json" (Some [(0, "q")]) 0
                ["--auth=/missing.json"; "--auth"; "/b.json"] ["/missing.json"; "/b.json"]
                Demo.twoBundles eq_refl)
      as (results & evs & w1 & Hrun & Ht & _ & Hfiles & _ & Hgood & _); [discriminate |].
    exists results, evs, w1. split; [| split; [exact Ht | exact Hfiles]].
    apply Hgood. vm_compute in Hrun. injection Hrun as <- _. reflexivity.
  - destruct (@single_pass_exit_code oddPlatform "/home/.codex/auth.json" None 0
                ["--auth=/a.json"] ["/a.json"] oddPlan eq_refl)
      as (results & evs & w1 & Hrun & _ & _ & _ & _ & _ & Hbad); [discriminate |].
    apply Hbad. vm_compute in Hrun. injection Hrun as <- _. reflexivity.
Defined.

(** X19: in tail mode, once the bundles are known, the program never
    ends with exit code 1, whatever happens to the sessions.  It ends,
    with code 0, only after a chunk that is a quit key arrived, or after
    a card could not be drawn and the message of its [TypeError] was
    printed; without a terminal, or when no chunk is a quit key, only the
    latter ends it, and otherwise it is still running after any number
    of turns. *)
Theorem tail_mode_exits_with_zero `{Platform} (defaultPath : string)
    (stdin : option (list (Z * string))) (fuel : nat) (argv authPaths : list string)
    (w : World) :
  parseArgs argv = ArgsParsed authPaths true ->
  authPaths <> [] ->
  exists how w',
    main defaultPath stdin fuel argv w = (how, w')
    /\ match how with
       | Exit code =>
           code = 0
           /\ ((exists keys t chunk,
                  stdin = Some keys /\ In (t, chunk) keys /\ isQuitKey chunk = true
                  /\ t <= clock w')
               \/ exists e evs printed,
                    drawError e
                    /\ trace w' = (evs ++ [EvRender true printed;
                                           EvConsoleError (err_message e)])%list)
       | Running => True
       end
    /\ (setupTailInput stdin = None ->
        how = Running
        \/ exists e evs printed,
             drawError e
             /\ trace w' = (evs ++ [EvRender true printed;
                                    EvConsoleError (err_message e)])%list).
Proof.
  intros Hargs Hne. unfold main. rewrite Hargs.
  destruct authPaths as [| p ps] eqn:Hpaths; [contradiction |]. rewrite <- Hpaths.
  cbn [negb].
  destruct (runTailLoop fuel (renderOnce authPaths) 0 (attend (setupTailInput stdin) w))
    as [[its r] w1] eqn:Hloop.
  destruct (runTailLoop_over_pass _ _ _ _ _ _ _ Hloop)
    as [_ [[-> (q & Hsome & Hle)]
          | [[-> (pre & it & e & evs & printed & _ & _ & Hdraw & Ht)] | (-> & _)]]].
  - eexists _, _. split; [reflexivity |]. cbn [attend quitAt] in Hsome.
    split; [| intros Hnone; rewrite Hnone in Hsome; discriminate].
    split; [reflexivity |]. left.
    destruct (setupTailInput_some _ _ Hsome) as (keys & chunk & Hstdin & Hin & Hkey).
    exists keys, q, chunk. auto.
  - eexists _, _. split; [reflexivity |].
    split; [split; [reflexivity |] |]; right; eauto.
  - eexists _, _. split; [reflexivity |]. split; [exact I | now left].
Qed.

Lemma tail_mode_exits_with_zero_witness :
  fst (@main Demo.demo "/home/.codex/auth.json" (Some [(1000002, "qq"); (1000003, "q")]) 5
         ["--tail"; "--auth=/a.json"] Demo.slowPass) = Exit 0
  /\ fst (@main Demo.demo "/home/.codex/auth.json" None 5
            ["--tail"; "--auth=/a.json"] Demo.slowPass) = Running
  /\ exists w' e evs printed,
       @main oddPlatform "/home/.codex/auth.json" None 5 ["--tail"; "--auth=/a.json"] oddPlan
       = (Exit 0, w')
       /\ drawError e
       /\ trace w' = (evs ++ [EvRender true printed; EvConsoleError (err_message e)])%list.
Proof.
  split; [reflexivity |]. split; [reflexivity |].
  destruct (@tail_mode_exits_with_zero oddPlatform "/home/.codex/auth.json" None 5
              ["--tail"; "--auth=/a.json"] ["/a.json"] oddPlan eq_refl)
    as (how & w' & Hrun & Hhow & Hnone); [discriminate |].
  destruct (Hnone eq_refl) as [-> | (e & evs & printed & Hdraw & Ht)].
  - vm_compute in Hrun. discriminate Hrun.
  - exists w', e, evs, printed. split; [| split; [exact Hdraw | exact Ht]].
    rewrite Hrun. f_equal.
    destruct how as [code |]; [now destruct Hhow as [-> _] |].
    vm_compute in Hrun. discriminate Hrun.
Defined.

(** X20: when the command line names no bundle, the program looks for
    the default one.  If it is there, the run is that of the same command
    line with [--auth <default>] added, one file check later; if it is
    not, or cannot be examined, the program prints where it looked and
    exits with code 1 before any session starts, in tail mode too. *)
Theorem default_bundle_when_none_given `{Platform} (defaultPath : string)
    (stdin : option (list (Z * string))) (fuel : nat) (items : list CliItem) (w : World) :
  forallb itemOk items = true ->
  cliPaths items = [] ->
  defaultPath <> EmptyString ->
  let checked := resume (clock w + Z.of_N (delay (envStep w))) [] w in
  main defaultPath stdin fuel (cliArgs items) w
  = match fs_fail (envStep w), files w !! defaultPath with
    | None, Some _ =>
        main defaultPath stdin fuel (cliArgs items ++ ["--auth"; defaultPath])%list checked
    | _, _ => (Exit 1, log (EvConsoleError (defaultMissing defaultPath)) checked)
    end.
Proof.
  intros Hok Hnone Hdefault checked.
  assert (Hbare : parseArgs (cliArgs items) = ArgsParsed [] (cliTail items)).
  { unfold parseArgs. rewrite <- (app_nil_r (cliArgs items)).
    rewrite parseArgsFrom_items by exact Hok. now rewrite Hnone. }
  assert (Hfull : parseArgs (cliArgs items ++ ["--auth"; defaultPath])%list
                  = ArgsParsed [defaultPath] (cliTail items)).
  { unfold parseArgs. rewrite parseArgsFrom_items by exact Hok. rewrite Hnone.
    cbn. destruct defaultPath; [contradiction | reflexivity]. }
  unfold main. rewrite Hbare, Hfull. unfold fileExists. fold checked.
  destruct (fs_fail (envStep w)); [reflexivity |].
  destruct (files w !! defaultPath); reflexivity.
Qed.

Lemma default_bundle_when_none_given_witness :
  @main Demo.demo "/b.json" None 0 [] Demo.twoBundles
  = @main Demo.demo "/b.json" None 0 ["--auth"; "/b.json"]
      (resume 1000001 [] Demo.twoBundles)
  /\ @main Demo.demo "/a.json" None 3 ["--tail"] Demo.twoBundles
     = (Exit 1, log (EvConsoleError
                       "Default auth file /a.json not found. Please pass --auth=/path/to/auth.json.")
                  (resume 1000001 [] Demo.twoBundles)).
Proof.
  split.
  - exact (@default_bundle_when_none_given Demo.demo "/b.json" None 0 [] Demo.twoBundles
             eq_refl eq_refl ltac:(discriminate)).
  - exact (@default_bundle_when_none_given Demo.demo "/a.json" None 3 [ItemTail]
             Demo.twoBundles eq_refl eq_refl ltac:(discriminate)).
Defined.

(** ** Cards *)

Lemma string_app_cons (a : ascii) (s t : string) : String a s ++ t = String a (s ++ t).
Proof. reflexivity. Qed.

Lemma string_app_assoc (s t u : string) : (s ++ t) ++ u = s ++ (t ++ u).
Proof.
  induction s as [| a s IH]; [reflexivity |]. rewrite !string_app_cons. now rewrite IH.
Qed.

Lemma skipParams_length (s : string) : (String.length (skipParams s) <= String.length s)%nat.
Proof.
  induction s as [| a s IH]; [reflexivity |]. cbn [skipParams].
  destruct (isParam a); cbn [String.length]; lia.
Qed.

Lemma matchAnsi_length (s rest : string) :
  matchAnsi s = Some rest -> (String.length rest < String.length s)%nat.
Proof.
  destruct s as [| a [| b s]]; try discriminate. cbn [matchAnsi].
  destruct (Ascii.eqb a ESC && Ascii.eqb b "["%char); [| discriminate].
  pose proof (skipParams_length s) as Hlen.
  destruct (skipParams s) as [| c rest']; [discriminate |].
  destruct (Ascii.eqb c "m"%char); [| discriminate].
  intros [= <-]. cbn [String.length] in *. lia.
Qed.

Lemma stripAnsiFrom_enough (n : nat) :
  forall (m : nat) (s : string),
    (String.length s <= n)%nat -> (String.length s <= m)%nat ->
    stripAnsiFrom n s = stripAnsiFrom m s.
Proof.
  induction n as [| n IH]; intros m s Hn Hm.
  - destruct s; [| cbn [String.length] in Hn; lia]. now destruct m.
  - destruct m as [| m].
    + destruct s; [reflexivity | cbn [String.length] in Hm; lia].
    + cbn [stripAnsiFrom]. destruct (matchAnsi s) as [rest |] eqn:Hmatch.
      * apply matchAnsi_length in Hmatch. apply IH; lia.
      * destruct s as [| a s]; [reflexivity |]. cbn [String.length] in *.
        f_equal. apply IH; lia.
Qed.

(** [stripAnsi] from left to right: a match is dropped, any other code
    unit is kept. *)
Lemma stripAnsi_step (s : string) :
  stripAnsi s
  = match matchAnsi s with
    | Some rest => stripAnsi rest
    | None =>
        match s with
        | EmptyString => EmptyString
        | String a rest => String a (stripAnsi rest)
        end
    end.
Proof.
  unfold stripAnsi. destruct s as [| a s]; [reflexivity |].
  cbn [String.length stripAnsiFrom].
  destruct (matchAnsi (String a s)) as [rest |] eqn:Hmatch; [| reflexivity].
  apply matchAnsi_length in Hmatch. cbn [String.length] in Hmatch.
  apply stripAnsiFrom_enough; lia.
Qed.

Lemma matchAnsi_not_escape (a : ascii) (s : string) :
  Ascii.eqb a ESC = false -> matchAnsi (String a s) = None.
Proof. intros Ha. cbn [matchAnsi]. destruct s; [reflexivity |]. now rewrite Ha. Qed.

Lemma stripAnsi_keeps (a : ascii) (s : string) :
  Ascii.eqb a ESC = false -> stripAnsi (String a s) = String a (stripAnsi s).
Proof. intros Ha. rewrite stripAnsi_step. now rewrite matchAnsi_not_escape. Qed.

(** Text without an escape passes unchanged, whatever follows it. *)
Lemma stripAnsi_plain_app (s t : string) :
  has_char ESC s = false -> stripAnsi (s ++ t) = s ++ stripAnsi t.
Proof.
  induction s as [| a s IH]; [reflexivity |]. cbn [has_char].
  intros Hplain. apply orb_false_iff in Hplain as [Ha Hs].
  rewrite !string_app_cons, stripAnsi_keeps by exact Ha. now rewrite IH.
Qed.

Lemma stripAnsi_plain (s : string) : has_char ESC s = false -> stripAnsi s = s.
Proof.
  intros Hplain. rewrite <- (append_empty_r s) at 1.
  rewrite stripAnsi_plain_app by exact Hplain. now rewrite append_empty_r.
Qed.

Lemma stripAnsi_color (code s : string) :
  skipParams code = EmptyString ->
  stripAnsi (String ESC (String "[" (code ++ String "m" s))) = stripAnsi s.
Proof.
  intros Hcode. rewrite stripAnsi_step. cbn [matchAnsi].
  change (Ascii.eqb ESC ESC && Ascii.eqb "[" "[")%char with true. cbv iota.
  assert (Hskip : skipParams (code ++ String "m" s) = String "m" s).
  { induction code as [| c code IH]; [reflexivity |].
    rewrite string_app_cons. cbn [skipParams] in *.
    destruct (isParam c); [now apply IH | discriminate]. }
  rewrite Hskip. reflexivity.
Qed.

(** The three colour codes of the script are dropped. *)
Lemma stripAnsi_colors (color s : string) :
  color = KEY_COLOR \/ color = VALUE_COLOR \/ color = RESET_COLOR ->
  stripAnsi (color ++ s) = stripAnsi s.
Proof.
  intros [-> | [-> | ->]].
  - exact (stripAnsi_color "36" s eq_refl).
  - exact (stripAnsi_color "97" s eq_refl).
  - exact (stripAnsi_color "0" s eq_refl).
Qed.

Lemma skipParams_app_stop (s t : string) (c : ascii) (rest : string) :
  skipParams s = String c rest -> skipParams (s ++ t) = String c (rest ++ t).
Proof.
  induction s as [| a s IH]; [discriminate |]. rewrite string_app_cons.
  cbn [skipParams]. destruct (isParam a); [exact IH |].
  intros [= <- <-]. reflexivity.
Qed.

Lemma skipParams_app_all (s t : string) :
  skipParams s = EmptyString -> skipParams (s ++ t) = skipParams t.
Proof.
  induction s as [| a s IH]; [reflexivity |]. rewrite string_app_cons.
  cbn [skipParams]. destruct (isParam a); [exact IH | discriminate].
Qed.

Lemma matchAnsi_app_some (s t rest : string) :
  matchAnsi s = Some rest -> matchAnsi (s ++ t) = Some (rest ++ t).
Proof.
  destruct s as [| a [| b s]]; try discriminate.
  rewrite !string_app_cons. cbn [matchAnsi].
  destruct (Ascii.eqb a ESC && Ascii.eqb b "["%char); [| discriminate].
  destruct (skipParams s) as [| c rest'] eqn:Hskip; [discriminate |].
  rewrite (skipParams_app_stop _ t _ _ Hskip).
  destruct (Ascii.eqb c "m"%char); [| discriminate]. now intros [= <-].
Qed.

(** A space closes no escape sequence. *)
Lemma matchAnsi_app_space (s t : string) :
  matchAnsi s = None -> matchAnsi (s ++ String " " t) = None.
Proof.
  destruct s as [| a [| b s]].
  - intros _. now apply matchAnsi_not_escape.
  - intros _. rewrite string_app_cons. cbn [matchAnsi].
    change (String.append EmptyString (String " " t)) with (String " " t). cbv iota.
    now rewrite andb_false_r.
  - rewrite !string_app_cons. cbn [matchAnsi].
    destruct (Ascii.eqb a ESC && Ascii.eqb b "["%char); [| reflexivity].
    destruct (skipParams s) as [| c rest'] eqn:Hskip.
    + now rewrite (skipParams_app_all _ _ Hskip).
    + rewrite (skipParams_app_stop _ _ _ _ Hskip).
      now destruct (Ascii.eqb c "m"%char).
Qed.

Lemma stripAnsi_space_app (n : nat) :
  forall (s t : string),
    (String.length s <= n)%nat ->
    stripAnsi (s ++ String " " t) = stripAnsi s ++ String " " (stripAnsi t).
Proof.
  induction n as [| n IH]; intros s t Hlen.
  - destruct s; [| cbn [String.length] in Hlen; lia].
    change (EmptyString ++ String " " t) with (String " " t).
    now rewrite stripAnsi_keeps.
  - rewrite (stripAnsi_step (s ++ String " " t)), (stripAnsi_step s).
    destruct (matchAnsi s) as [rest |] eqn:Hmatch.
    + rewrite (matchAnsi_app_some _ _ _ Hmatch).
      apply matchAnsi_length in Hmatch. apply IH. lia.
    + rewrite (matchAnsi_app_space _ _ Hmatch).
      destruct s as [| a s].
      * change (EmptyString ++ String " " t) with (String " " t). reflexivity.
      * rewrite !string_app_cons. cbn [String.length] in Hlen.
        rewrite IH by lia. reflexivity.
Qed.

Lemma has_char_app (c : ascii) (s t : string) :
  has_char c (s ++ t) = has_char c s || has_char c t.
Proof.
  induction s as [| a s IH]; [reflexivity |]. rewrite string_app_cons.
  cbn [has_char]. now rewrite IH, orb_assoc.
Qed.

Lemma has_char_repeat (c a : ascii) (n : nat) :
  Ascii.eqb a c = false -> has_char c (repeat_string (String a EmptyString) n) = false.
Proof.
  intros Ha. induction n as [| n IH]; [reflexivity |]. cbn [repeat_string].
  rewrite has_char_app, IH. cbn [has_char]. now rewrite Ha.
Qed.

Lemma max_of_bound (ns : list nat) (n : nat) : In n ns -> (n <= max_of ns)%nat.
Proof.
  induction ns as [| m ns IH]; [contradiction |]. cbn [max_of fold_right].
  intros [-> | Hin]; [lia |]. apply IH in Hin. unfold max_of in Hin. lia.
Qed.

Lemma length_padEnd (s : string) (width : nat) (fill : ascii) :
  String.length (padEnd s width fill) = Nat.max (String.length s) width.
Proof.
  unfold padEnd. rewrite length_append, length_repeat_string. cbn [String.length]. lia.
Qed.

Lemma has_char_padEnd (c : ascii) (s : string) (width : nat) (fill : ascii) :
  Ascii.eqb fill c = false -> has_char c (padEnd s width fill) = has_char c s.
Proof.
  intros Hfill. unfold padEnd. rewrite has_char_app, has_char_repeat by exact Hfill.
  apply orb_false_r.
Qed.

(** What is seen of the line of a pair. *)
Lemma stripAnsi_pairLine (width : nat) (pair : string * string) :
  has_char ESC (fst pair) = false -> has_char ESC (snd pair) = false ->
  stripAnsi (pairLine width pair) = padEnd (fst pair) width " " ++ ": " ++ snd pair.
Proof.
  intros Hkey Hvalue. unfold pairLine. cbv zeta.
  rewrite !string_app_assoc.
  rewrite (stripAnsi_colors KEY_COLOR) by auto.
  rewrite stripAnsi_plain_app by (now rewrite has_char_padEnd).
  rewrite (stripAnsi_colors RESET_COLOR) by auto.
  rewrite (stripAnsi_plain_app ": ") by reflexivity.
  rewrite (stripAnsi_colors VALUE_COLOR) by auto.
  rewrite stripAnsi_plain_app by exact Hvalue.
  rewrite <- (append_empty_r RESET_COLOR).
  rewrite (stripAnsi_colors RESET_COLOR) by auto.
  change (stripAnsi EmptyString) with EmptyString. now rewrite append_empty_r.
Qed.

Lemma cleanPair_plain (pair : string * option string) :
  has_char ESC (fst pair) = false ->
  (forall value, snd pair = Some value -> has_char ESC value = false) ->
  has_char ESC (fst (cleanPair pair)) = false /\ has_char ESC (snd (cleanPair pair)) = false.
Proof.
  destruct pair as [key [value |]]; unfold cleanPair; cbn [fst snd default];
    intros Hkey Hvalue; (split; [now destruct key |]); [now apply Hvalue | reflexivity].
Qed.

(** X21: the lines of a table of pairs line up.  With keys and values
    free of escape characters there is one line per pair, and what is
    seen of a line, that is what [stripAnsi] leaves of it, is the key (a
    dash for an empty one) padded with spaces to the width of the longest
    key, a colon and a space, and the value (a dash for a missing one):
    the colours add nothing visible and every colon is in the same
    column. *)
Theorem pairs_line_up (pairs : list (string * option string)) :
  Forall (fun pair => has_char ESC (fst pair) = false
                      /\ forall value, snd pair = Some value -> has_char ESC value = false)
    pairs ->
  let cleaned := List.map cleanPair pairs in
  let width := keyWidth cleaned in
  List.map stripAnsi (formatKeyValuePairs pairs)
  = List.map (fun pair => padEnd (fst pair) width " " ++ ": " ++ snd pair) cleaned
  /\ Forall (fun pair => String.length (padEnd (fst pair) width " ") = width) cleaned
  /\ Forall2 (fun pair line => visibleLength line
                               = (width + 2 + String.length (snd pair))%nat)
       cleaned (formatKeyValuePairs pairs).
Proof.
  intros Hplain cleaned width.
  assert (Hformat : formatKeyValuePairs pairs = List.map (pairLine width) cleaned).
  { subst cleaned width. now destruct pairs. }
  assert (Hclean : Forall (fun pair => has_char ESC (fst pair) = false
                                       /\ has_char ESC (snd pair) = false) cleaned).
  { subst cleaned. apply List.Forall_forall. intros pair Hin.
    apply in_map_iff in Hin as (raw & <- & Hin).
    rewrite List.Forall_forall in Hplain. destruct (Hplain raw Hin) as [Hkey Hvalue].
    now apply cleanPair_plain. }
  assert (Hwidth : Forall (fun pair => String.length (padEnd (fst pair) width " ") = width)
                     cleaned).
  { apply List.Forall_forall. intros pair Hin. rewrite length_padEnd.
    assert (String.length (fst pair) <= width)%nat; [| lia].
    apply max_of_bound. apply in_map_iff. now exists pair. }
  rewrite Hformat. clearbody width. clear Hformat.
  induction cleaned as [| pair cleaned' IH]; [repeat split; constructor |].
  apply Forall_cons_1 in Hclean as [[Hkey Hvalue] Hclean].
  apply Forall_cons_1 in Hwidth as [Hpair Hwidth].
  destruct (IH Hclean Hwidth) as (Hseen & _ & Hlen).
  cbn [List.map]. rewrite Hseen, stripAnsi_pairLine by assumption.
  split; [reflexivity |]. split; [now constructor |].
  constructor; [| exact Hlen].
  unfold visibleLength. rewrite stripAnsi_pairLine by assumption.
  rewrite !length_append, Hpair. cbn [String.length]. lia.
Qed.

Lemma pairs_line_up_witness :
  List.map stripAnsi (formatKeyValuePairs [("Email", None); (EmptyString, Some "x"); ("Allowed", Some "YES")])
  = ["Email  : -"; "-      : x"; "Allowed: YES"].
Proof.
  refine (eq_trans
            (proj1 (pairs_line_up [("Email", None); (EmptyString, Some "x"); ("Allowed", Some "YES")] _))
            eq_refl).
  repeat constructor; intros value [= <-]; reflexivity.
Defined.

Lemma frame_row_plain (left fill right : ascii) (n : nat) :
  Ascii.eqb left ESC = false -> Ascii.eqb fill ESC = false -> Ascii.eqb right ESC = false ->
  has_char ESC (String left (repeat_string (String fill EmptyString) n
                             ++ String right EmptyString)) = false.
Proof.
  intros Hl Hf Hr. cbn [has_char]. rewrite Hl, has_char_app, has_char_repeat by exact Hf.
  cbn [has_char]. now rewrite Hr.
Qed.

Lemma length_frame_row (left fill right : ascii) (n : nat) :
  String.length (String left (repeat_string (String fill EmptyString) n
                              ++ String right EmptyString)) = (n + 2)%nat.
Proof.
  cbn [String.length]. rewrite length_append, length_repeat_string.
  cbn [String.length]. lia.
Qed.

(** What is seen of a line of the body. *)
Lemma visibleLength_cardLine (frame : Frame) (padWidth : nat) (line : string) :
  Ascii.eqb (vertical frame) ESC = false ->
  visibleLength (cardLine frame padWidth line)
  = (Nat.max padWidth (visibleLength line) + 4)%nat.
Proof.
  intros Hv. unfold cardLine.
  set (pad := Z.to_nat (Z.max 0 (Z.of_nat padWidth - Z.of_nat (visibleLength line)))).
  assert (Hpad : (pad = padWidth - visibleLength line)%nat) by (subst pad; lia).
  clearbody pad.
  assert (Htail : exists rest,
             repeat_string " " pad ++ " " ++ String (vertical frame) EmptyString
             = String " " rest
             /\ has_char ESC rest = false /\ String.length rest = S pad).
  { destruct pad as [| pad'].
    - exists (String (vertical frame) EmptyString). split; [reflexivity |].
      cbn [has_char String.length]. now rewrite Hv.
    - exists (repeat_string " " pad' ++ " " ++ String (vertical frame) EmptyString).
      split; [reflexivity |]. split.
      + rewrite !has_char_app, has_char_repeat by reflexivity.
        cbn [has_char]. now rewrite Hv.
      + rewrite !length_append, length_repeat_string. cbn [String.length]. lia. }
  destruct Htail as (rest & -> & Hplain & Hlen).
  unfold visibleLength at 1.
  rewrite stripAnsi_keeps by exact Hv.
  change (" " ++ line ++ String " " rest) with (String " " (line ++ String " " rest)).
  rewrite stripAnsi_keeps by reflexivity.
  rewrite (stripAnsi_space_app (String.length line)) by lia.
  rewrite (stripAnsi_plain rest) by exact Hplain.
  cbn [String.length]. rewrite length_append. cbn [String.length]. rewrite Hlen.
  unfold visibleLength in *. lia.
Qed.

(** X22: a card is a rectangle.  Whatever the lines hold, colour codes
    or fragments of them included, the top, the bottom and every line of
    the body are seen as wide as the widest line plus four: no line is
    cut and none sticks out. *)
Theorem card_is_a_rectangle (frame : Frame) (lines : list (option string)) :
  Ascii.eqb (topLeft frame) ESC = false -> Ascii.eqb (topRight frame) ESC = false ->
  Ascii.eqb (bottomLeft frame) ESC = false -> Ascii.eqb (bottomRight frame) ESC = false ->
  Ascii.eqb (horizontal frame) ESC = false -> Ascii.eqb (vertical frame) ESC = false ->
  let content := List.map (default EmptyString) lines in
  let width := cardWidth content in
  drawCard frame lines
  = cardTop frame width ++ newline
    ++ join newline (List.map (cardLine frame width) content) ++ newline
    ++ cardBottom frame width
  /\ visibleLength (cardTop frame width) = (width + 4)%nat
  /\ visibleLength (cardBottom frame width) = (width + 4)%nat
  /\ Forall (fun line => visibleLength (cardLine frame width line) = (width + 4)%nat
                         /\ exists pad,
                              cardLine frame width line
                              = String (vertical frame)
                                  (" " ++ line ++ repeat_string " " pad ++ " "
                                   ++ String (vertical frame) EmptyString))
      content.
Proof.
  intros Htl Htr Hbl Hbr Hh Hv content width.
  split; [reflexivity |].
  split.
  { unfold visibleLength, cardTop. rewrite stripAnsi_plain by now apply frame_row_plain.
    rewrite length_frame_row. lia. }
  split.
  { unfold visibleLength, cardBottom. rewrite stripAnsi_plain by now apply frame_row_plain.
    rewrite length_frame_row. lia. }
  apply List.Forall_forall. intros line Hin.
  split; [| now eexists].
  rewrite visibleLength_cardLine by exact Hv.
  assert (visibleLength line <= width)%nat; [| lia].
  apply max_of_bound. apply in_map_iff. now exists line.
Qed.

Lemma card_is_a_rectangle_witness :
  Forall (fun line => visibleLength (cardLine (mkFrame "+" "+" "+" "+" "-" "|") 6 line) = 10%nat)
    [KEY_COLOR ++ "Email" ++ RESET_COLOR; "a@b.io"; String ESC "[3"].
Proof.
  destruct (card_is_a_rectangle (mkFrame "+" "+" "+" "+" "-" "|")
              [Some (KEY_COLOR ++ "Email" ++ RESET_COLOR); Some "a@b.io"; Some (String ESC "[3")]
              eq_refl eq_refl eq_refl eq_refl eq_refl eq_refl) as (_ & _ & _ & Hbody).
  eapply List.Forall_impl; [| exact Hbody]. intros line [Hlen _]. exact Hlen.
Defined.

(** ** The progress bar *)

Lemma Qfloor_at_least (n : Z) (x : Q) : n <= Qfloor x <-> (inject_Z n <= x)%Q.
Proof.
  split; intros Hle.
  - apply Qle_trans with (inject_Z (Qfloor x)); [now rewrite <- Zle_Qle | apply Qfloor_le].
  - rewrite <- (Qfloor_Z n). now apply Qfloor_resp_le.
Qed.

Lemma clamp_bounds (value : Q) :
  let clamped := Qmin 100 (Qmax 0 value) in
  (0 <= clamped /\ clamped <= 100
   /\ (value <= 0 -> clamped == 0)
   /\ (100 <= value -> clamped == 100))%Q.
Proof.
  unfold Qmin, Qmax.
  destruct (Qle_bool 0 value) eqn:Hlow.
  - apply Qle_bool_iff in Hlow.
    destruct (Qle_bool 100 value) eqn:Hhigh.
    + apply Qle_bool_iff in Hhigh. cbv zeta. repeat split; intros; lra.
    + assert (~ (100 <= value)%Q) by (rewrite <- Qle_bool_iff; now rewrite Hhigh).
      cbv zeta. repeat split; intros; lra.
  - assert (~ (0 <= value)%Q) by (rewrite <- Qle_bool_iff; now rewrite Hlow).
    change (Qle_bool 100 0) with false. cbv zeta iota.
    repeat split; intros; lra.
Qed.

Lemma clamp_monotone (v v' : Q) :
  (v <= v' -> Qmin 100 (Qmax 0 v) <= Qmin 100 (Qmax 0 v'))%Q.
Proof.
  intros Hle. unfold Qmin, Qmax.
  destruct (Qle_bool 0 v) eqn:Hv; destruct (Qle_bool 0 v') eqn:Hv';
    repeat match goal with
           | H : Qle_bool _ _ = true |- _ => apply Qle_bool_iff in H
           | H : Qle_bool ?a ?b = false |- _ =>
               assert (~ (a <= b)%Q) by (rewrite <- Qle_bool_iff; now rewrite H); clear H
           end;
    repeat match goal with
           | |- context [Qle_bool ?a ?b] =>
               let H := fresh "H" in
               destruct (Qle_bool a b) eqn:H;
               [apply Qle_bool_iff in H
               | assert (~ (a <= b)%Q) by (rewrite <- Qle_bool_iff; now rewrite H); clear H]
           end;
    lra.
Qed.

(** A rounded result lies between the integers that its exact value lies
    between. *)
Lemma fl_between `{Doubles} (m n : Z) (x : Q) :
  0 <= m <= 100 -> 0 <= n <= 100 ->
  (inject_Z m <= x)%Q -> (x <= inject_Z n)%Q ->
  (inject_Z m <= fl x)%Q /\ (fl x <= inject_Z n)%Q.
Proof.
  intros Hm Hn Hlow Hhigh. split.
  - rewrite <- (fl_integer m Hm). now apply fl_monotone.
  - rewrite <- (fl_integer n Hn). now apply fl_monotone.
Qed.

(** The product of line 469 as the arithmetic computes it. *)
Lemma barProduct_bounds `{Doubles} (clamped : Q) :
  (0 <= clamped)%Q -> (clamped <= 100)%Q ->
  (0 <= fl (fl (clamped / 100) * 20) /\ fl (fl (clamped / 100) * 20) <= 20
   /\ (clamped == 0 -> fl (fl (clamped / 100) * 20) == 0)
   /\ (clamped == 100 -> fl (fl (clamped / 100) * 20) == 20))%Q.
Proof.
  intros Hlow Hhigh.
  assert (Hdiv : (clamped / 100 == clamped * (1 # 100))%Q) by reflexivity.
  destruct (fl_between 0 1 (clamped / 100)) as [Ha0 Ha1]; try lia.
  { rewrite Hdiv. change (inject_Z 0) with 0%Q. lra. }
  { rewrite Hdiv. change (inject_Z 1) with 1%Q. lra. }
  change (inject_Z 0) with 0%Q in Ha0. change (inject_Z 1) with 1%Q in Ha1.
  destruct (fl_between 0 20 (fl (clamped / 100) * 20)) as [Hb0 Hb1]; try lia.
  { change (inject_Z 0) with 0%Q. lra. }
  { change (inject_Z 20) with 20%Q. lra. }
  change (inject_Z 0) with 0%Q in Hb0. change (inject_Z 20) with 20%Q in Hb1.
  split; [exact Hb0 |]. split; [exact Hb1 |]. split.
  - intros Hzero.
    destruct (fl_between 0 0 (clamped / 100)) as [_ Hup]; try lia.
    { rewrite Hdiv. change (inject_Z 0) with 0%Q. lra. }
    { rewrite Hdiv. change (inject_Z 0) with 0%Q. lra. }
    change (inject_Z 0) with 0%Q in Hup.
    destruct (fl_between 0 0 (fl (clamped / 100) * 20)) as [_ Hup']; try lia.
    { change (inject_Z 0) with 0%Q. lra. }
    { change (inject_Z 0) with 0%Q. lra. }
    change (inject_Z 0) with 0%Q in Hup'. lra.
  - intros Hfull.
    destruct (fl_between 1 1 (clamped / 100)) as [Hdown _]; try lia.
    { rewrite Hdiv. change (inject_Z 1) with 1%Q. lra. }
    { rewrite Hdiv. change (inject_Z 1) with 1%Q. lra. }
    change (inject_Z 1) with 1%Q in Hdown.
    destruct (fl_between 20 20 (fl (clamped / 100) * 20)) as [Hdown' _]; try lia.
    { change (inject_Z 20) with 20%Q. lra. }
    { change (inject_Z 20) with 20%Q. lra. }
    change (inject_Z 20) with 20%Q in Hdown'. lra.
Qed.

Lemma barFilled_unfold `{Doubles} (value : Q) :
  barFilled value = Qfloor (fl (fl (Qmin 100 (Qmax 0 value) / 100) * 20) + (1 # 2))%Q.
Proof. reflexivity. Qed.

(** X23: the bar of a number always has twenty cells between brackets,
    filled cells first, whatever the rounding of the division and of the
    multiplication of line 469, as long as rounding keeps the order and
    leaves the integers up to 100 as they are, which the arithmetic of
    doubles does.  The number of filled cells never decreases when the
    percentage grows; the bar is empty at 0 and below and full at 100
    and above. *)
Theorem progress_bar_shape `{Doubles} (value : Q) :
  let filled := Z.to_nat (barFilled value) in
  0 <= barFilled value <= 20
  /\ makeProgressBar (Some value)
     = "[" ++ repeat_string "#" filled ++ repeat_string "." (20 - filled) ++ "]"
  /\ String.length (makeProgressBar (Some value)) = 22%nat
  /\ (forall more, (value <= more)%Q -> barFilled value <= barFilled more)
  /\ ((value <= 0)%Q -> filled = 0%nat)
  /\ ((100 <= value)%Q -> filled = 20%nat).
Proof.
  destruct (clamp_bounds value) as (Hlow & Hhigh & Hzero & Hfull).
  cbv zeta in Hlow, Hhigh, Hzero, Hfull.
  destruct (barProduct_bounds _ Hlow Hhigh) as (Hp0 & Hp1 & Hpz & Hpf).
  assert (Hrange : 0 <= barFilled value <= 20).
  { rewrite barFilled_unfold. split.
    - apply Qfloor_at_least. change (inject_Z 0) with 0%Q. lra.
    - assert (Hlt : ~ 21 <= Qfloor (fl (fl (Qmin 100 (Qmax 0 value) / 100) * 20)
                                     + (1 # 2))%Q); [| lia].
      rewrite Qfloor_at_least. change (inject_Z 21) with 21%Q. lra. }
  cbv zeta.
  split; [exact Hrange |].
  assert (Hbar : makeProgressBar (Some value)
                 = "[" ++ repeat_string "#" (Z.to_nat (barFilled value))
                   ++ repeat_string "." (20 - Z.to_nat (barFilled value)) ++ "]").
  { unfold makeProgressBar, padEnd. cbv zeta.
    rewrite length_repeat_string. cbn [String.length].
    rewrite Nat.mul_1_r. now rewrite !string_app_assoc. }
  split; [exact Hbar |].
  split.
  { rewrite Hbar, !length_append, !length_repeat_string. cbn [String.length]. lia. }
  split.
  { intros more Hmore. rewrite !barFilled_unfold. apply Qfloor_resp_le.
    pose proof (clamp_monotone _ _ Hmore) as Hclamp.
    assert (Hdiv : forall c : Q, (c / 100 == c * (1 # 100))%Q) by (intros; reflexivity).
    assert (Hinner : (fl (Qmin 100 (Qmax 0 value) / 100)
                      <= fl (Qmin 100 (Qmax 0 more) / 100))%Q).
    { apply fl_monotone. rewrite !Hdiv. lra. }
    assert (Houter : (fl (fl (Qmin 100 (Qmax 0 value) / 100) * 20)
                      <= fl (fl (Qmin 100 (Qmax 0 more) / 100) * 20))%Q).
    { apply fl_monotone. lra. }
    lra. }
  split.
  - intros Hle. specialize (Hpz (Hzero Hle)).
    assert (Hone : ~ 1 <= barFilled value); [| lia].
    rewrite barFilled_unfold, Qfloor_at_least. change (inject_Z 1) with 1%Q. lra.
  - intros Hge. specialize (Hpf (Hfull Hge)).
    assert (Htwenty : 20 <= barFilled value); [| lia].
    rewrite barFilled_unfold, Qfloor_at_least. change (inject_Z 20) with 20%Q. lra.
Qed.

Lemma progress_bar_shape_witness :
  @makeProgressBar exactDoubles (Some (125 # 10)) = "[###................." ++ "]"
  /\ @barFilled exactDoubles (125 # 10) <= @barFilled exactDoubles 250%Q
  /\ @makeProgressBar exactDoubles (Some 250%Q) = "[####################" ++ "]".
Proof.
  destruct (@progress_bar_shape exactDoubles (125 # 10)) as (_ & Hbar & _ & Hmono & _).
  destruct (@progress_bar_shape exactDoubles 250%Q) as (_ & Hfull & _ & _ & _ & Htwenty).
  split; [exact Hbar |]. split; [apply Hmono; lra |].
  rewrite Hfull, Htwenty by lra. reflexivity.
Defined.
